(** * Audio steganography: message codec and transform-domain strategies

    A shallow embedding of the Python sources

      - [utils/message_processor.py]      (class [MessageProcessor])
      - [utils/steganography_base.py]     (class [SteganographyBase])
      - [utils/audio_reader.py]           (class [AudioReader])
      - [methods/dft_steganography.py]    (class [DFTSteganographyFloat32])
      - [methods/dct_steganography.py]    (class [DCTSteganographyFloat32])
      - [methods/dwt_steganography.py]    (class [DWTSteganographyFloat32])
      - [analysis/robustness_analyzer.py] (class [RobustnessAnalyzer], the
        attacks without random numbers or filters)

    Conventions of the embedding.

      - A Python [str] holding text is a list of code points ([N]); a [str]
        made of the characters '0' and '1' is a list of booleans.
      - A sample or a coefficient is a rational number: every finite float is
        one.  Arithmetic is exact in the strategies; where a cast to integers
        makes the rounding of float32 matter, in the attacks of the
        robustness analysis, the rounding is a parameter.  The one place
        where the strategies leave the finite floats, the division 0/0 of
        the DFT normalization, is the outcome [NotANumber].
      - The numeric libraries (scipy's fft and dct, pywt's wavedec) are not
        part of the repository: they are parameters of the strategies,
        gathered in one record per library.  What a property needs of them
        (lengths kept, a written coefficient read back) is a hypothesis of
        that property.
      - An [embed] or [extract] method is split in two: the part on the
        chosen channel ([embed_channel], [extract_channel]) and the part
        around it that reads and writes files ([embed_with],
        [extract_with]), which threads the disk explicitly.
      - [print] calls are left out. *)

From Stdlib Require Import String.
From Stdlib Require Import List Arith NArith ZArith QArith Qabs Qround Qminmax Lia Bool.
Import ListNotations.

Set Implicit Arguments.
Local Open Scope nat_scope.

(** ** Python values shared by all modules *)

(** A text string, as the list of its code points ([ord] of each character). *)
Definition text := list N.

(** A string over the alphabet '0', '1'. *)
Definition bits := list bool.

(** [s[a:b]] for [0 <= a <= b]. *)
Definition slice {A} (a b : nat) (s : list A) : list A :=
  firstn (b - a) (skipn a s).

(** [s[:-k]] for [k > 0]. *)
Definition drop_last {A} (k : nat) (s : list A) : list A :=
  firstn (length s - k) s.

(** [range(0, n, k)] for [k > 0]. *)
Definition range_step (n k : nat) : list nat :=
  map (fun j => k * j) (seq 0 ((n + (k - 1)) / k)).

(** [s.endswith(suffix)]. *)
Definition endswith (s suffix : bits) : bool :=
  if list_eq_dec bool_dec (skipn (length s - length suffix) s) suffix
  then Nat.leb (length suffix) (length s) else false.

Module MessageProcessor.

(** [format(n, 'b')] for a positive number: binary digits, most significant
    first. *)
Fixpoint pos_digits (p : positive) : bits :=
  match p with
  | xH => [true]
  | xO q => pos_digits q ++ [false]
  | xI q => pos_digits q ++ [true]
  end.

(** [format(n, 'b')]. *)
Definition bin (n : N) : bits :=
  match n with
  | N0 => [false]
  | Npos p => pos_digits p
  end.

(** [format(n, '08b')]: the binary digits, padded with zeros on the left
    to a width of at least 8. *)
Definition format_08b (n : N) : bits :=
  repeat false (8 - length (bin n)) ++ bin n.

(** [text_to_binary]: [''.join(format(ord(i), '08b') for i in text)]. *)
Definition text_to_binary (t : text) : bits :=
  flat_map format_08b t.

(** [int(s, 2)] on a non-empty string of binary digits. *)
Definition int2 (s : bits) : N :=
  fold_left (fun acc (b : bool) => (2 * acc + (if b then 1 else 0))%N) s 0%N.

(** [binary_to_text]: trailing bits beyond a multiple of 8 are cut off,
    then every group of 8 is turned into a character. *)
Definition binary_to_text (binary : bits) : text :=
  let binary :=
    if Nat.eqb (length binary mod 8) 0 then binary
    else drop_last (length binary mod 8) binary in
  map (fun i => int2 (slice i (i + 8) binary)) (range_step (length binary) 8).

End MessageProcessor.

(** [END_MARKER = '1111111111111110'], the same constant in the three
    strategy classes. *)
Definition END_MARKER : bits := repeat true 15 ++ [false].

(** ** Exceptions, results and numpy helpers *)

(** The exceptions the modelled code can raise.  [TooLarge max_bits] is the
    [ValueError("Повідомлення занадто велике. Максимум {max_bits} біт.")]
    of the three [embed] methods, the capacity error of the specification. *)
Inductive error : Type :=
| TooLarge (max_bits : Z)
| IndexError
| EmptyReduction      (* ValueError of [np.max] on an array of size zero *)
| ShapeMismatch       (* ValueError of an array assignment of another shape *)
| FileNotFound.

(** What a call does: it returns, it raises, or its result holds NaN samples
    (a float division 0/0), which the rationals of this model do not have. *)
Inductive outcome (A : Type) : Type :=
| Returned (a : A)
| Raised (e : error)
| NotANumber.
Arguments Raised {A} e.
Arguments NotANumber {A}.

Definition bind {A B} (m : outcome A) (k : A -> outcome B) : outcome B :=
  match m with
  | Returned a => k a
  | Raised e => Raised e
  | NotANumber => NotANumber
  end.

(** The value returned, or [d]. *)
Definition returned_or {A} (d : A) (m : outcome A) : A :=
  match m with
  | Returned a => a
  | _ => d
  end.

Notation "x <- m ;; k" := (bind m (fun x => k))
  (at level 61, m at next level, right associativity).

(** [x > y] on floats. *)
Definition Qgtb (x y : Q) : bool := negb (Qle_bool x y).
(** [x >= y] on floats. *)
Definition Qgeb (x y : Q) : bool := Qle_bool y x.

(** [l[i]] for [0 <= i]. *)
Definition get_item {A} (i : nat) (l : list A) : outcome A :=
  match nth_error l i with
  | Some a => Returned a
  | None => Raised IndexError
  end.

(** [l[i] = v] for [0 <= i]. *)
Definition set_item {A} (i : nat) (v : A) (l : list A) : outcome (list A) :=
  if i <? length l then Returned (firstn i l ++ v :: skipn (S i) l)
  else Raised IndexError.

(** The value assigned to [n] places of a numpy array: an array of [n]
    values, or one value for all places; any other shape is a ValueError. *)
Definition broadcast {A} (n : nat) (block : list A) : outcome (list A) :=
  if length block =? n then Returned block
  else
    match block with
    | [v] => Returned (repeat v n)
    | _ => Raised ShapeMismatch
    end.

(** [l[a:b] = block] on a numpy array, for [a <= b <= len(l)]. *)
Definition set_slice {A} (a b : nat) (block l : list A) : outcome (list A) :=
  block <- broadcast (b - a) block ;;
  Returned (firstn a l ++ block ++ skipn b l).

(** [np.max(np.abs(x))]: numpy raises on an empty array. *)
Definition peak (x : list Q) : outcome Q :=
  match x with
  | [] => Raised EmptyReduction
  | a :: r => Returned (fold_left (fun m v => Qmax m (Qabs v)) r (Qabs a))
  end.

(** [np.floor]. *)
Definition floor (x : Q) : Q := inject_Z (Qfloor x).

(** The loop shared by the three [extract] methods.  [read i] is what one
    iteration finds at slot [i] before it appends a bit: the loop's own
    [break], a bit, or an exception. *)
Inductive reading : Type :=
| Stop
| Bit (b : bool)
| Fault (e : error).

(** [for i in idxs: ...; binary_message += bit;
   if binary_message.endswith(END_MARKER):
       binary_message = binary_message[:-len(END_MARKER)]; break] *)
Fixpoint extract_loop (read : nat -> reading) (idxs : list nat)
    (binary_message : bits) : outcome bits :=
  match idxs with
  | [] => Returned binary_message
  | i :: rest =>
      match read i with
      | Stop => Returned binary_message
      | Fault e => Raised e
      | Bit b =>
          let binary_message := binary_message ++ [b] in
          if endswith binary_message END_MARKER
          then Returned (drop_last (length END_MARKER) binary_message)
          else extract_loop read rest binary_message
      end
  end.

(** The print loops at the head of the [extract] methods show the first
    slots; all such a loop can do to the result is raise. *)
Fixpoint debug_loop (read : nat -> reading) (idxs : list nat) : outcome unit :=
  match idxs with
  | [] => Returned tt
  | i :: rest =>
      match read i with
      | Fault e => Raised e
      | _ => debug_loop read rest
      end
  end.

(** The literal ["Не вдалося вилучити повідомлення"] returned by the DCT and
    DWT [extract] when no bit is left to decode. *)
Definition EXTRACTION_FAILED : text :=
  [1053; 1077; 32; 1074; 1076; 1072; 1083; 1086; 1089; 1103; 32; 1074; 1080;
   1083; 1091; 1095; 1080; 1090; 1080; 32; 1087; 1086; 1074; 1110; 1076; 1086;
   1084; 1083; 1077; 1085; 1085; 1103]%N.

(** ** Audio data and the audio reader *)

(** A numpy array of samples: one-dimensional, or two-dimensional with one
    row per frame (the sample of channel 0 and those of the other channels). *)
Inductive audio : Type :=
| Mono (samples : list Q)
| Multi (frames : list (Q * list Q)).

(** [audio_data[:, 0]] for two dimensions, [audio_data] for one. *)
Definition first_channel (a : audio) : list Q :=
  match a with
  | Mono s => s
  | Multi f => map fst f
  end.

(** [modified_audio = audio_data.copy(); modified_audio[:, 0] = channel]
    for two dimensions, [modified_audio = channel] for one. *)
Definition with_first_channel (a : audio) (channel : list Q) : outcome audio :=
  match a with
  | Mono _ => Returned (Mono channel)
  | Multi f =>
      channel <- broadcast (length f) channel ;;
      Returned (Multi (map (fun p => (fst p, snd (snd p))) (combine channel f)))
  end.

Definition all_samples (a : audio) : list Q :=
  match a with
  | Mono s => s
  | Multi f => flat_map (fun p => fst p :: snd p) f
  end.

Definition scale_audio (k : Q) (a : audio) : audio :=
  match a with
  | Mono s => Mono (map (fun v => v / k)%Q s)
  | Multi f => Multi (map (fun p => (fst p / k, map (fun v => v / k) (snd p))%Q) f)
  end.


(** The files the audio reader works on: a path holds a sample rate and the
    decoded samples (the WAV container and its integer formats are outside
    the model; a file holds float32 samples), or samples that are NaN. *)
Inductive wav : Type :=
| Wav (sample_rate : N) (data : audio)
| WavNaN.

Definition disk := String.string -> option wav.

Definition write_disk (fs : disk) (p : String.string) (c : wav) : disk :=
  fun q => if String.eqb q p then Some c else fs q.

Module AudioReader.

(** [read_audio]: [wavfile.read] raises on a missing file. *)
Definition read_audio (fs : disk) (audio_path : String.string)
    : outcome (N * audio) :=
  match fs audio_path with
  | Some (Wav rate data) => Returned (rate, data)
  | Some WavNaN => NotANumber
  | None => Raised FileNotFound
  end.

(** [save_audio]: scales the data into [-1, 1] when its peak exceeds 1.0,
    then writes the file. *)
Definition save_audio (fs : disk) (audio_path : String.string)
    (sample_rate : N) (audio_data : audio) : outcome disk :=
  max_val <- peak (all_samples audio_data) ;;
  let audio_data :=
    if Qgtb max_val 1 then scale_audio max_val audio_data else audio_data in
  Returned (write_disk fs audio_path (Wav sample_rate audio_data)).

End AudioReader.

(** The part of an [embed] method around the work on channel 0: read the
    file, pick the channel, embed, put the channel back, save, return the
    original and the modified data.  The disk changes only when the work on
    the channel has succeeded; a channel of NaN samples is saved as such. *)
Definition embed_with (embed_channel : list Q -> text -> outcome (list Q))
    (fs : disk) (audio_path : String.string) (message : text)
    (output_path : String.string) : disk * outcome (audio * audio) :=
  match AudioReader.read_audio fs audio_path with
  | Returned (sample_rate, audio_data) =>
      match embed_channel (first_channel audio_data) message with
      | Returned modified_channel =>
          match with_first_channel audio_data modified_channel with
          | Returned modified_audio =>
              match AudioReader.save_audio fs output_path sample_rate modified_audio with
              | Returned fs' => (fs', Returned (audio_data, modified_audio))
              | Raised e => (fs, Raised e)
              | NotANumber => (fs, NotANumber)
              end
          | Raised e => (fs, Raised e)
          | NotANumber => (fs, NotANumber)
          end
      | Raised e => (fs, Raised e)
      | NotANumber => (write_disk fs output_path WavNaN, NotANumber)
      end
  | Raised e => (fs, Raised e)
  | NotANumber => (fs, NotANumber)
  end.

(** The same for [extract]. *)
Definition extract_with (extract_channel : list Q -> outcome text)
    (fs : disk) (audio_path : String.string) : outcome text :=
  c <- AudioReader.read_audio fs audio_path ;;
  extract_channel (first_channel (snd c)).

(** ** The coefficient-forcing strategy (DCT) *)

(** [scipy.fftpack]: [dct(x, type=2, norm='ortho')] and
    [idct(x, type=2, norm='ortho')]. *)
Record dct_library : Type := {
  dct : list Q -> list Q;
  idct : list Q -> list Q
}.

Module DCT.
Section WithLibrary.
Variable L : dct_library.

Definition block_size : nat := 1024.
Definition target_coef : nat := 5.
Definition bit1_value : Q := 1 # 10.
Definition bit0_value : Q := - (1 # 10).
Definition threshold : Q := 0.

(** The embedding loop, over [enumerate(binary_message)]. *)
Fixpoint embed_loop (num_blocks : nat) (channel_1 : list Q)
    (items : list (nat * bool)) (modified_channel : list Q)
    : outcome (list Q) :=
  match items with
  | [] => Returned modified_channel
  | (i, bit) :: rest =>
      if num_blocks <=? i then Returned modified_channel
      else
        let start_idx := i * block_size in
        let end_idx := start_idx + block_size in
        let block := slice start_idx end_idx channel_1 in
        let block_dct := dct L block in
        block_dct <- set_item target_coef
                       (if bit then bit1_value else bit0_value) block_dct ;;
        let modified_block := idct L block_dct in
        modified_channel <- set_slice start_idx end_idx modified_block
                              modified_channel ;;
        embed_loop num_blocks channel_1 rest modified_channel
  end.

(** [embed], from the chosen channel to the modified channel. *)
Definition embed_channel (channel_1 : list Q) (message : text)
    : outcome (list Q) :=
  let binary_message := MessageProcessor.text_to_binary message ++ END_MARKER in
  let num_blocks := length channel_1 / block_size in
  if num_blocks <? length binary_message
  then Raised (TooLarge (Z.of_nat num_blocks))
  else embed_loop num_blocks channel_1
         (combine (seq 0 (length binary_message)) binary_message) channel_1.

Definition embed := embed_with embed_channel.

(** One iteration of the extraction loops, up to the bit. *)
Definition read (channel_1 : list Q) (i : nat) : reading :=
  let start_idx := i * block_size in
  let end_idx := start_idx + block_size in
  let block := slice start_idx end_idx channel_1 in
  let block_dct := dct L block in
  match nth_error block_dct target_coef with
  | Some coef_value => Bit (Qgtb coef_value threshold)
  | None => Fault IndexError
  end.

(** [extract], from the chosen channel to the returned string.  The
    [except] branch around [binary_to_text] is never taken: on a string of
    binary digits [binary_to_text] does not raise. *)
Definition extract_channel (channel_1 : list Q) : outcome text :=
  let num_blocks := length channel_1 / block_size in
  _ <- debug_loop (read channel_1) (seq 0 (min 5 num_blocks)) ;;
  binary_message <- extract_loop (read channel_1) (seq 0 num_blocks) [] ;;
  if 0 <? length binary_message
  then Returned (MessageProcessor.binary_to_text binary_message)
  else Returned EXTRACTION_FAILED.

Definition extract := extract_with extract_channel.

End WithLibrary.
End DCT.

(** ** The wavelet-fraction strategy (DWT) *)

(** [pywt]: [wavedec(data, wavelet, level=level)], the list of subbands
    [cA_n, cD_n, ..., cD_1], and [waverec(coeffs, wavelet)]. *)
Record dwt_library : Type := {
  wavedec : list Q -> String.string -> nat -> list (list Q);
  waverec : list (list Q) -> String.string -> list Q
}.

Module DWT.
Section WithLibrary.
Variable L : dwt_library.

Definition wavelet : String.string := "db1"%string.
Definition level : nat := 5.
Definition subband_idx : nat := 2.
Definition step : nat := 100.
Definition bit1_frac : Q := 75 # 100.
Definition bit0_frac : Q := 25 # 100.

(** The embedding loop, over [enumerate(binary_message)]; it writes into
    the subband array. *)
Fixpoint embed_loop (items : list (nat * bool)) (target_subband : list Q)
    : outcome (list Q) :=
  match items with
  | [] => Returned target_subband
  | (i, bit) :: rest =>
      if length target_subband <=? i * step then Returned target_subband
      else
        let idx := i * step in
        v <- get_item idx target_subband ;;
        let base := floor v in
        target_subband <- set_item idx
                            (base + (if bit then bit1_frac else bit0_frac))%Q
                            target_subband ;;
        embed_loop rest target_subband
  end.

(** [embed], from the chosen channel to the modified channel.  The
    subband array is an element of [coeffs]: what the loop writes is what
    [waverec] reads. *)
Definition embed_channel (channel_1 : list Q) (message : text)
    : outcome (list Q) :=
  let binary_message := MessageProcessor.text_to_binary message ++ END_MARKER in
  let coeffs := wavedec L channel_1 wavelet level in
  target_subband <- get_item subband_idx coeffs ;;
  if length target_subband / step <? length binary_message
  then Raised (TooLarge (Z.of_nat (length target_subband / step)))
  else
    target_subband <- embed_loop
                        (combine (seq 0 (length binary_message)) binary_message)
                        target_subband ;;
    coeffs <- set_item subband_idx target_subband coeffs ;;
    let modified_channel := waverec L coeffs wavelet in
    Returned (firstn (length channel_1) modified_channel).

Definition embed := embed_with embed_channel.

(** One iteration of the extraction loop, up to the bit. *)
Definition read (target_subband : list Q) (i : nat) : reading :=
  let idx := i * step in
  match nth_error target_subband idx with
  | Some v =>
      let frac_part := (v - floor v)%Q in
      Bit (Qgeb frac_part (1 # 2))
  | None => Fault IndexError
  end.

(** [extract], from the chosen channel to the returned string.  The print
    loop over the first five slots tests its index and cannot raise. *)
Definition extract_channel (channel_1 : list Q) : outcome text :=
  let coeffs := wavedec L channel_1 wavelet level in
  target_subband <- get_item subband_idx coeffs ;;
  binary_message <- extract_loop (read target_subband)
                      (seq 0 (length target_subband / step)) [] ;;
  if 0 <? length binary_message
  then Returned (MessageProcessor.binary_to_text binary_message)
  else Returned EXTRACTION_FAILED.

Definition extract := extract_with extract_channel.

End WithLibrary.
End DWT.

(** ** The frequency-amplitude strategy (DFT) *)

(** [scipy.fft] and numpy's complex numbers: [fft], [ifft], [abs],
    [np.angle], [amp * np.exp(1j * phase)], [np.conj] (here [cconj]), [np.real]. *)
Record fft_library : Type := {
  complex : Type;
  fft : list Q -> list complex;
  ifft : list complex -> list complex;
  cabs : complex -> Q;
  angle : complex -> Q;
  polar : Q -> Q -> complex;
  cconj : complex -> complex;
  real : complex -> Q
}.

(** [l[-i] = v] for [0 <= i]. *)
Definition set_item_neg {A} (i : nat) (v : A) (l : list A) : outcome (list A) :=
  if i =? 0 then set_item 0 v l
  else if i <=? length l then set_item (length l - i) v l
  else Raised IndexError.

Module DFT.
Section WithLibrary.
Variable L : fft_library.

Definition start_idx : nat := 2000.
Definition step : nat := 2.
Definition bit1_value : Q := 1 # 100.
Definition bit0_value : Q := 1 # 1000.
Definition threshold : Q := 5 # 1000.

(** [channel_1 /= np.max(np.abs(channel_1))]: [None] when the divisor is
    zero, where every quotient is 0/0. *)
Definition normalize (channel_1 : list Q) : outcome (option (list Q)) :=
  m <- peak channel_1 ;;
  if Qeq_bool m 0 then Returned None
  else Returned (Some (map (fun v => v / m)%Q channel_1)).

(** [(len(channel_1) // 2 - self.start_idx) // self.step], with Python's
    floor division. *)
Definition max_bits (len : nat) : Z :=
  ((Z.of_nat (len / 2) - Z.of_nat start_idx) / Z.of_nat step)%Z.

(** The bit read from a spectral bin. *)
Definition classify (amplitude : Q) : bool := Qgtb amplitude threshold.

(** The embedding loop, over [enumerate(binary_message)]. *)
Fixpoint embed_loop (max_amp : Q) (items : list (nat * bool))
    (channel_dft : list (complex L)) : outcome (list (complex L)) :=
  match items with
  | [] => Returned channel_dft
  | (i, bit) :: rest =>
      let idx := start_idx + i * step in
      if length channel_dft / 2 <=? idx then Returned channel_dft
      else
        c <- get_item idx channel_dft ;;
        let phase := angle L c in
        let amp := if bit then bit1_value else bit0_value in
        let amp := Qmin amp (max_amp * (1 # 10)) in
        channel_dft <- set_item idx (polar L amp phase) channel_dft ;;
        c <- get_item idx channel_dft ;;
        channel_dft <- set_item_neg idx (cconj L c) channel_dft ;;
        embed_loop max_amp rest channel_dft
  end.

(** [embed], from the chosen channel to the modified channel. *)
Definition embed_channel (channel_1 : list Q) (message : text)
    : outcome (list Q) :=
  normalized <- normalize channel_1 ;;
  let binary_message := MessageProcessor.text_to_binary message ++ END_MARKER in
  let max_bits := max_bits (length channel_1) in
  if (max_bits <? Z.of_nat (length binary_message))%Z
  then Raised (TooLarge max_bits)
  else
    match normalized with
    | None => NotANumber
    | Some channel_1 =>
        let channel_dft := fft L channel_1 in
        max_amp <- peak (map (cabs L) channel_dft) ;;
        channel_dft <- embed_loop max_amp
                         (combine (seq 0 (length binary_message)) binary_message)
                         channel_dft ;;
        let modified_channel := map (real L) (ifft L channel_dft) in
        max_val <- peak modified_channel ;;
        if Qgtb max_val 1
        then Returned (map (fun v => v / max_val)%Q modified_channel)
        else Returned modified_channel
    end.

Definition embed := embed_with embed_channel.

(** One iteration of the print loop over the first ten slots. *)
Definition read_debug (channel_dft : list (complex L)) (i : nat) : reading :=
  let idx := start_idx + i * step in
  match nth_error channel_dft idx with
  | Some c => Bit (classify (cabs L c))
  | None => Fault IndexError
  end.

(** One iteration of the extraction loop, up to the bit. *)
Definition read (channel_dft : list (complex L)) (i : nat) : reading :=
  let idx := start_idx + i * step in
  if length channel_dft / 2 <=? idx then Stop
  else
    match nth_error channel_dft idx with
    | Some c =>
        let amplitude := cabs L c in
        Bit (classify amplitude)
    | None => Fault IndexError
    end.

(** [extract], from the chosen channel to the returned string.  [fft] of
    the library refuses an empty array; the parameter [fft] is total, and
    what is said of an empty channel is said under [channel_1 <> []]. *)
Definition extract_channel (channel_1 : list Q) : outcome text :=
  let channel_dft := fft L channel_1 in
  let max_bits := max_bits (length channel_1) in
  _ <- debug_loop (read_debug channel_dft) (seq 0 10) ;;
  binary_message <- extract_loop (read channel_dft)
                      (seq 0 (Z.to_nat max_bits)) [] ;;
  Returned (MessageProcessor.binary_to_text binary_message).

Definition extract := extract_with extract_channel.

End WithLibrary.
End DFT.

(** ** Library instances to run the strategies on

    The cosine and Fourier transforms have irrational coefficients; to run
    the strategies on rationals the libraries are instantiated with the
    simplest transform pairs that reconstruct their input: the coefficients
    of a block are its samples. *)
Module Plain.

Definition dct_lib : dct_library := {| dct := fun x => x; idct := fun x => x |}.

(** Six subbands as for [level = 5]; the detail subband of index 2 holds
    the samples. *)
Definition dwt_lib : dwt_library :=
  {| wavedec := fun x _ _ => [[]; []; x; []; []; []];
     waverec := fun cs _ => nth 2 cs [] |}.

(** Real "spectra": the magnitude is the absolute value, the phase is 0
    for a non-negative number and 1 (standing for pi) for a negative one. *)
Definition fft_lib : fft_library :=
  {| complex := Q;
     fft := fun x => x;
     ifft := fun x => x;
     cabs := Qabs;
     angle := fun c => if Qgtb 0 c then 1%Q else 0%Q;
     polar := fun amp phase => if Qeq_bool phase 0 then amp else (- amp)%Q;
     cconj := fun c => c;
     real := fun c => c |}.

Definition silence (n : nat) : list Q := repeat 0%Q n.
Definition tone (n : nat) : list Q := repeat (1 # 2)%Q n.

(** A disk with one file, ["in.wav"]. *)
Definition disk_with (data : audio) : disk :=
  fun p => if String.eqb p "in.wav" then Some (Wav 44100 data) else None.

(** Sixteen blocks of 1024 samples and three samples more. *)
Definition short_tone : list Q := tone (16 * 1024 + 3).

(** The channel the DCT [embed] makes of [short_tone] and the empty
    message. *)
Definition short_tone_dct : list Q :=
  returned_or [] (DCT.embed_channel dct_lib short_tone []).

End Plain.


(** ** Vocabulary of the properties *)

(** The bits an [embed] method writes: the message, then the marker. *)
Definition framed (message : text) : bits :=
  MessageProcessor.text_to_binary message ++ END_MARKER.

(** No proper prefix of [b] ends with the marker. *)
Definition marker_only_at_end (b : bits) : bool :=
  forallb (fun k => negb (endswith (firstn k b) END_MARKER)) (seq 0 (length b)).

(** No non-empty prefix of [b] ends with the marker. *)
Definition marker_never_read (b : bits) : bool :=
  forallb (fun k => negb (endswith (firstn k b) END_MARKER)) (seq 1 (length b)).

(** Every code point fits one byte. *)
Definition one_byte_characters (t : text) : bool :=
  forallb (fun c => (c <=? 255)%N) t.

(** The coefficients the DCT [embed] hands to [idct] for block [i]. *)
Definition dct_written (L : dct_library) (channel_1 : list Q) (i : nat)
    (bit : bool) : list Q :=
  let block_dct :=
    dct L (slice (i * DCT.block_size) (i * DCT.block_size + DCT.block_size)
             channel_1) in
  firstn DCT.target_coef block_dct
  ++ (if bit then DCT.bit1_value else DCT.bit0_value)
  :: skipn (S DCT.target_coef) block_dct.

(** The 256 characters of one byte, checked one by one. *)
Definition byte_ok (c : N) : bool :=
  (length (MessageProcessor.format_08b c) =? 8)
  && (MessageProcessor.int2 (MessageProcessor.format_08b c) =? c)%N.

(** ** The rest of the repository's pure code

    [MessageProcessor.calculate_ber], the base class
    [SteganographyBase], the sample conversion of [AudioReader.read_audio]
    and the deterministic attacks of [RobustnessAnalyzer]. *)

(** [s.startswith(p)]. *)
Fixpoint starts_with {A} (eqb : A -> A -> bool) (p s : list A) : bool :=
  match p, s with
  | [], _ => true
  | _ :: _, [] => false
  | a :: p', b :: s' => eqb a b && starts_with eqb p' s'
  end.

(** [p in s] on strings. *)
Fixpoint contains (p s : text) : bool :=
  starts_with N.eqb p s
  || match s with
     | [] => false
     | _ :: s' => contains p s'
     end.

(** [s.find(p)] on strings of binary digits, counting from [i]: the first
    index where [p] occurs, or [-1]. *)
Fixpoint find_from (p s : bits) (i : Z) : Z :=
  if starts_with Bool.eqb p s then i
  else
    match s with
    | [] => (-1)%Z
    | _ :: s' => find_from p s' (i + 1)%Z
    end.

Definition find (p s : bits) : Z := find_from p s 0%Z.

(** [difflib]: [SequenceMatcher(None, a, b).ratio()]. *)
Record difflib_library : Type := {
  ratio : text -> text -> Q
}.

Module BitErrorRate.
Section WithLibrary.
Variable D : difflib_library.

(** [all(c in '01' for c in s)]. *)
Definition binary_digits (s : text) : bool :=
  forallb (fun c => (c =? 48)%N || (c =? 49)%N) s.

(** [sum(1 for a, b in zip(x, y) if a != b)]. *)
Definition count_errors (x y : bits) : nat :=
  length (filter (fun ab => negb (Bool.eqb (fst ab) (snd ab))) (combine x y)).

(** [MessageProcessor.calculate_ber].  The extracted message is a string
    or [None].  The only exception of the [try] block is the division by a
    length of zero; the [except] branch answers it with the distance of
    [difflib]. *)
Definition calculate_ber (original_message : text)
    (extracted_message : option text) : Q :=
  match extracted_message with
  | None => 1
  | Some extracted_message =>
      if contains EXTRACTION_FAILED extracted_message then 1
      else
        let original_binary := MessageProcessor.text_to_binary original_message in
        let max_len := min (length original_binary) (length extracted_message * 8) in
        let original_binary := firstn max_len original_binary in
        let extracted_binary :=
          if binary_digits extracted_message
          then map (fun c => (c =? 49)%N) (firstn max_len extracted_message)
          else firstn max_len (MessageProcessor.text_to_binary extracted_message) in
        let errors := count_errors original_binary extracted_binary in
        if length original_binary =? 0
        then 1 - ratio D original_message extracted_message
        else Z.of_nat errors # Pos.of_nat (length original_binary)
  end.

(** [RobustnessAnalyzer.calculate_ber]. *)
Definition robustness_calculate_ber (original_message : text)
    (extracted_message : option text) : Q :=
  match extracted_message with
  | None => 1
  | Some extracted_message =>
      if contains EXTRACTION_FAILED extracted_message then 1
      else
        let similarity := ratio D original_message extracted_message in
        1 - similarity
  end.

End WithLibrary.
End BitErrorRate.

Module SteganographyBase.

(** [prepare_message]. *)
Definition prepare_message (message : text) (with_marker : bool) : bits :=
  let binary_message := MessageProcessor.text_to_binary message in
  if with_marker then binary_message ++ END_MARKER else binary_message.

(** [process_extracted_binary].  The [except] branch around
    [binary_to_text] is never taken. *)
Definition process_extracted_binary (binary_message : bits) : text :=
  let marker_pos := find END_MARKER binary_message in
  let binary_message :=
    if (marker_pos =? -1)%Z then binary_message
    else firstn (Z.to_nat marker_pos) binary_message in
  let remainder := length binary_message mod 8 in
  let binary_message :=
    if remainder =? 0 then binary_message
    else drop_last remainder binary_message in
  MessageProcessor.binary_to_text binary_message.

End SteganographyBase.

(** The sample formats [wavfile.read] returns, as [read_audio] tells them
    apart. *)
Inductive dtype : Type :=
| int16
| float32
| other_dtype.

Module WavData.

(** The conversion of [AudioReader.read_audio]: 16-bit samples are divided
    by 32768, any other format is cast to float32 as it is. *)
Definition to_float32 (d : dtype) (audio_data : audio) : audio :=
  match d with
  | int16 => scale_audio 32768 audio_data
  | float32 => audio_data
  | other_dtype => audio_data
  end.

End WavData.

(** [x.astype(np.int16)] and [np.int16(x)] on one float: the fractional
    part is cut off; numpy does not specify the result outside the 16-bit
    range. *)
Definition to_int16 (x : Q) : option Z :=
  let z := (Qnum x ÷ Zpos (Qden x))%Z in
  if ((-32768 <=? z) && (z <=? 32767))%Z then Some z else None.

(** Arithmetic of 16-bit integers wraps around. *)
Definition wrap_int16 (z : Z) : Z := ((z + 32768) mod 65536 - 32768)%Z.

(** [astype(np.int16)] on an array. *)
Fixpoint array_to_int16 (x : list Q) : option (list Z) :=
  match x with
  | [] => Some []
  | v :: r =>
      match to_int16 v, array_to_int16 r with
      | Some z, Some zs => Some (z :: zs)
      | _, _ => None
      end
  end.

(** Arithmetic on float32 arrays rounds every result to a float32:
    [fl32 x] is the float32 that [x] is rounded to. *)
Record float_library : Type := {
  fl32 : Q -> Q
}.

(** What an attack returns: an int16 array; an array with an element cast
    from a value outside the 16-bit range, infinite or NaN, which numpy
    leaves unspecified; or the [OverflowError] that numpy 2 raises for an
    int16 array combined with a Python integer outside the 16-bit range. *)
Inductive attacked : Type :=
| Samples (s : list Z)
| Unspecified
| OverflowError.

Module RobustnessAnalyzer.
Section WithLibrary.
Variable F : float_library.

(** [recompress]: [(audio_data / quality).astype(np.int16) * quality] on a
    float32 array.  The quotient is a float32 array; the product is one of
    an int16 array and the Python integer [quality], and wraps around. *)
Definition recompress (audio_data : list Q) (quality : Z) : attacked :=
  if negb ((-32768 <=? quality) && (quality <=? 32767))%Z then OverflowError
  else if (quality =? 0)%Z
  then match audio_data with [] => Samples [] | _ => Unspecified end
  else
    match array_to_int16
            (map (fun v => fl32 F (v / inject_Z quality))%Q audio_data) with
    | Some s => Samples (map (fun z => wrap_int16 (z * quality)) s)
    | None => Unspecified
    end.

(** [scale_amplitude]: [np.int16(audio_data * scale_factor)] on a float32
    array; the Python float [scale_factor] is taken as a float32. *)
Definition scale_amplitude (audio_data : list Q) (scale_factor : Q)
    : attacked :=
  match array_to_int16
          (map (fun v => fl32 F (v * fl32 F scale_factor))%Q audio_data) with
  | Some s => Samples s
  | None => Unspecified
  end.

End WithLibrary.

Definition default_quality : Z := 32.
Definition default_scale_factor : Q := 9 # 10.

End RobustnessAnalyzer.

(** The largest float32 below 1, [1 - 2^-24]. *)
Definition below_one : Q := 16777215 # 16777216.

(** An instance of the rounding to run the attacks on: the nearest
    multiple of [2^-24], which is what float32 has between 1/2 and 1. *)
Definition grid : float_library :=
  {| fl32 := fun x => (Qfloor (x * 16777216 + (1 # 2)) # 16777216)%Q |}.

(** An instance of [difflib] to run the error rates on: 1 for equal
    strings, 0 for others. *)
Definition exact_match : difflib_library :=
  {| ratio := fun a b => if list_eq_dec N.eq_dec a b then 1%Q else 0%Q |}.

(** The channels of an array other than channel 0, frame by frame. *)
Definition other_channels (a : audio) : list (list Q) :=
  match a with
  | Mono _ => []
  | Multi f => map snd f
  end.

(** A disk with a stereo file: the tone on channel 0, silence on the
    other channel; and what the DCT [embed] of the empty message does
    with it. *)
Definition stereo_tone : audio :=
  Multi (map (fun v => (v, [0%Q])) Plain.short_tone).

Definition stereo_embedded : disk * outcome (audio * audio) :=
  DCT.embed Plain.dct_lib (Plain.disk_with stereo_tone) "in.wav" [] "out.wav".

(** The mono tone of 24 blocks with the message "H" embedded by the DCT
    [embed]. *)
Definition mono_embedded : disk * outcome (audio * audio) :=
  DCT.embed Plain.dct_lib (Plain.disk_with (Mono (Plain.tone (24 * 1024))))
    "in.wav" [72%N] "out.wav".

(** All samples lie in [-1, 1]. *)
Definition within_unit (a : audio) : bool :=
  forallb (fun v => Qle_bool (Qabs v) 1) (all_samples a).

(** The bits left when [b] is cut at the first marker. *)
Definition cut_at_marker (b : bits) : bits :=
  if (find END_MARKER b =? -1)%Z then b
  else firstn (Z.to_nat (find END_MARKER b)) b.

(** What the DWT [embed] of the bits [bs] makes of the coefficient [v] of
    index [j] of the subband: at the slots, the integer part of [v] and
    the fraction of the bit. *)
Definition dwt_written (bs : bits) (j : nat) (v : Q) : Q :=
  if (j mod DWT.step =? 0) && (j / DWT.step <? length bs)
  then (floor v + (if nth (j / DWT.step) bs false
                   then DWT.bit1_frac else DWT.bit0_frac))%Q
  else v.

(** The magnitude the DFT [embed] writes for a bit, under a spectrum
    whose largest magnitude is [max_amp]. *)
Definition dft_amp (max_amp : Q) (bit : bool) : Q :=
  Qmin (if bit then DFT.bit1_value else DFT.bit0_value) (max_amp * (1 # 10)).

(** [X] is the spectrum [F] with some bins rewritten in pairs: the bin of
    index [k] and the bin of index [len - k] hold a value and its
    conjugate. *)
Definition conjugate_pairs (L : fft_library) (F X : list (complex L)) : Prop :=
  length X = length F /\
  forall k, k < length F ->
    nth_error X k = nth_error F k \/
    0 < k /\
    (nth_error X (length F - k) = option_map (cconj L) (nth_error X k) \/
     nth_error X k = option_map (cconj L) (nth_error X (length F - k))).

(** The stages of the DFT [embed] on a channel and the bits [b]: the
    largest magnitude [max_amp] of the spectrum of the normalized channel,
    the spectrum [X'] the embedding loop leaves, the peak [max_val] of
    its inverse transform, and the channel [out] that is returned. *)
Definition dft_stages (L : fft_library) (channel_1 : list Q) (b : bits)
    (max_amp : Q) (X' : list (complex L)) (max_val : Q) (out : list Q) : Prop :=
  exists normalized,
    DFT.normalize channel_1 = Returned (Some normalized) /\
    peak (map (cabs L) (fft L normalized)) = Returned max_amp /\
    DFT.embed_loop L max_amp (combine (seq 0 (length b)) b) (fft L normalized)
      = Returned X' /\
    peak (map (real L) (ifft L X')) = Returned max_val /\
    out = (if Qgtb max_val 1
           then map (fun v => v / max_val)%Q (map (real L) (ifft L X'))
           else map (real L) (ifft L X')).

(** An [embed] call [r] that has put the channel [out] into the data and
    written the result: the modified data is the original with [out] as
    its channel 0, the file at the output path holds it, scaled by
    [save_audio] when its peak exceeds 1, and the call returns the
    original data with the modified data. *)
Definition embedded (r : disk * outcome (audio * audio)) (fs : disk)
    (output_path : String.string) (sample_rate : N) (audio_data : audio)
    (out : list Q) : Prop :=
  exists (modified : audio) (m : Q),
    first_channel modified = out /\
    other_channels modified = other_channels audio_data /\
    peak (all_samples modified) = Returned m /\
    r = (write_disk fs output_path
           (Wav sample_rate
              (if Qgtb m 1 then scale_audio m modified else modified)),
         Returned (audio_data, modified)).

(** * Properties *)

(** ** The message codec *)

Module CodecFacts.
Import MessageProcessor.

Lemma slice_all {A} (n : nat) (l : list A) :
  length l = n -> slice 0 n l = l.
Proof.
  intros H. unfold slice. rewrite Nat.sub_0_r. simpl.
  apply firstn_all2. lia.
Qed.

Lemma slice_firstn {A} (a b n : nat) (l : list A) :
  b <= n -> slice a b (firstn n l) = slice a b l.
Proof.
  intros H. unfold slice.
  rewrite skipn_firstn_comm, firstn_firstn.
  f_equal. lia.
Qed.

Lemma slice_app_right {A} (a b : nat) (w l : list A) :
  slice (length w + a) (length w + b) (w ++ l) = slice a b l.
Proof.
  unfold slice. rewrite skipn_app.
  rewrite skipn_all2 by lia. simpl.
  f_equal; [lia | f_equal; lia].
Qed.

Lemma slice_app_left {A} (w l : list A) :
  slice 0 (length w) (w ++ l) = w.
Proof.
  unfold slice. rewrite Nat.sub_0_r. simpl.
  rewrite firstn_app, Nat.sub_diag, firstn_all. simpl. apply app_nil_r.
Qed.

Lemma range_step_8 (q : nat) :
  range_step (8 * q) 8 = map (fun j => 8 * j) (seq 0 q).
Proof.
  unfold range_step. do 2 f_equal.
  replace (8 * q + (8 - 1)) with (7 + q * 8) by lia.
  rewrite Nat.div_add by lia. reflexivity.
Qed.

(** The string [binary_to_text] decodes: a whole number of groups. *)
Lemma length_cut (binary : bits) :
  length (if Nat.eqb (length binary mod 8) 0 then binary
          else drop_last (length binary mod 8) binary)
  = 8 * (length binary / 8).
Proof.
  pose proof (Nat.div_mod_eq (length binary) 8) as E.
  destruct (Nat.eqb_spec (length binary mod 8) 0) as [H | H].
  - lia.
  - unfold drop_last. rewrite length_firstn. lia.
Qed.

(** [binary_to_text] decodes group [j] of the input for every [j] below
    [len // 8], and nothing else. *)
Lemma binary_to_text_groups (binary : bits) :
  binary_to_text binary =
  map (fun j => int2 (slice (8 * j) (8 * j + 8) binary))
      (seq 0 (length binary / 8)).
Proof.
  unfold binary_to_text.
  rewrite length_cut, range_step_8, map_map.
  apply map_ext_in. intros j Hj. apply in_seq in Hj. f_equal.
  destruct (Nat.eqb (length binary mod 8) 0); [reflexivity |].
  unfold drop_last. apply slice_firstn.
  pose proof (Nat.div_mod_eq (length binary) 8). lia.
Qed.

Lemma binary_to_text_nil : binary_to_text [] = [].
Proof. reflexivity. Qed.

Lemma binary_to_text_cons (w rest : bits) :
  length w = 8 ->
  binary_to_text (w ++ rest) = int2 w :: binary_to_text rest.
Proof.
  intros Hw. rewrite !binary_to_text_groups, length_app, Hw.
  replace (8 + length rest) with (1 * 8 + length rest) by lia.
  rewrite Nat.div_add_l by lia.
  change (1 + length rest / 8) with (S (length rest / 8)).
  cbn [seq map]. rewrite <- seq_shift, map_map. f_equal.
  - f_equal. change (8 * 0) with 0. change (0 + 8) with 8.
    rewrite <- Hw. apply slice_app_left.
  - apply map_ext. intros j. f_equal.
    replace (8 * S j) with (length w + 8 * j) by lia.
    replace (length w + 8 * j + 8) with (length w + (8 * j + 8)) by lia.
    apply slice_app_right.
Qed.

(** Digits and value of a positive number. *)
Lemma pos_digits_bounds (p : positive) :
  2 ^ (length (pos_digits p) - 1) <= Pos.to_nat p < 2 ^ length (pos_digits p).
Proof.
  induction p as [p IH | p IH |]; simpl pos_digits.
  - rewrite length_app. simpl length.
    replace (length (pos_digits p) + 1 - 1) with (S (length (pos_digits p) - 1)).
    + rewrite Nat.add_1_r, !Nat.pow_succ_r', Pos2Nat.inj_xI. lia.
    + destruct (pos_digits p); simpl in *; lia.
  - rewrite length_app. simpl length.
    replace (length (pos_digits p) + 1 - 1) with (S (length (pos_digits p) - 1)).
    + rewrite Nat.add_1_r, !Nat.pow_succ_r', Pos2Nat.inj_xO. lia.
    + destruct (pos_digits p); simpl in *; lia.
  - simpl. lia.
Qed.

Lemma length_bin_wide (c : N) : (255 < c)%N -> 8 < length (bin c).
Proof.
  intros H. destruct c as [| p]; [lia |]. simpl.
  pose proof (pos_digits_bounds p) as [_ Hu].
  destruct (le_lt_dec (length (pos_digits p)) 8) as [Hle | Hgt]; [| exact Hgt].
  exfalso.
  assert (2 ^ length (pos_digits p) <= 2 ^ 8)
    by (apply Nat.pow_le_mono_r; lia).
  change (2 ^ 8) with 256 in *.
  assert (255 < Pos.to_nat p) by lia.
  lia.
Qed.

Lemma format_08b_wide (c : N) : (255 < c)%N -> format_08b c = bin c.
Proof.
  intros H. unfold format_08b.
  pose proof (length_bin_wide H).
  replace (8 - length (bin c)) with 0 by lia. reflexivity.
Qed.

Lemma bytes_ok : forallb byte_ok (map N.of_nat (seq 0 256)) = true.
Proof. vm_compute. reflexivity. Qed.

Lemma format_08b_byte (c : N) :
  (c < 256)%N -> length (format_08b c) = 8 /\ int2 (format_08b c) = c.
Proof.
  intros H.
  assert (Hin : In c (map N.of_nat (seq 0 256))).
  { apply in_map_iff. exists (N.to_nat c). split; [apply N2Nat.id |].
    apply in_seq. lia. }
  pose proof bytes_ok as Hall. rewrite forallb_forall in Hall.
  specialize (Hall c Hin). unfold byte_ok in Hall.
  apply andb_prop in Hall. destruct Hall as [H1 H2].
  split; [apply Nat.eqb_eq, H1 | apply N.eqb_eq, H2].
Qed.

Lemma length_format_08b_ge (c : N) : 8 <= length (format_08b c).
Proof.
  unfold format_08b. rewrite length_app, repeat_length. lia.
Qed.

Lemma length_text_to_binary_ge (t : text) :
  8 * length t <= length (text_to_binary t).
Proof.
  induction t as [| c t IH]; simpl; [lia |].
  change (text_to_binary (c :: t)) with (format_08b c ++ text_to_binary t).
  rewrite length_app. pose proof (length_format_08b_ge c).
  unfold text_to_binary in *. lia.
Qed.

Lemma length_text_to_binary (t : text) :
  Forall (fun c => (c < 256)%N) t -> length (text_to_binary t) = 8 * length t.
Proof.
  induction 1 as [| c t Hc _ IH]; [reflexivity |].
  change (text_to_binary (c :: t)) with (format_08b c ++ text_to_binary t).
  rewrite length_app, IH. destruct (format_08b_byte Hc) as [-> _].
  simpl length. lia.
Qed.

Lemma binary_to_text_to_binary (t : text) :
  Forall (fun c => (c < 256)%N) t -> binary_to_text (text_to_binary t) = t.
Proof.
  induction 1 as [| c t Hc _ IH]; [reflexivity |].
  change (text_to_binary (c :: t)) with (format_08b c ++ text_to_binary t).
  destruct (format_08b_byte Hc) as [Hl Hv].
  rewrite binary_to_text_cons by exact Hl. rewrite Hv, IH. reflexivity.
Qed.

(** Every character [binary_to_text] returns is one byte. *)
Lemma int2_bound (w : bits) : (int2 w < 2 ^ N.of_nat (length w))%N.
Proof.
  unfold int2.
  assert (G : forall (w : bits) (acc : N) (k : nat),
            (acc < 2 ^ N.of_nat k)%N ->
            (fold_left (fun a (b : bool) => 2 * a + (if b then 1 else 0)) w acc
             < 2 ^ N.of_nat (k + length w))%N).
  { clear w. induction w as [| b w IH]; intros acc k Hacc.
    - simpl. rewrite Nat.add_0_r. exact Hacc.
    - cbn [fold_left length].
      replace (k + S (length w)) with (S k + length w) by lia.
      apply IH. rewrite Nat2N.inj_succ, N.pow_succ_r'.
      destruct b; lia. }
  apply (G w 0%N 0). simpl. lia.
Qed.

Lemma binary_to_text_bytes (binary : bits) :
  Forall (fun c => (c < 256)%N) (binary_to_text binary).
Proof.
  rewrite binary_to_text_groups. apply Forall_forall.
  intros c Hc. apply in_map_iff in Hc. destruct Hc as [j [<- _]].
  eapply N.lt_le_trans; [apply int2_bound |].
  change 256%N with (2 ^ N.of_nat 8)%N.
  apply N.pow_le_mono_r; [lia |].
  unfold slice. pose proof (firstn_le_length (8 * j + 8 - 8 * j) (skipn (8 * j) binary)).
  lia.
Qed.

End CodecFacts.

Module CodecClaims.
Import MessageProcessor CodecFacts.

Lemma int2_snoc (w : bits) (b : bool) :
  int2 (w ++ [b]) = (2 * int2 w + (if b then 1 else 0))%N.
Proof. unfold int2. rewrite fold_left_app. reflexivity. Qed.

Lemma int2_pos_digits (p : positive) : int2 (pos_digits p) = Npos p.
Proof.
  induction p as [p IH | p IH |]; cbn [pos_digits].
  - rewrite int2_snoc, IH. reflexivity.
  - rewrite int2_snoc, IH. reflexivity.
  - reflexivity.
Qed.

Lemma int2_bin (c : N) : int2 (bin c) = c.
Proof. destruct c; [reflexivity | apply int2_pos_digits]. Qed.

(** C5, as the code has it: [text_to_binary] has no failure; a character
    whose code point exceeds 255 is written with all its binary digits,
    more than 8 of them and none cut off, so a text holding such a
    character gets more than 8 bits per character. *)
Theorem text_to_binary_wide_character :
  forall (t : text) (c : N),
    In c t -> (255 < c)%N ->
    format_08b c = bin c /\
    8 < length (format_08b c) /\
    int2 (format_08b c) = c /\
    8 * length t < length (text_to_binary t).
Proof.
  intros t c Hin Hc.
  pose proof (format_08b_wide Hc) as E.
  pose proof (length_bin_wide Hc) as Hl.
  repeat split.
  - exact E.
  - rewrite E. exact Hl.
  - rewrite E. apply int2_bin.
  - apply in_split in Hin. destruct Hin as [l1 [l2 ->]].
    unfold text_to_binary. rewrite flat_map_app. cbn [flat_map].
    rewrite !length_app, E.
    pose proof (length_text_to_binary_ge l1).
    pose proof (length_text_to_binary_ge l2).
    unfold text_to_binary in *. cbn [length]. lia.
Qed.

Lemma text_to_binary_wide_character_witness :
  In 1053%N [72%N; 1053%N] /\ (255 < 1053)%N /\
  8 * length [72%N; 1053%N] < length (text_to_binary [72%N; 1053%N]).
Proof.
  assert (Hin : In 1053%N [72%N; 1053%N]) by (right; left; reflexivity).
  assert (Hc : (255 < 1053)%N) by reflexivity.
  split; [exact Hin | split; [exact Hc |]].
  exact (proj2 (proj2 (proj2
           (@text_to_binary_wide_character [72%N; 1053%N] 1053%N Hin Hc)))).
Defined.

(** The character of code point 256 is encoded, into nine bits. *)
Lemma text_to_binary_256 :
  text_to_binary [256%N] =
  [true; false; false; false; false; false; false; false; false].
Proof. reflexivity. Qed.

(** C6: on a bit string whose length is not a multiple of 8,
    [binary_to_text] (a total function) decodes what it decodes on the
    string without its last [len mod 8] bits: the complete groups of 8,
    in order.  Ten bits are decoded from the first eight. *)
Theorem binary_to_text_alignment_loss :
  forall binary : bits,
    length binary mod 8 <> 0 ->
    binary_to_text binary =
      binary_to_text (firstn (length binary - length binary mod 8) binary) /\
    binary_to_text binary =
      map (fun j => int2 (slice (8 * j) (8 * j + 8) binary))
          (seq 0 (length binary / 8)) /\
    (length binary = 10 -> binary_to_text binary = [int2 (firstn 8 binary)]).
Proof.
  intros binary Hr.
  pose proof (Nat.div_mod_eq (length binary) 8) as E.
  split; [| split].
  - rewrite (binary_to_text_groups binary).
    rewrite (binary_to_text_groups (firstn _ binary)).
    rewrite length_firstn.
    replace (Nat.min (length binary - length binary mod 8) (length binary))
      with (length binary / 8 * 8) by lia.
    rewrite Nat.div_mul by lia.
    apply map_ext_in. intros j Hj. apply in_seq in Hj.
    f_equal. symmetry. apply slice_firstn. lia.
  - apply binary_to_text_groups.
  - intros H10. rewrite binary_to_text_groups, H10. reflexivity.
Qed.

Lemma binary_to_text_alignment_loss_witness :
  let binary := [false; true; false; false; true; false; false; false;
                 true; true] in
  length binary mod 8 <> 0 /\ binary_to_text binary = [72%N].
Proof.
  cbv zeta.
  assert (Hr : length [false; true; false; false; true; false; false; false;
                       true; true] mod 8 <> 0) by (simpl; lia).
  split; [exact Hr |].
  exact (proj2 (proj2 (binary_to_text_alignment_loss _ Hr)) eq_refl).
Defined.

(** C9: on a text whose code points are at most 255, [text_to_binary]
    gives exactly 8 bits per character and [binary_to_text] gives the
    text back. *)
Theorem codec_round_trip :
  forall t : text,
    Forall (fun c => (c <= 255)%N) t ->
    binary_to_text (text_to_binary t) = t /\
    length (text_to_binary t) = 8 * length t.
Proof.
  intros t H.
  assert (H' : Forall (fun c => (c < 256)%N) t).
  { eapply Forall_impl; [| exact H]. simpl. intros; lia. }
  split; [apply binary_to_text_to_binary | apply length_text_to_binary]; exact H'.
Qed.

Lemma codec_round_trip_witness :
  Forall (fun c => (c <= 255)%N) [72%N; 105%N; 255%N] /\
  binary_to_text (text_to_binary [72%N; 105%N; 255%N]) = [72%N; 105%N; 255%N] /\
  length (text_to_binary [72%N; 105%N; 255%N]) = 8 * length [72%N; 105%N; 255%N].
Proof.
  assert (H : Forall (fun c => (c <= 255)%N) [72%N; 105%N; 255%N]).
  { repeat constructor; apply N.leb_le; reflexivity. }
  split; [exact H | exact (codec_round_trip H)].
Defined.

End CodecClaims.

(** ** The extraction loop and the end marker *)

Module LoopFacts.

Lemma length_END_MARKER : length END_MARKER = 16.
Proof. reflexivity. Qed.

Lemma endswith_short (s : bits) :
  length s < 16 -> endswith s END_MARKER = false.
Proof.
  intros H. unfold endswith.
  destruct (list_eq_dec _ _ _); [| reflexivity].
  apply Nat.leb_gt. rewrite length_END_MARKER. exact H.
Qed.

Lemma endswith_app_marker (s : bits) : endswith (s ++ END_MARKER) END_MARKER = true.
Proof.
  unfold endswith. rewrite length_app, Nat.add_sub.
  rewrite skipn_app, Nat.sub_diag, skipn_all. simpl skipn.
  destruct (list_eq_dec _ _ _) as [_ | N]; [| exfalso; apply N; reflexivity].
  apply Nat.leb_le. lia.
Qed.

Lemma drop_last_app_marker (s : bits) :
  drop_last (length END_MARKER) (s ++ END_MARKER) = s.
Proof.
  unfold drop_last. rewrite length_app, Nat.add_sub.
  rewrite firstn_app, Nat.sub_diag, firstn_all. simpl. apply app_nil_r.
Qed.

(** A scan whose readings are the bits [bs], none of whose prefixes makes
    the message end with the marker, returns everything it read. *)
Lemma extract_loop_no_marker (read : nat -> reading) :
  forall (idxs : list nat) (bs acc : bits),
    map read idxs = map Bit bs ->
    (forall k, 1 <= k <= length bs ->
               endswith (acc ++ firstn k bs) END_MARKER = false) ->
    extract_loop read idxs acc = Returned (acc ++ bs).
Proof.
  induction idxs as [| i idxs IH]; intros bs acc Hread Hfree.
  - destruct bs; [| discriminate]. rewrite app_nil_r. reflexivity.
  - destruct bs as [| b bs]; [discriminate |].
    cbn [map] in Hread. injection Hread as Hi Hrest.
    cbn [extract_loop]. rewrite Hi.
    assert (H1 : endswith (acc ++ [b]) END_MARKER = false)
      by (apply (Hfree 1); cbn [length]; lia).
    rewrite H1.
    rewrite (IH bs (acc ++ [b]) Hrest).
    + rewrite <- app_assoc. reflexivity.
    + intros k Hk. rewrite <- app_assoc.
      apply (Hfree (S k)). cbn [length]. lia.
Qed.

(** A scan whose first readings are the bits [bs], the first of whose
    prefixes to make the message end with the marker is [bs] itself,
    stops there and returns the message without the marker. *)
Lemma extract_loop_marker (read : nat -> reading) :
  forall (idxs1 idxs2 : list nat) (bs acc : bits),
    map read idxs1 = map Bit bs ->
    bs <> [] ->
    (forall k, 1 <= k < length bs ->
               endswith (acc ++ firstn k bs) END_MARKER = false) ->
    endswith (acc ++ bs) END_MARKER = true ->
    extract_loop read (idxs1 ++ idxs2) acc =
    Returned (drop_last (length END_MARKER) (acc ++ bs)).
Proof.
  induction idxs1 as [| i idxs1 IH]; intros idxs2 bs acc Hread Hne Hfree Hend.
  - destruct bs; [contradiction | discriminate].
  - destruct bs as [| b bs]; [discriminate |].
    cbn [map] in Hread. injection Hread as Hi Hrest.
    cbn [app extract_loop]. rewrite Hi.
    destruct bs as [| b' bs].
    + rewrite Hend. reflexivity.
    + assert (H1 : endswith (acc ++ [b]) END_MARKER = false)
        by (apply (Hfree 1); cbn [length]; lia).
      rewrite H1.
      rewrite (IH idxs2 (b' :: bs) (acc ++ [b]) Hrest).
      * rewrite <- app_assoc. reflexivity.
      * discriminate.
      * intros k Hk. rewrite <- app_assoc.
        apply (Hfree (S k)). cbn [length] in *. lia.
      * rewrite <- app_assoc. exact Hend.
Qed.

Lemma debug_loop_bits (read : nat -> reading) :
  forall (idxs : list nat) (bs : bits),
    map read idxs = map Bit bs -> debug_loop read idxs = Returned tt.
Proof.
  induction idxs as [| i idxs IH]; intros bs H; [reflexivity |].
  destruct bs as [| b bs]; [discriminate |].
  cbn [map] in H. injection H as Hi Hrest.
  cbn [debug_loop]. rewrite Hi. exact (IH bs Hrest).
Qed.

Lemma map_firstn_seq {A} (f : nat -> A) (l : list A) (n m : nat) :
  map f (seq 0 m) = l -> n <= m -> map f (seq 0 n) = firstn n l.
Proof.
  intros H Hn. subst l.
  replace m with (n + (m - n)) by lia.
  rewrite seq_app, map_app, firstn_app, length_map, length_seq, Nat.sub_diag.
  rewrite firstn_all2 by (rewrite length_map, length_seq; lia).
  simpl. symmetry. apply app_nil_r.
Qed.

(** The failure string has characters no decoding returns. *)
Lemma decoded_is_not_failure (binary : bits) :
  MessageProcessor.binary_to_text binary <> EXTRACTION_FAILED.
Proof.
  intros E. pose proof (CodecFacts.binary_to_text_bytes binary) as H.
  rewrite E in H. inversion H as [| c t Hc _]. revert Hc. vm_compute. discriminate.
Qed.

End LoopFacts.

(** ** Lists as arrays *)

Module ArrayFacts.

Lemma length_splice {A} (a b : nat) (block l : list A) :
  a <= b <= length l -> length block = b - a ->
  length (firstn a l ++ block ++ skipn b l) = length l.
Proof.
  intros Hab Hb. rewrite !length_app, length_firstn, length_skipn. lia.
Qed.

Lemma nth_error_splice_outside {A} (a b : nat) (block l : list A) (j : nat) :
  a <= b <= length l -> length block = b - a ->
  j < a \/ b <= j ->
  nth_error (firstn a l ++ block ++ skipn b l) j = nth_error l j.
Proof.
  intros Hab Hb [Hj | Hj].
  - rewrite nth_error_app1 by (rewrite length_firstn; lia).
    rewrite nth_error_firstn.
    destruct (Nat.ltb_spec j a); [reflexivity | lia].
  - rewrite nth_error_app2 by (rewrite length_firstn; lia).
    rewrite nth_error_app2 by (rewrite length_firstn; lia).
    rewrite nth_error_skipn, length_firstn. f_equal. lia.
Qed.

Lemma nth_error_splice_inside {A} (a b : nat) (block l : list A) (j : nat) :
  a <= b <= length l -> length block = b - a ->
  j < b - a ->
  nth_error (firstn a l ++ block ++ skipn b l) (a + j) = nth_error block j.
Proof.
  intros Hab Hb Hj.
  rewrite nth_error_app2 by (rewrite length_firstn; lia).
  rewrite nth_error_app1 by (rewrite length_firstn; lia).
  rewrite length_firstn. f_equal. lia.
Qed.

Lemma nth_error_slice {A} (a n : nat) (l : list A) (j : nat) :
  nth_error (slice a (a + n) l) j =
  if j <? n then nth_error l (a + j) else None.
Proof.
  unfold slice. rewrite nth_error_firstn, nth_error_skipn.
  replace (a + n - a) with n by lia. reflexivity.
Qed.

Lemma slice_is {A} (a n : nat) (l block : list A) :
  length block = n ->
  (forall j, j < n -> nth_error l (a + j) = nth_error block j) ->
  slice a (a + n) l = block.
Proof.
  intros Hb H. apply nth_error_ext. intros j.
  rewrite nth_error_slice.
  destruct (Nat.ltb_spec j n) as [Hj | Hj]; [apply H, Hj |].
  symmetry. apply nth_error_None. lia.
Qed.

Lemma length_slice {A} (a n : nat) (l : list A) :
  a + n <= length l -> length (slice a (a + n) l) = n.
Proof.
  intros H. unfold slice. rewrite length_firstn, length_skipn. lia.
Qed.

Lemma set_item_ok {A} (i : nat) (v : A) (l : list A) :
  i < length l ->
  set_item i v l = Returned (firstn i l ++ v :: skipn (S i) l).
Proof.
  intros H. unfold set_item.
  destruct (Nat.ltb_spec i (length l)); [reflexivity | lia].
Qed.

Lemma length_set {A} (i : nat) (v : A) (l : list A) :
  i < length l -> length (firstn i l ++ v :: skipn (S i) l) = length l.
Proof.
  intros H. rewrite length_app, length_firstn. cbn [length].
  rewrite length_skipn. lia.
Qed.

Lemma nth_error_set {A} (i : nat) (v : A) (l : list A) (j : nat) :
  i < length l ->
  nth_error (firstn i l ++ v :: skipn (S i) l) j =
  if j =? i then Some v else nth_error l j.
Proof.
  intros H.
  destruct (Nat.eqb_spec j i) as [-> | Hne].
  - rewrite nth_error_app2 by (rewrite length_firstn; lia).
    rewrite length_firstn.
    replace (i - Nat.min i (length l)) with 0 by lia. reflexivity.
  - destruct (Nat.lt_ge_cases j i) as [Hlt | Hge].
    + rewrite nth_error_app1 by (rewrite length_firstn; lia).
      rewrite nth_error_firstn.
      destruct (Nat.ltb_spec j i); [reflexivity | lia].
    + rewrite nth_error_app2 by (rewrite length_firstn; lia).
      rewrite length_firstn.
      replace (j - Nat.min i (length l)) with (S (j - S i)) by lia.
      cbn [nth_error]. rewrite nth_error_skipn. f_equal. lia.
Qed.

Lemma length_broadcast {A} (n : nat) (block out : list A) :
  broadcast n block = Returned out -> length out = n.
Proof.
  unfold broadcast. destruct (Nat.eqb_spec (length block) n) as [E | _].
  - intros H. injection H as <-. exact E.
  - destruct block as [| v [| w block]]; try discriminate.
    intros H. injection H as <-. apply repeat_length.
Qed.

Lemma broadcast_same {A} (n : nat) (block : list A) :
  length block = n -> broadcast n block = Returned block.
Proof.
  intros H. unfold broadcast. rewrite H, Nat.eqb_refl. reflexivity.
Qed.

Lemma get_item_ok {A} (i : nat) (l : list A) (a : A) :
  nth_error l i = Some a -> get_item i l = Returned a.
Proof. intros H. unfold get_item. rewrite H. reflexivity. Qed.

End ArrayFacts.

(** ** The coefficient-forcing strategy *)

Module DCTFacts.
Section WithLibrary.
Import ArrayFacts.
Variable L : dct_library.
Hypothesis dct_length :
  forall x, length x = DCT.block_size -> length (dct L x) = DCT.block_size.
Hypothesis idct_length :
  forall x, length x = DCT.block_size -> length (idct L x) = DCT.block_size.

Lemma length_dct_written (ch : list Q) (i : nat) (bit : bool) :
  (i + 1) * DCT.block_size <= length ch ->
  length (dct_written L ch i bit) = DCT.block_size.
Proof.
  intros Hi. unfold dct_written.
  assert (Hb : length (dct L (slice (i * DCT.block_size)
                 (i * DCT.block_size + DCT.block_size) ch)) = DCT.block_size).
  { apply dct_length, length_slice. lia. }
  rewrite length_set; [exact Hb |].
  rewrite Hb. unfold DCT.target_coef, DCT.block_size. lia.
Qed.

(** What the embedding loop does to the channel: blocks [k] to
    [k + len(bits) - 1] are rewritten, everything else is kept. *)
Lemma dct_embed_loop_spec (ch : list Q) :
  forall (bs : bits) (k : nat) (modified : list Q),
    length modified = length ch ->
    k + length bs <= length ch / DCT.block_size ->
    exists out,
      DCT.embed_loop L (length ch / DCT.block_size) ch
        (combine (seq k (length bs)) bs) modified = Returned out /\
      length out = length ch /\
      (forall j, j < k * DCT.block_size \/
                 (k + length bs) * DCT.block_size <= j ->
                 nth_error out j = nth_error modified j) /\
      (forall i j, i < length bs -> j < DCT.block_size ->
                   nth_error out ((k + i) * DCT.block_size + j) =
                   nth_error (idct L (dct_written L ch (k + i) (nth i bs false))) j).
Proof.
  induction bs as [| b bs IH]; intros k modified Hlen Hk.
  - exists modified. cbn [length seq combine DCT.embed_loop].
    repeat split; trivial. intros i j Hi. inversion Hi.
  - cbn [length] in Hk. cbn [length seq combine DCT.embed_loop].
    assert (Hblocks : length ch / DCT.block_size * DCT.block_size <= length ch).
    { unfold DCT.block_size.
      pose proof (Nat.div_mod_eq (length ch) 1024). lia. }
    assert (Hend : (k + 1) * DCT.block_size <= length ch).
    { unfold DCT.block_size in *. nia. }
    destruct (Nat.leb_spec (length ch / DCT.block_size) k) as [Hge | _];
      [lia |].
    pose proof (length_dct_written ch k b Hend) as Hw.
    unfold dct_written in Hw.
    assert (Hd : length (dct L (slice (k * DCT.block_size)
                   (k * DCT.block_size + DCT.block_size) ch)) = DCT.block_size).
    { apply dct_length, length_slice. lia. }
    rewrite set_item_ok
      by (rewrite Hd; unfold DCT.target_coef, DCT.block_size; lia).
    cbn [bind].
    pose proof (idct_length _ Hw) as Hi.
    unfold set_slice, broadcast.
    replace (k * DCT.block_size + DCT.block_size - k * DCT.block_size)
      with DCT.block_size by lia.
    rewrite Hi, Nat.eqb_refl. cbn [bind].
    set (mb := idct L _) in *.
    set (modified' := firstn (k * DCT.block_size) modified ++ mb ++
                      skipn (k * DCT.block_size + DCT.block_size) modified).
    assert (Hab : k * DCT.block_size <= k * DCT.block_size + DCT.block_size
                  <= length modified) by lia.
    assert (Hmb : length mb =
                  k * DCT.block_size + DCT.block_size - k * DCT.block_size)
      by lia.
    assert (Hlen' : length modified' = length ch).
    { unfold modified'. rewrite length_splice; trivial. }
    destruct (IH (S k) modified' Hlen') as [out [Hrun [Hlo [Hout Hin]]]];
      [lia |].
    exists out. split; [exact Hrun |]. split; [exact Hlo |]. split.
    + intros j Hj. rewrite Hout by lia.
      unfold modified'. apply nth_error_splice_outside; trivial. lia.
    + intros i j Hi' Hj. destruct i as [| i].
      * rewrite Nat.add_0_r. rewrite Hout by lia.
        unfold modified'. cbn [nth].
        rewrite nth_error_splice_inside; trivial. lia.
      * replace (k + S i) with (S k + i) by lia.
        cbn [nth]. apply Hin; [cbn [length] in Hi'; lia | exact Hj].
Qed.

End WithLibrary.
End DCTFacts.

Module DCTFrame.
Section WithLibrary.
Import ArrayFacts.
Variable L : dct_library.

(** Whatever the library returns: when the loop ends normally, the
    samples before block [k] and from block [k + len(bits)] on are those
    it started with. *)
Lemma embed_loop_frame (ch : list Q) :
  forall (bs : bits) (k : nat) (modified out : list Q),
    length modified = length ch ->
    DCT.embed_loop L (length ch / DCT.block_size) ch
      (combine (seq k (length bs)) bs) modified = Returned out ->
    length out = length ch /\
    (forall j, j < k * DCT.block_size \/
               (k + length bs) * DCT.block_size <= j ->
               nth_error out j = nth_error modified j).
Proof.
  induction bs as [| b bs IH]; intros k modified out Hlen Hrun.
  - cbn [length seq combine DCT.embed_loop] in Hrun.
    injection Hrun as <-. split; trivial.
  - cbn [length seq combine DCT.embed_loop] in Hrun.
    destruct (Nat.leb_spec (length ch / DCT.block_size) k) as [Hge | Hlt].
    + injection Hrun as <-. split; trivial.
    + assert (Hend : (k + 1) * DCT.block_size <= length ch).
      { unfold DCT.block_size in *.
        pose proof (Nat.div_mod_eq (length ch) 1024). nia. }
      destruct (set_item _ _ _) as [c | e |]; cbn [bind] in Hrun;
        try discriminate.
      unfold set_slice in Hrun.
      destruct (broadcast _ (idct L c)) as [mb | e |] eqn:Emb;
        cbn [bind] in Hrun; try discriminate.
      apply ArrayFacts.length_broadcast in Emb. rename Emb into Hmb.
      assert (Hab : k * DCT.block_size <= k * DCT.block_size + DCT.block_size
                    <= length modified) by lia.
      apply IH in Hrun; [| rewrite length_splice; trivial].
      destruct Hrun as [Hlo Hout]. split; [exact Hlo |].
      intros j Hj. cbn [length] in Hj. rewrite Hout by lia.
      apply nth_error_splice_outside; trivial. lia.
Qed.

End WithLibrary.
End DCTFrame.

(** C8: when the DCT [embed] returns, the channel it returns has the length
    of the input channel and, from sample [len(binary_message) * block_size]
    on (the blocks after the framed message and the partial block at the
    end), the samples of the input channel. *)
Theorem dct_embed_leaves_later_blocks :
  forall (L : dct_library) (channel_1 : list Q) (message : text) (out : list Q),
    DCT.embed_channel L channel_1 message = Returned out ->
    length out = length channel_1 /\
    forall j, length (framed message) * DCT.block_size <= j ->
              nth_error out j = nth_error channel_1 j.
Proof.
  intros L ch message out Hrun. unfold DCT.embed_channel in Hrun.
  fold (framed message) in Hrun.
  destruct (Nat.ltb_spec (length ch / DCT.block_size) (length (framed message)));
    [discriminate |].
  apply DCTFrame.embed_loop_frame in Hrun; [| reflexivity].
  destruct Hrun as [Hlen Hout]. split; [exact Hlen |].
  intros j Hj. apply Hout. right. exact Hj.
Qed.

Lemma dct_embed_leaves_later_blocks_witness :
  DCT.embed_channel Plain.dct_lib Plain.short_tone [] = Returned Plain.short_tone_dct /\
  length Plain.short_tone_dct = length Plain.short_tone /\
  forall j, length (framed []) * DCT.block_size <= j ->
            nth_error Plain.short_tone_dct j = nth_error Plain.short_tone j.
Proof.
  assert (E : DCT.embed_channel Plain.dct_lib Plain.short_tone []
              = Returned Plain.short_tone_dct) by (vm_compute; reflexivity).
  split; [exact E |].
  exact (dct_embed_leaves_later_blocks Plain.dct_lib Plain.short_tone [] E).
Defined.

(** ** Reading back what was embedded *)

Module ScanFacts.
Import LoopFacts.

Lemma marker_only_at_end_spec (b : bits) :
  marker_only_at_end b = true ->
  forall k, k < length b -> endswith (firstn k b) END_MARKER = false.
Proof.
  intros H k Hk. unfold marker_only_at_end in H.
  rewrite forallb_forall in H.
  apply negb_true_iff, H, in_seq. lia.
Qed.

Lemma marker_never_read_spec (b : bits) :
  marker_never_read b = true ->
  forall k, 1 <= k <= length b -> endswith (firstn k b) END_MARKER = false.
Proof.
  intros H k Hk. unfold marker_never_read in H.
  rewrite forallb_forall in H.
  apply negb_true_iff, H, in_seq. lia.
Qed.

Lemma one_byte_characters_spec (t : text) :
  one_byte_characters t = true -> Forall (fun c => (c < 256)%N) t.
Proof.
  intros H. unfold one_byte_characters in H. rewrite forallb_forall in H.
  apply Forall_forall. intros c Hc. specialize (H c Hc).
  apply N.leb_le in H. lia.
Qed.

Lemma map_seq_bits (f : nat -> reading) (bs : bits) :
  (forall i, i < length bs -> f i = Bit (nth i bs false)) ->
  map f (seq 0 (length bs)) = map Bit bs.
Proof.
  intros H. apply nth_error_ext. intros i.
  rewrite !nth_error_map, nth_error_seq.
  destruct (Nat.ltb_spec i (length bs)) as [Hi | Hi].
  - rewrite (nth_error_nth' bs false Hi). cbn. f_equal. apply H, Hi.
  - apply nth_error_None in Hi. rewrite Hi. reflexivity.
Qed.

(** A scan over [n] slots whose first readings are the framed bits of a
    message returns the bits of the message. *)
Lemma scan_framed (read : nat -> reading) (n : nat) (message : text) :
  length (framed message) <= n ->
  (forall i, i < length (framed message) ->
             read i = Bit (nth i (framed message) false)) ->
  marker_only_at_end (framed message) = true ->
  extract_loop read (seq 0 n) [] =
  Returned (MessageProcessor.text_to_binary message).
Proof.
  intros Hn Hread Hfree.
  replace n with (length (framed message) + (n - length (framed message))) by lia.
  rewrite seq_app.
  rewrite (@extract_loop_marker read _ _ (framed message) []).
  - cbn [app]. unfold framed. rewrite drop_last_app_marker. reflexivity.
  - apply map_seq_bits, Hread.
  - unfold framed. destruct (MessageProcessor.text_to_binary message); discriminate.
  - intros k Hk. cbn [app]. apply marker_only_at_end_spec; [exact Hfree | lia].
  - cbn [app]. apply endswith_app_marker.
Qed.

Lemma length_framed (message : text) :
  length (framed message) =
  length (MessageProcessor.text_to_binary message) + 16.
Proof. unfold framed. rewrite length_app. reflexivity. Qed.

(** What the DCT and DWT [extract] return once the scan has given the bits
    of a message of one-byte characters. *)
Lemma decode_or_fail (message : text) :
  one_byte_characters message = true ->
  (if 0 <? length (MessageProcessor.text_to_binary message)
   then Returned (MessageProcessor.binary_to_text
                    (MessageProcessor.text_to_binary message))
   else Returned EXTRACTION_FAILED) =
  Returned (match message with [] => EXTRACTION_FAILED | _ => message end).
Proof.
  intros H. apply one_byte_characters_spec in H.
  rewrite (CodecFacts.length_text_to_binary H).
  rewrite (CodecFacts.binary_to_text_to_binary H).
  destruct message; reflexivity.
Qed.

End ScanFacts.

Module DCTRoundTrip.
Section WithLibrary.
Import ArrayFacts LoopFacts ScanFacts.
Variable L : dct_library.
Hypothesis dct_length :
  forall x, length x = DCT.block_size -> length (dct L x) = DCT.block_size.
Hypothesis idct_length :
  forall x, length x = DCT.block_size -> length (idct L x) = DCT.block_size.
Hypothesis dct_idct :
  forall c, length c = DCT.block_size ->
            nth_error (dct L (idct L c)) DCT.target_coef =
            nth_error c DCT.target_coef.

Lemma forced_value_read (bit : bool) :
  Qgtb (if bit then DCT.bit1_value else DCT.bit0_value) DCT.threshold = bit.
Proof. destruct bit; reflexivity. Qed.

(** Block [i] of a channel that holds [idct] of the written coefficients
    reads as the written bit. *)
Lemma read_written (ch out : list Q) (i : nat) (bit : bool) :
  (i + 1) * DCT.block_size <= length ch ->
  (forall j, j < DCT.block_size ->
             nth_error out (i * DCT.block_size + j) =
             nth_error (idct L (dct_written L ch i bit)) j) ->
  DCT.read L out i = Bit bit.
Proof.
  intros Hi Hblock. unfold DCT.read.
  pose proof (DCTFacts.length_dct_written L dct_length ch i bit Hi) as Hw.
  rewrite (@slice_is _ (i * DCT.block_size) DCT.block_size out
             (idct L (dct_written L ch i bit)))
    by (trivial; apply idct_length, Hw).
  rewrite dct_idct by exact Hw.
  unfold dct_written.
  rewrite nth_error_set, Nat.eqb_refl.
  - rewrite forced_value_read. reflexivity.
  - rewrite dct_length by (apply length_slice; lia).
    unfold DCT.target_coef, DCT.block_size. lia.
Qed.

Lemma dct_round_trip (ch : list Q) (message : text) :
  one_byte_characters message = true ->
  marker_only_at_end (framed message) = true ->
  length (framed message) <= length ch / DCT.block_size ->
  exists out,
    DCT.embed_channel L ch message = Returned out /\
    length out = length ch /\
    DCT.extract_channel L out =
    Returned (match message with [] => EXTRACTION_FAILED | _ => message end).
Proof.
  intros Hbytes Hfree Hcap.
  unfold DCT.embed_channel. fold (framed message).
  destruct (Nat.ltb_spec (length ch / DCT.block_size) (length (framed message)))
    as [Hlt | _]; [lia |].
  destruct (DCTFacts.dct_embed_loop_spec L dct_length idct_length ch (framed message)
              0 ch eq_refl Hcap) as [out [Hrun [Hlen [_ Hin]]]].
  exists out. split; [exact Hrun |]. split; [exact Hlen |].
  assert (Hread : forall i, i < length (framed message) ->
                    DCT.read L out i = Bit (nth i (framed message) false)).
  { intros i Hi. apply (read_written ch).
    - unfold DCT.block_size in *.
      pose proof (Nat.div_mod_eq (length ch) 1024). nia.
    - intros j Hj. apply (Hin i j Hi Hj). }
  unfold DCT.extract_channel. rewrite Hlen.
  pose proof (length_framed message) as Hfr.
  rewrite (@debug_loop_bits (DCT.read L out) _
             (firstn (Nat.min 5 (length ch / DCT.block_size))
                (framed message))).
  - cbn [bind].
    rewrite (scan_framed (DCT.read L out) message Hcap Hread Hfree).
    cbn [bind]. apply decode_or_fail, Hbytes.
  - rewrite <- firstn_map.
    apply (@map_firstn_seq _ (DCT.read L out) _ _ (length (framed message))).
    + apply map_seq_bits, Hread.
    + lia.
Qed.

End WithLibrary.
End DCTRoundTrip.

(** ** The wavelet-fraction strategy *)

Module DWTFacts.
Import ArrayFacts LoopFacts ScanFacts.

Lemma Qfloor_plus_fraction (z : Z) (f : Q) :
  (0 <= f)%Q -> (f < 1)%Q -> Qfloor (inject_Z z + f) = z.
Proof.
  intros H0 H1.
  assert (Hlo : (z <= Qfloor (inject_Z z + f))%Z).
  { rewrite <- (Qfloor_Z z) at 1. apply Qfloor_resp_le.
    rewrite <- (Qplus_0_r (inject_Z z)) at 1.
    apply Qplus_le_r. exact H0. }
  assert (Hhi : (Qfloor (inject_Z z + f) < z + 1)%Z).
  { destruct (Z_lt_ge_dec (Qfloor (inject_Z z + f)) (z + 1)) as [Hlt | Hge];
      [exact Hlt | exfalso].
    assert (Hx : (inject_Z (z + 1) <= inject_Z z + f)%Q).
    { eapply Qle_trans; [| apply Qfloor_le].
      rewrite <- Zle_Qle. lia. }
    rewrite inject_Z_plus in Hx.
    apply Qplus_le_r in Hx.
    apply (Qlt_not_le _ _ H1). exact Hx. }
  lia.
Qed.

Lemma fraction_read (z : Z) (bit : bool) :
  let v := (inject_Z z + (if bit then DWT.bit1_frac else DWT.bit0_frac))%Q in
  Qgeb (v - floor v) (1 # 2) = bit.
Proof.
  cbv zeta. unfold floor.
  rewrite Qfloor_plus_fraction by (destruct bit; unfold Qle, Qlt; simpl; lia).
  unfold Qgeb.
  assert (E : (inject_Z z + (if bit then DWT.bit1_frac else DWT.bit0_frac)
               - inject_Z z ==
               (if bit then DWT.bit1_frac else DWT.bit0_frac))%Q) by ring.
  destruct bit.
  - apply Qle_bool_iff. rewrite E. unfold Qle. simpl. lia.
  - apply not_true_is_false. intros H. apply Qle_bool_iff in H.
    rewrite E in H. revert H. unfold Qle. simpl. lia.
Qed.

(** What the embedding loop does to the subband: the coefficients at
    [k * step], ..., [(k + len(bits) - 1) * step] get the fractions of
    the bits, on top of an integer. *)
Lemma dwt_embed_loop_spec :
  forall (bs : bits) (k : nat) (target : list Q),
    k + length bs <= length target / DWT.step ->
    exists out,
      DWT.embed_loop (combine (seq k (length bs)) bs) target = Returned out /\
      length out = length target /\
      (forall j, j < k * DWT.step -> nth_error out j = nth_error target j) /\
      (forall i, i < length bs ->
         exists z : Z,
           nth_error out ((k + i) * DWT.step) =
           Some (inject_Z z +
                 (if nth i bs false then DWT.bit1_frac else DWT.bit0_frac))%Q).
Proof.
  induction bs as [| b bs IH]; intros k target Hk.
  - exists target. cbn [length seq combine DWT.embed_loop].
    repeat split; trivial. intros i Hi. inversion Hi.
  - cbn [length] in Hk. cbn [length seq combine DWT.embed_loop].
    assert (Hidx : k * DWT.step < length target).
    { unfold DWT.step in *.
      pose proof (Nat.div_mod_eq (length target) 100). nia. }
    destruct (Nat.leb_spec (length target) (k * DWT.step)) as [Hge | _]; [lia |].
    destruct (nth_error target (k * DWT.step)) as [v |] eqn:Ev;
      [| apply nth_error_None in Ev; lia].
    rewrite (get_item_ok _ _ Ev). cbn [bind].
    rewrite set_item_ok by exact Hidx. cbn [bind].
    set (target' := firstn (k * DWT.step) target ++ _ :: skipn _ target).
    assert (Hlen' : length target' = length target)
      by (apply length_set, Hidx).
    destruct (IH (S k) target') as [out [Hrun [Hlo [Hout Hin]]]];
      [rewrite Hlen'; lia |].
    exists out. split; [exact Hrun |]. split; [lia |]. split.
    + intros j Hj. rewrite Hout by (unfold DWT.step in *; lia).
      unfold target'. rewrite nth_error_set by exact Hidx.
      destruct (Nat.eqb_spec j (k * DWT.step)); [lia | reflexivity].
    + intros i Hi. destruct i as [| i].
      * exists (Qfloor v). rewrite Nat.add_0_r. cbn [nth].
        rewrite Hout by (unfold DWT.step; lia).
        unfold target'. rewrite nth_error_set by exact Hidx.
        rewrite Nat.eqb_refl. reflexivity.
      * replace (k + S i) with (S k + i) by lia. cbn [nth].
        apply Hin. cbn [length] in Hi. lia.
Qed.

End DWTFacts.

Module DWTRoundTrip.
Section WithLibrary.
Import ArrayFacts LoopFacts ScanFacts DWTFacts.
Variable L : dwt_library.
Variable ch : list Q.
Variable target : list Q.
Let coeffs := wavedec L ch DWT.wavelet DWT.level.
Hypothesis subband : nth_error coeffs DWT.subband_idx = Some target.
Hypothesis wavedec_waverec :
  forall target',
    length target' = length target ->
    nth_error
      (wavedec L
         (firstn (length ch)
            (waverec L
               (firstn DWT.subband_idx coeffs ++ target'
                :: skipn (S DWT.subband_idx) coeffs) DWT.wavelet))
         DWT.wavelet DWT.level) DWT.subband_idx = Some target'.

Lemma dwt_round_trip (message : text) :
  one_byte_characters message = true ->
  marker_only_at_end (framed message) = true ->
  length (framed message) <= length target / DWT.step ->
  exists out,
    DWT.embed_channel L ch message = Returned out /\
    DWT.extract_channel L out =
    Returned (match message with [] => EXTRACTION_FAILED | _ => message end).
Proof.
  intros Hbytes Hfree Hcap.
  unfold DWT.embed_channel. fold (framed message). fold coeffs.
  rewrite (get_item_ok _ _ subband). cbn [bind].
  destruct (Nat.ltb_spec (length target / DWT.step) (length (framed message)))
    as [Hlt | _]; [lia |].
  destruct (dwt_embed_loop_spec (framed message) 0 target Hcap)
    as [target' [Hrun [Hlen [_ Hin]]]].
  rewrite Hrun. cbn [bind].
  assert (Hsub : DWT.subband_idx < length coeffs).
  { apply nth_error_Some. rewrite subband. discriminate. }
  rewrite set_item_ok by exact Hsub. cbn [bind].
  eexists. split; [reflexivity |].
  unfold DWT.extract_channel.
  rewrite (get_item_ok _ _ (wavedec_waverec target' Hlen)). cbn [bind].
  rewrite Hlen.
  rewrite (scan_framed (DWT.read target') message Hcap).
  - cbn [bind]. apply decode_or_fail, Hbytes.
  - intros i Hi. destruct (Hin i Hi) as [z Hz]. cbn [Nat.add] in Hz.
    unfold DWT.read. rewrite Hz. f_equal. apply fraction_read.
  - exact Hfree.
Qed.

End WithLibrary.
End DWTRoundTrip.

(** ** The peak of a channel *)

Module PeakFacts.

Lemma Qabs_zero (v : Q) : (Qabs v <= 0)%Q -> (v == 0)%Q.
Proof.
  intros H. apply Qle_antisym.
  - eapply Qle_trans; [apply Qle_Qabs | exact H].
  - assert (H' : (- v <= 0)%Q).
    { eapply Qle_trans; [apply Qle_Qabs |]. rewrite Qabs_opp. exact H. }
    apply Qopp_le_compat in H'. rewrite Qopp_involutive in H'. exact H'.
Qed.

Lemma fold_max_ge (r : list Q) :
  forall a : Q, (a <= fold_left (fun m v => Qmax m (Qabs v)) r a)%Q.
Proof.
  induction r as [| v r IH]; intros a; cbn [fold_left].
  - apply Qle_refl.
  - eapply Qle_trans; [apply Q.le_max_l | apply IH].
Qed.

Lemma fold_max_zero (r : list Q) :
  forall a : Q,
    (0 <= a)%Q ->
    (fold_left (fun m v => Qmax m (Qabs v)) r a == 0)%Q ->
    (a == 0)%Q /\ Forall (fun v => v == 0)%Q r.
Proof.
  induction r as [| v r IH]; intros a Ha H; cbn [fold_left] in H.
  - split; [exact H | constructor].
  - assert (Hm : (0 <= Qmax a (Qabs v))%Q)
      by (eapply Qle_trans; [exact Ha | apply Q.le_max_l]).
    destruct (IH _ Hm H) as [H0 Hr].
    assert (Ha0 : (a <= 0)%Q)
      by (rewrite <- H0; apply Q.le_max_l).
    assert (Hv0 : (Qabs v <= 0)%Q)
      by (rewrite <- H0; apply Q.le_max_r).
    split; [apply Qle_antisym; assumption |].
    constructor; [apply Qabs_zero, Hv0 | exact Hr].
Qed.

Lemma fold_max_of_zeros (r : list Q) :
  forall a : Q,
    (a == 0)%Q -> Forall (fun v => v == 0)%Q r ->
    (fold_left (fun m v => Qmax m (Qabs v)) r a == 0)%Q.
Proof.
  induction r as [| v r IH]; intros a Ha Hr; cbn [fold_left]; [exact Ha |].
  inversion Hr as [| v' r' Hv Hr']; subst.
  apply IH; [| exact Hr'].
  apply Qle_antisym.
  - apply Q.max_lub.
    + rewrite Ha. apply Qle_refl.
    + rewrite Hv. apply Qle_refl.
  - eapply Qle_trans; [| apply Q.le_max_r]. apply Qabs_nonneg.
Qed.

(** The peak of a non-empty channel exists, is not negative, and is zero
    exactly when every sample is. *)
Lemma peak_spec (x : list Q) :
  x <> [] ->
  exists m, peak x = Returned m /\ (0 <= m)%Q /\
            ((m == 0)%Q <-> Forall (fun v => v == 0)%Q x).
Proof.
  destruct x as [| a r]; [contradiction | intros _].
  eexists. split; [reflexivity |]. split.
  - eapply Qle_trans; [apply Qabs_nonneg | apply fold_max_ge].
  - split.
    + intros H. apply fold_max_zero in H; [| apply Qabs_nonneg].
      destruct H as [Ha Hr]. constructor; [| exact Hr].
      apply Qabs_zero. rewrite Ha. apply Qle_refl.
    + intros H. inversion H as [| a' r' Ha Hr]; subst.
      apply fold_max_of_zeros; [| exact Hr].
      rewrite Ha. reflexivity.
Qed.

Lemma length_peak_nonempty {A} (f : A -> Q) (x : list A) :
  0 < length x -> exists m, peak (map f x) = Returned m.
Proof.
  destruct x; cbn [length map peak]; [lia | eauto].
Qed.

End PeakFacts.

(** ** The frequency-amplitude strategy *)

Module DFTFacts.
Section WithLibrary.
Import ArrayFacts LoopFacts ScanFacts PeakFacts.
Variable L : fft_library.

(** The embedding loop ends normally, on a spectrum of the same length. *)
Lemma embed_loop_returns (max_amp : Q) :
  forall (items : list (nat * bool)) (channel_dft : list (complex L)),
  exists out,
    DFT.embed_loop L max_amp items channel_dft = Returned out /\
    length out = length channel_dft.
Proof.
  induction items as [| [i bit] items IH]; intros channel_dft.
  - exists channel_dft. split; reflexivity.
  - cbn [DFT.embed_loop].
    destruct (Nat.leb_spec (length channel_dft / 2)
                (DFT.start_idx + i * DFT.step)) as [Hge | Hlt].
    + exists channel_dft. split; reflexivity.
    + assert (Hidx : DFT.start_idx + i * DFT.step < length channel_dft).
      { pose proof (Nat.div_mod_eq (length channel_dft) 2). lia. }
      destruct (nth_error channel_dft (DFT.start_idx + i * DFT.step))
        as [c |] eqn:Ec; [| apply nth_error_None in Ec; lia].
      rewrite (get_item_ok _ _ Ec). cbn [bind].
      rewrite set_item_ok by exact Hidx. cbn [bind].
      set (dft1 := firstn _ channel_dft ++ _ :: skipn _ channel_dft).
      assert (Hlen1 : length dft1 = length channel_dft)
        by (apply length_set, Hidx).
      assert (Ec1 : exists c1, nth_error dft1 (DFT.start_idx + i * DFT.step)
                               = Some c1).
      { unfold dft1. rewrite nth_error_set by exact Hidx.
        rewrite Nat.eqb_refl. eauto. }
      destruct Ec1 as [c1 Ec1].
      rewrite (get_item_ok _ _ Ec1). cbn [bind].
      unfold set_item_neg.
      destruct (Nat.eqb_spec (DFT.start_idx + i * DFT.step) 0) as [H0 | _].
      { unfold DFT.start_idx in H0. lia. }
      destruct (Nat.leb_spec (DFT.start_idx + i * DFT.step) (length dft1))
        as [_ | Hgt]; [| lia].
      assert (Hneg : length dft1 - (DFT.start_idx + i * DFT.step) < length dft1).
      { unfold DFT.start_idx in *. lia. }
      rewrite set_item_ok by exact Hneg. cbn [bind].
      set (dft2 := firstn _ dft1 ++ _ :: skipn _ dft1).
      destruct (IH dft2) as [out [Hrun Hlen]].
      exists out. split; [exact Hrun |].
      rewrite Hlen. unfold dft2. rewrite length_set by exact Hneg. exact Hlen1.
Qed.

Hypothesis fft_length : forall x, length (fft L x) = length x.
Hypothesis ifft_length : forall x, length (ifft L x) = length x.

(** On a channel with a non-zero sample, and a message within capacity,
    [embed] returns a channel of the same length. *)
Lemma embed_channel_returns (ch : list Q) (message : text) :
  (exists v, In v ch /\ ~ (v == 0)%Q) ->
  (Z.of_nat (length (framed message)) <= DFT.max_bits (length ch))%Z ->
  exists out,
    DFT.embed_channel L ch message = Returned out /\ length out = length ch.
Proof.
  intros [v [Hin Hv]] Hcap.
  assert (Hne : ch <> []) by (destruct ch; [destruct Hin | discriminate]).
  destruct (peak_spec Hne) as [m [Hpeak [_ Hzero]]].
  unfold DFT.embed_channel, DFT.normalize. rewrite Hpeak. cbn [bind].
  destruct (Qeq_bool m 0) eqn:Em.
  { exfalso. apply Qeq_bool_iff, Hzero in Em.
    rewrite Forall_forall in Em. apply Hv, Em, Hin. }
  cbn [bind]. fold (framed message).
  destruct (Z.ltb_spec (DFT.max_bits (length ch))
              (Z.of_nat (length (framed message)))) as [Hlt | _]; [lia |].
  assert (Hpos : 0 < length ch) by (destruct ch; [contradiction | cbn; lia]).
  destruct (@length_peak_nonempty _ (cabs L)
              (fft L (map (fun v0 => (v0 / m)%Q) ch))) as [max_amp Hamp].
  { rewrite fft_length, length_map. exact Hpos. }
  rewrite Hamp. cbn [bind].
  destruct (embed_loop_returns max_amp
              (combine (seq 0 (length (framed message))) (framed message))
              (fft L (map (fun v0 => (v0 / m)%Q) ch))) as [dft' [Hrun Hlen]].
  rewrite Hrun. cbn [bind].
  assert (Hlm : length (map (real L) (ifft L dft')) = length ch).
  { rewrite length_map, ifft_length, Hlen, fft_length, length_map. reflexivity. }
  destruct (@length_peak_nonempty _ (real L) (ifft L dft')) as [max_val Hval].
  { rewrite length_map in Hlm. lia. }
  rewrite Hval. cbn [bind].
  destruct (Qgtb max_val 1); eexists; (split; [reflexivity |]).
  - rewrite length_map. exact Hlm.
  - exact Hlm.
Qed.

(** A channel whose spectrum reads as the framed bits of a message
    decodes to the message. *)
Lemma extract_framed (out : list Q) (message : text) :
  one_byte_characters message = true ->
  marker_only_at_end (framed message) = true ->
  (Z.of_nat (length (framed message)) <= DFT.max_bits (length out))%Z ->
  (forall i, i < length (framed message) ->
     exists c,
       nth_error (fft L out) (DFT.start_idx + i * DFT.step) = Some c /\
       DFT.classify (cabs L c) = nth i (framed message) false) ->
  DFT.extract_channel L out = Returned message.
Proof.
  intros Hbytes Hfree Hcap Hback.
  pose proof (length_framed message) as Hfr.
  unfold DFT.extract_channel.
  assert (Hdebug : forall i, i < length (framed message) ->
            DFT.read_debug L (fft L out) i = Bit (nth i (framed message) false)).
  { intros i Hi. destruct (Hback i Hi) as [c [Hc Hbit]].
    unfold DFT.read_debug. rewrite Hc, Hbit. reflexivity. }
  assert (Hread : forall i, i < length (framed message) ->
            DFT.read L (fft L out) i = Bit (nth i (framed message) false)).
  { intros i Hi. destruct (Hback i Hi) as [c [Hc Hbit]].
    unfold DFT.read. rewrite fft_length.
    destruct (Nat.leb_spec (length out / 2) (DFT.start_idx + i * DFT.step))
      as [Hge | _].
    - exfalso. unfold DFT.max_bits, DFT.start_idx, DFT.step in *.
      change (Z.of_nat 2) with 2%Z in Hcap.
      assert (Hq : (2 * Z.of_nat (length (framed message))
                    <= Z.of_nat (length out / 2) - Z.of_nat 2000)%Z).
      { pose proof (Z.mul_div_le (Z.of_nat (length out / 2) - Z.of_nat 2000) 2).
        lia. }
      lia.
    - rewrite Hc, Hbit. reflexivity. }
  rewrite (@debug_loop_bits (DFT.read_debug L (fft L out)) _
             (firstn 10 (framed message))).
  - cbn [bind].
    rewrite (scan_framed (DFT.read L (fft L out)) message).
    + cbn [bind]. f_equal.
      apply CodecFacts.binary_to_text_to_binary, one_byte_characters_spec, Hbytes.
    + lia.
    + exact Hread.
    + exact Hfree.
  - rewrite <- firstn_map.
    apply (@map_firstn_seq _ (DFT.read_debug L (fft L out)) _ _
             (length (framed message))).
    + apply map_seq_bits, Hdebug.
    + lia.
Qed.

End WithLibrary.
End DFTFacts.

(** ** Claims on extraction *)

Module ThresholdFacts.

(** [amplitude > self.threshold] is the strict order of the rationals. *)
Lemma classify_spec (a : Q) :
  (DFT.classify a = true <-> (DFT.threshold < a)%Q) /\
  (DFT.classify a = false <-> (a <= DFT.threshold)%Q).
Proof.
  unfold DFT.classify, Qgtb.
  rewrite negb_true_iff, negb_false_iff, Qle_bool_iff.
  split; [| reflexivity].
  rewrite <- not_true_iff_false, Qle_bool_iff.
  split; [apply Qnot_le_lt | apply Qlt_not_le].
Qed.

Lemma classify_proper (a b : Q) :
  (a == b)%Q -> DFT.classify a = DFT.classify b.
Proof.
  intros E. destruct (DFT.classify b) eqn:Eb.
  - apply classify_spec. rewrite E. apply classify_spec, Eb.
  - apply classify_spec. rewrite E. apply classify_spec, Eb.
Qed.

End ThresholdFacts.

(** C10: the DFT [embed] divides the channel by its peak.  With a
    non-zero sample in the channel the peak is positive and the division is
    the one of every sample by it; on a non-empty channel of zeros the peak
    is zero, no quotient is defined, and a message within capacity gives a
    channel of NaN. *)
Theorem dft_normalization_needs_a_nonzero_sample :
  forall (L : fft_library) (channel_1 : list Q),
    ((exists v, In v channel_1 /\ ~ (v == 0)%Q) ->
     exists m,
       peak channel_1 = Returned m /\ (0 < m)%Q /\
       DFT.normalize channel_1 =
       Returned (Some (map (fun v => (v / m)%Q) channel_1))) /\
    (channel_1 <> [] -> Forall (fun v => (v == 0)%Q) channel_1 ->
     (exists m, peak channel_1 = Returned m /\ (m == 0)%Q) /\
     DFT.normalize channel_1 = Returned None /\
     forall message,
       (Z.of_nat (length (framed message))
        <= DFT.max_bits (length channel_1))%Z ->
       DFT.embed_channel L channel_1 message = NotANumber).
Proof.
  intros L ch. split.
  - intros [v [Hin Hv]].
    assert (Hne : ch <> []) by (destruct ch; [destruct Hin | discriminate]).
    destruct (PeakFacts.peak_spec Hne) as [m [Hpeak [Hpos Hzero]]].
    assert (Hm : ~ (m == 0)%Q).
    { intros Hm. apply Hzero in Hm. rewrite Forall_forall in Hm.
      apply Hv, Hm, Hin. }
    exists m. split; [exact Hpeak |]. split.
    + apply Qle_lteq in Hpos. destruct Hpos as [Hlt | Heq]; [exact Hlt |].
      exfalso. apply Hm. symmetry. exact Heq.
    + unfold DFT.normalize. rewrite Hpeak. cbn [bind].
      destruct (Qeq_bool m 0) eqn:Em; [| reflexivity].
      exfalso. apply Hm, Qeq_bool_iff, Em.
  - intros Hne Hall.
    destruct (PeakFacts.peak_spec Hne) as [m [Hpeak [_ Hzero]]].
    apply Hzero in Hall.
    assert (Hnorm : DFT.normalize ch = Returned None).
    { unfold DFT.normalize. rewrite Hpeak. cbn [bind].
      apply Qeq_bool_iff in Hall. rewrite Hall. reflexivity. }
    split; [exists m; split; assumption |]. split; [exact Hnorm |].
    intros message Hcap. unfold DFT.embed_channel. rewrite Hnorm. cbn [bind].
    fold (framed message).
    destruct (Z.ltb_spec (DFT.max_bits (length ch))
                (Z.of_nat (length (framed message)))); [lia | reflexivity].
Qed.

Lemma dft_normalization_needs_a_nonzero_sample_witness :
  (exists v, In v [(1 # 4)%Q; (- (1 # 2))%Q] /\ ~ (v == 0)%Q) /\
  exists m,
    peak [(1 # 4)%Q; (- (1 # 2))%Q] = Returned m /\ (0 < m)%Q /\
    DFT.normalize [(1 # 4)%Q; (- (1 # 2))%Q] =
    Returned (Some (map (fun v => (v / m)%Q) [(1 # 4)%Q; (- (1 # 2))%Q])).
Proof.
  assert (H : exists v, In v [(1 # 4)%Q; (- (1 # 2))%Q] /\ ~ (v == 0)%Q).
  { exists (1 # 4)%Q. split; [left; reflexivity | discriminate]. }
  split; [exact H |].
  exact (proj1 (@dft_normalization_needs_a_nonzero_sample Plain.fft_lib
                  [(1 # 4)%Q; (- (1 # 2))%Q]) H).
Defined.

(** C3, as the code has it: when no prefix of the bits the scan reads ends
    with the marker, [extract] decodes everything it has read (the complete
    groups of 8).  The DCT and DWT [extract] return the failure string only
    when the scan has read no bit at all; the DFT [extract] never returns
    it.  The failure string is not the decoding of any bit string. *)
Theorem extract_without_marker :
  forall (Lc : dct_library) (Lw : dwt_library) (Lf : fft_library)
         (channel_1 : list Q) (bs : bits),
    marker_never_read bs = true ->
    (map (DCT.read Lc channel_1) (seq 0 (length channel_1 / DCT.block_size))
       = map Bit bs ->
     DCT.extract_channel Lc channel_1 =
     Returned (if 0 <? length bs then MessageProcessor.binary_to_text bs
               else EXTRACTION_FAILED)) /\
    (forall target,
       nth_error (wavedec Lw channel_1 DWT.wavelet DWT.level) DWT.subband_idx
         = Some target ->
       map (DWT.read target) (seq 0 (length target / DWT.step)) = map Bit bs ->
       DWT.extract_channel Lw channel_1 =
       Returned (if 0 <? length bs then MessageProcessor.binary_to_text bs
                 else EXTRACTION_FAILED)) /\
    (debug_loop (DFT.read_debug Lf (fft Lf channel_1)) (seq 0 10) = Returned tt ->
     map (DFT.read Lf (fft Lf channel_1))
       (seq 0 (Z.to_nat (DFT.max_bits (length channel_1)))) = map Bit bs ->
     DFT.extract_channel Lf channel_1 =
     Returned (MessageProcessor.binary_to_text bs)) /\
    MessageProcessor.binary_to_text bs <> EXTRACTION_FAILED.
Proof.
  intros Lc Lw Lf ch bs Hfree.
  pose proof (ScanFacts.marker_never_read_spec bs Hfree) as Hk.
  split; [| split; [| split]].
  - intros Hread. unfold DCT.extract_channel.
    rewrite (@LoopFacts.debug_loop_bits (DCT.read Lc ch) _
               (firstn (Nat.min 5 (length ch / DCT.block_size)) bs)).
    + cbn [bind].
      rewrite (@LoopFacts.extract_loop_no_marker _ _ bs [] Hread Hk).
      cbn [bind app]. destruct (0 <? length bs); reflexivity.
    + rewrite <- firstn_map.
      apply (@LoopFacts.map_firstn_seq _ (DCT.read Lc ch) _ _
               (length ch / DCT.block_size)); [exact Hread | lia].
  - intros target Hsub Hread. unfold DWT.extract_channel.
    rewrite (ArrayFacts.get_item_ok _ _ Hsub). cbn [bind].
    rewrite (@LoopFacts.extract_loop_no_marker _ _ bs [] Hread Hk).
    cbn [bind app]. destruct (0 <? length bs); reflexivity.
  - intros Hdebug Hread. unfold DFT.extract_channel.
    rewrite Hdebug. cbn [bind].
    rewrite (@LoopFacts.extract_loop_no_marker _ _ bs [] Hread Hk).
    reflexivity.
  - apply LoopFacts.decoded_is_not_failure.
Qed.

Lemma extract_without_marker_witness :
  marker_never_read (repeat false 24) = true /\
  DWT.extract_channel Plain.dwt_lib (Plain.silence 2400) =
  Returned [0%N; 0%N; 0%N].
Proof.
  assert (H : marker_never_read (repeat false 24) = true)
    by (vm_compute; reflexivity).
  split; [exact H |].
  refine (proj1 (proj2 (@extract_without_marker Plain.dct_lib Plain.dwt_lib
                          Plain.fft_lib (Plain.silence 2400) (repeat false 24) H))
            (Plain.silence 2400) eq_refl _).
  vm_compute. reflexivity.
Defined.

(** Eight blocks of silence: the scan reads eight zeros, never the marker,
    and [extract] returns the character of code 0, not the failure string. *)
Lemma extract_silence_decodes :
  extract_loop (DCT.read Plain.dct_lib (Plain.silence (8 * 1024)))
    (seq 0 (length (Plain.silence (8 * 1024)) / DCT.block_size)) []
  = Returned (repeat false 8) /\
  marker_never_read (repeat false 8) = true /\
  DCT.extract_channel Plain.dct_lib (Plain.silence (8 * 1024)) = Returned [0%N].
Proof. vm_compute. repeat split. Qed.

(** C4, as the code has it: the failure string differs from every decoded
    string, the empty one included; but after the empty message has been
    embedded the DCT and DWT [extract], which find the marker at once and
    are left with no bit, return the failure string.  Only the DFT
    [extract] returns the empty string then. *)
Theorem extract_of_the_empty_message :
  forall (Lc : dct_library) (Lw : dwt_library) (Lf : fft_library)
         (channel_1 : list Q),
    ((forall x, length x = DCT.block_size ->
                length (dct Lc x) = DCT.block_size) ->
     (forall x, length x = DCT.block_size ->
                length (idct Lc x) = DCT.block_size) ->
     (forall c, length c = DCT.block_size ->
                nth_error (dct Lc (idct Lc c)) DCT.target_coef =
                nth_error c DCT.target_coef) ->
     16 <= length channel_1 / DCT.block_size ->
     exists out,
       DCT.embed_channel Lc channel_1 [] = Returned out /\
       DCT.extract_channel Lc out = Returned EXTRACTION_FAILED) /\
    (forall target,
       nth_error (wavedec Lw channel_1 DWT.wavelet DWT.level) DWT.subband_idx
         = Some target ->
       (forall target',
          length target' = length target ->
          nth_error
            (wavedec Lw
               (firstn (length channel_1)
                  (waverec Lw
                     (firstn DWT.subband_idx
                        (wavedec Lw channel_1 DWT.wavelet DWT.level)
                      ++ target'
                      :: skipn (S DWT.subband_idx)
                           (wavedec Lw channel_1 DWT.wavelet DWT.level))
                     DWT.wavelet))
               DWT.wavelet DWT.level) DWT.subband_idx = Some target') ->
       16 <= length target / DWT.step ->
       exists out,
         DWT.embed_channel Lw channel_1 [] = Returned out /\
         DWT.extract_channel Lw out = Returned EXTRACTION_FAILED) /\
    ((forall x, length (fft Lf x) = length x) ->
     forall out,
       (16 <= DFT.max_bits (length out))%Z ->
       (forall i, i < 16 ->
          exists c,
            nth_error (fft Lf out) (DFT.start_idx + i * DFT.step) = Some c /\
            DFT.classify (cabs Lf c) = nth i END_MARKER false) ->
       DFT.extract_channel Lf out = Returned []) /\
    (forall binary,
       MessageProcessor.binary_to_text binary <> EXTRACTION_FAILED) /\
    EXTRACTION_FAILED <> [].
Proof.
  intros Lc Lw Lf ch.
  assert (Hfree : marker_only_at_end (framed []) = true)
    by (vm_compute; reflexivity).
  split; [| split; [| split; [| split]]].
  - intros Hd Hi Hdi Hcap.
    destruct (DCTRoundTrip.dct_round_trip Lc Hd Hi Hdi ch [] eq_refl Hfree Hcap)
      as [out [Hrun [_ Hext]]].
    exists out. split; assumption.
  - intros target Hsub Hrec Hcap.
    exact (DWTRoundTrip.dwt_round_trip Lw ch Hsub Hrec [] eq_refl Hfree Hcap).
  - intros Hfft out Hcap Hback.
    exact (DFTFacts.extract_framed Lf Hfft out [] eq_refl Hfree Hcap Hback).
  - apply LoopFacts.decoded_is_not_failure.
  - discriminate.
Qed.

Lemma extract_of_the_empty_message_witness :
  16 <= length Plain.short_tone / DCT.block_size /\
  exists out,
    DCT.embed_channel Plain.dct_lib Plain.short_tone [] = Returned out /\
    DCT.extract_channel Plain.dct_lib out = Returned EXTRACTION_FAILED.
Proof.
  assert (H : 16 <= length Plain.short_tone / DCT.block_size)
    by (apply Nat.leb_le; vm_compute; reflexivity).
  split; [exact H |].
  exact (proj1 (@extract_of_the_empty_message Plain.dct_lib Plain.dwt_lib
                  Plain.fft_lib Plain.short_tone)
           (fun x E => E) (fun x E => E) (fun c _ => eq_refl) H).
Defined.

(** Sixteen blocks of silence with the empty message embedded: [extract]
    returns the failure string. *)
Lemma empty_message_extracts_as_failure :
  16 <= length (Plain.silence (16 * 1024)) / DCT.block_size /\
  bind (DCT.embed_channel Plain.dct_lib (Plain.silence (16 * 1024)) [])
       (DCT.extract_channel Plain.dct_lib)
  = Returned EXTRACTION_FAILED.
Proof. split; [apply Nat.leb_le |]; vm_compute; reflexivity. Qed.

(** ** The file part of [embed] and the capacity test *)

Module WrapperFacts.

Lemma embed_with_raises (embed_channel : list Q -> text -> outcome (list Q))
    (fs : disk) (audio_path output_path : String.string) (message : text)
    (rate : N) (data : audio) (e : error) :
  fs audio_path = Some (Wav rate data) ->
  embed_channel (first_channel data) message = Raised e ->
  embed_with embed_channel fs audio_path message output_path = (fs, Raised e).
Proof.
  intros Hfile Hrun. unfold embed_with, AudioReader.read_audio.
  rewrite Hfile, Hrun. reflexivity.
Qed.

Lemma with_first_channel_returns (data : audio) (out : list Q) :
  length out = length (first_channel data) -> out <> [] ->
  exists modified,
    with_first_channel data out = Returned modified /\
    all_samples modified <> [].
Proof.
  intros Hlen Hne. destruct data as [s | f]; cbn [with_first_channel].
  - exists (Mono out). split; [reflexivity | exact Hne].
  - cbn [first_channel] in Hlen. rewrite length_map in Hlen.
    rewrite (ArrayFacts.broadcast_same out Hlen). cbn [bind].
    eexists. split; [reflexivity |].
    destruct out as [| v out]; [contradiction |].
    destruct f as [| p f]; [discriminate |].
    cbn. discriminate.
Qed.

End WrapperFacts.

Module CapacityFacts.
Import ArrayFacts.

Lemma dct_too_large (L : dct_library) (ch : list Q) (message : text) :
  length ch / DCT.block_size < length (framed message) ->
  DCT.embed_channel L ch message =
  Raised (TooLarge (Z.of_nat (length ch / DCT.block_size))).
Proof.
  intros H. unfold DCT.embed_channel. fold (framed message).
  destruct (Nat.ltb_spec (length ch / DCT.block_size) (length (framed message)));
    [reflexivity | lia].
Qed.

Lemma dwt_too_large (L : dwt_library) (ch target : list Q) (message : text) :
  nth_error (wavedec L ch DWT.wavelet DWT.level) DWT.subband_idx = Some target ->
  length target / DWT.step < length (framed message) ->
  DWT.embed_channel L ch message =
  Raised (TooLarge (Z.of_nat (length target / DWT.step))).
Proof.
  intros Hsub H. unfold DWT.embed_channel. fold (framed message).
  rewrite (get_item_ok _ _ Hsub). cbn [bind].
  destruct (Nat.ltb_spec (length target / DWT.step) (length (framed message)));
    [reflexivity | lia].
Qed.

Lemma dwt_returns (L : dwt_library) (ch target : list Q) (message : text) :
  nth_error (wavedec L ch DWT.wavelet DWT.level) DWT.subband_idx = Some target ->
  length (framed message) <= length target / DWT.step ->
  exists target',
    length target' = length target /\
    DWT.embed_channel L ch message =
    Returned
      (firstn (length ch)
         (waverec L
            (firstn DWT.subband_idx (wavedec L ch DWT.wavelet DWT.level)
             ++ target'
             :: skipn (S DWT.subband_idx) (wavedec L ch DWT.wavelet DWT.level))
            DWT.wavelet)).
Proof.
  intros Hsub Hcap. unfold DWT.embed_channel. fold (framed message).
  rewrite (get_item_ok _ _ Hsub). cbn [bind].
  destruct (Nat.ltb_spec (length target / DWT.step) (length (framed message)));
    [lia |].
  destruct (DWTFacts.dwt_embed_loop_spec (framed message) 0 target Hcap)
    as [target' [Hrun [Hlen _]]].
  rewrite Hrun. cbn [bind].
  rewrite set_item_ok
    by (apply nth_error_Some; rewrite Hsub; discriminate).
  exists target'. split; [exact Hlen | reflexivity].
Qed.

Lemma dft_too_large (L : fft_library) (ch : list Q) (message : text) :
  (0 <= DFT.max_bits (length ch) < Z.of_nat (length (framed message)))%Z ->
  DFT.embed_channel L ch message = Raised (TooLarge (DFT.max_bits (length ch))).
Proof.
  intros H. unfold DFT.embed_channel, DFT.normalize.
  destruct ch as [| a r].
  - exfalso. revert H. vm_compute. intros [H _]. apply H. reflexivity.
  - cbn [peak bind]. fold (framed message).
    destruct (Qeq_bool _ 0); cbn [bind];
      (destruct (Z.ltb_spec (DFT.max_bits (length (a :: r)))
                   (Z.of_nat (length (framed message)))); [reflexivity | lia]).
Qed.

Lemma framed_enough (message : text) : 16 <= length (framed message).
Proof. rewrite ScanFacts.length_framed. lia. Qed.

End CapacityFacts.

(** ** The round trip *)

Module PlainFacts.

Lemma dwt_reconstructs (ch target' : list Q) :
  length target' = length ch ->
  nth_error
    (wavedec Plain.dwt_lib
       (firstn (length ch)
          (waverec Plain.dwt_lib
             (firstn DWT.subband_idx
                (wavedec Plain.dwt_lib ch DWT.wavelet DWT.level)
              ++ target'
              :: skipn (S DWT.subband_idx)
                   (wavedec Plain.dwt_lib ch DWT.wavelet DWT.level))
             DWT.wavelet))
       DWT.wavelet DWT.level) DWT.subband_idx = Some target'.
Proof.
  intros H. unfold Plain.dwt_lib, DWT.subband_idx.
  cbn [wavedec waverec firstn skipn app nth nth_error].
  rewrite firstn_all2 by lia. reflexivity.
Qed.

Lemma tone_has_a_nonzero_sample (n : nat) :
  0 < n -> exists v, In v (Plain.tone n) /\ ~ (v == 0)%Q.
Proof.
  intros Hn. exists (1 # 2)%Q. split.
  - destruct n; [lia | left; reflexivity].
  - discriminate.
Qed.

End PlainFacts.

(** Where the round trip of the claim fails.  On blocks of silence and
    the DCT strategy: the message "ÿþ", whose bits are the marker, and the
    empty message come back as the failure string; the character of code
    point 256 takes 9 bits, so the message does not fit 24 blocks, and from
    25 blocks it comes back as the character of code point 128.  On
    silence and the DFT strategy: the message "H" is within the capacity
    of 4128 samples, and [embed] divides by the peak, which is 0, and
    returns a channel of NaN. *)
Lemma round_trip_fails :
  (8 * length [255%N; 254%N] + 16
   <= length (Plain.silence (32 * 1024)) / DCT.block_size /\
   bind (DCT.embed_channel Plain.dct_lib (Plain.silence (32 * 1024))
           [255%N; 254%N])
        (DCT.extract_channel Plain.dct_lib)
   = Returned EXTRACTION_FAILED) /\
  (8 * length (@nil N) + 16
   <= length (Plain.silence (17 * 1024)) / DCT.block_size /\
   bind (DCT.embed_channel Plain.dct_lib (Plain.silence (17 * 1024)) [])
        (DCT.extract_channel Plain.dct_lib)
   = Returned EXTRACTION_FAILED) /\
  (8 * length [256%N] + 16
   <= length (Plain.silence (24 * 1024)) / DCT.block_size /\
   DCT.embed_channel Plain.dct_lib (Plain.silence (24 * 1024)) [256%N]
   = Raised (TooLarge 24) /\
   bind (DCT.embed_channel Plain.dct_lib (Plain.silence (25 * 1024)) [256%N])
        (DCT.extract_channel Plain.dct_lib)
   = Returned [128%N]) /\
  ((Z.of_nat (8 * length [72%N] + 16)
    <=? DFT.max_bits (length (Plain.silence 4128)))%Z = true /\
   bind (DFT.embed_channel Plain.fft_lib (Plain.silence 4128) [72%N])
        (DFT.extract_channel Plain.fft_lib)
   = NotANumber).
Proof.
  repeat split; try (apply Nat.leb_le); vm_compute; reflexivity.
Qed.


(** * Further properties of the code *)

(** ** The message processor *)

Module CodecMore.
Import MessageProcessor CodecFacts.

Lemma format_08b_int2 (w : bits) : length w = 8 -> format_08b (int2 w) = w.
Proof.
  intros H.
  do 8 (destruct w as [| [] w]; [discriminate | |]);
    (destruct w; [reflexivity | discriminate]).
Qed.

Lemma firstn_plus {A} (a n : nat) (l : list A) :
  firstn (a + n) l = firstn a l ++ firstn n (skipn a l).
Proof.
  revert l. induction a as [| a IH]; intros l; [reflexivity |].
  destruct l as [| x l]; cbn [Nat.add firstn skipn app].
  - rewrite firstn_nil. reflexivity.
  - rewrite IH. reflexivity.
Qed.

Lemma groups_concat (b : bits) (q : nat) :
  8 * q <= length b ->
  flat_map (fun j => slice (8 * j) (8 * j + 8) b) (seq 0 q) = firstn (8 * q) b.
Proof.
  induction q as [| q IH]; intros Hq; [reflexivity |].
  rewrite seq_S, flat_map_app, IH by lia. cbn [flat_map Nat.add].
  rewrite app_nil_r. replace (8 * S q) with (8 * q + 8) by lia.
  rewrite firstn_plus. f_equal. unfold slice. f_equal. lia.
Qed.

(** The shape of what [binary_to_text] returns: one character per complete
    group of 8 bits, each with a code point below 256. *)
Theorem binary_to_text_shape :
  forall binary : bits,
    length (binary_to_text binary) = length binary / 8 /\
    Forall (fun c => (c < 256)%N) (binary_to_text binary).
Proof.
  intros binary. split.
  - rewrite binary_to_text_groups, length_map, length_seq. reflexivity.
  - apply binary_to_text_bytes.
Qed.

(** Encoding what [binary_to_text] decoded gives back the bits that were
    decoded: the input without its last [len mod 8] bits. *)
Theorem text_to_binary_of_decoded :
  forall binary : bits,
    text_to_binary (binary_to_text binary) =
    firstn (8 * (length binary / 8)) binary.
Proof.
  intros binary. rewrite binary_to_text_groups. unfold text_to_binary.
  rewrite flat_map_concat_map, map_map.
  rewrite <- groups_concat
    by (pose proof (Nat.div_mod_eq (length binary) 8); lia).
  rewrite flat_map_concat_map. f_equal.
  apply map_ext_in. intros j Hj. apply in_seq in Hj.
  apply format_08b_int2. apply ArrayFacts.length_slice.
  pose proof (Nat.div_mod_eq (length binary) 8). lia.
Qed.

End CodecMore.

(** ** The bit error rate *)

Module BerFacts.
Import BitErrorRate.

Lemma count_errors_same (x : bits) : count_errors x x = 0.
Proof.
  unfold count_errors. induction x as [| a x IH]; [reflexivity |].
  cbn [combine filter fst snd]. rewrite Bool.eqb_reflx. exact IH.
Qed.

Lemma count_errors_le (x y : bits) : count_errors x y <= length y.
Proof.
  unfold count_errors.
  eapply Nat.le_trans; [apply filter_length_le |].
  rewrite length_combine. lia.
Qed.

Lemma starts_with_app (p s : text) : starts_with N.eqb p (p ++ s) = true.
Proof.
  induction p as [| a p IH]; [reflexivity |].
  cbn [app starts_with]. rewrite N.eqb_refl. exact IH.
Qed.

Lemma contains_app (p pre post : text) : contains p (pre ++ p ++ post) = true.
Proof.
  induction pre as [| a pre IH].
  - cbn [app]. destruct (p ++ post) eqn:E; cbn [contains];
      rewrite <- E, starts_with_app; reflexivity.
  - cbn [app contains]. rewrite IH. apply orb_true_r.
Qed.

Lemma digits_are_not_failure (e : text) :
  binary_digits e = true -> contains EXTRACTION_FAILED e = false.
Proof.
  induction e as [| c e IH]; intros H; [reflexivity |].
  cbn [binary_digits forallb] in H. apply andb_prop in H. destruct H as [Hc He].
  cbn [contains]. rewrite (IH He), orb_false_r.
  apply orb_prop in Hc. destruct Hc as [Hc | Hc]; apply N.eqb_eq in Hc; subst c;
    reflexivity.
Qed.

Lemma Zpos_of_nat (n : nat) : n <> 0 -> Zpos (Pos.of_nat n) = Z.of_nat n.
Proof.
  intros H. rewrite <- positive_nat_Z, Nat2Pos.id by exact H. reflexivity.
Qed.

Lemma rate_bounds (errors len : nat) :
  len <> 0 -> errors <= len ->
  (0 <= Z.of_nat errors # Pos.of_nat len)%Q /\
  (Z.of_nat errors # Pos.of_nat len <= 1)%Q.
Proof.
  intros Hlen Hle. unfold Qle. cbn [Qnum Qden].
  rewrite (Zpos_of_nat Hlen). lia.
Qed.

End BerFacts.

(** The error rates lie between 0 and 1, as their docstrings say, when the
    ratio of [difflib] does. *)
Theorem calculate_ber_range :
  forall (D : difflib_library),
    (forall a b, (0 <= ratio D a b)%Q /\ (ratio D a b <= 1)%Q) ->
    forall (original_message : text) (extracted_message : option text),
      (0 <= BitErrorRate.calculate_ber D original_message extracted_message)%Q /\
      (BitErrorRate.calculate_ber D original_message extracted_message <= 1)%Q /\
      (0 <= BitErrorRate.robustness_calculate_ber D original_message
              extracted_message)%Q /\
      (BitErrorRate.robustness_calculate_ber D original_message
         extracted_message <= 1)%Q.
Proof.
  intros D HD o e.
  assert (Hone : (0 <= 1)%Q /\ (1 <= 1)%Q) by (split; discriminate).
  assert (Hdist : forall a b, (0 <= 1 - ratio D a b)%Q /\
                              (1 - ratio D a b <= 1)%Q).
  { intros a b. destruct (HD a b) as [H0 H1]. split.
    - unfold Qminus. rewrite <- (Qplus_opp_r (ratio D a b)).
      apply Qplus_le_l. exact H1.
    - rewrite <- (Qplus_0_r 1) at 2. unfold Qminus.
      apply Qplus_le_r. apply (Qopp_le_compat 0). exact H0. }
  unfold BitErrorRate.calculate_ber, BitErrorRate.robustness_calculate_ber.
  destruct e as [e |]; [| tauto].
  destruct (contains EXTRACTION_FAILED e); [tauto |].
  assert (Hrate :
    forall x y : bits,
      (0 <= (if length x =? 0 then 1 - ratio D o e
             else Z.of_nat (BitErrorRate.count_errors x y)
                  # Pos.of_nat (length x)))%Q /\
      ((if length x =? 0 then 1 - ratio D o e
        else Z.of_nat (BitErrorRate.count_errors x y)
             # Pos.of_nat (length x)) <= 1)%Q).
  { intros x y. destruct (Nat.eqb_spec (length x) 0) as [_ | Hlen];
      [apply Hdist |].
    apply BerFacts.rate_bounds; [exact Hlen |].
    unfold BitErrorRate.count_errors.
    eapply Nat.le_trans; [apply filter_length_le |].
    rewrite length_combine. lia. }
  split; [apply Hrate | split; [apply Hrate | apply Hdist]].
Qed.

Lemma calculate_ber_range_witness :
  (forall a b, (0 <= ratio exact_match a b)%Q /\ (ratio exact_match a b <= 1)%Q) /\
  (0 <= BitErrorRate.calculate_ber exact_match [72%N; 105%N] (Some [72%N; 73%N]))%Q /\
  (BitErrorRate.calculate_ber exact_match [72%N; 105%N] (Some [72%N; 73%N]) <= 1)%Q.
Proof.
  assert (H : forall a b, (0 <= ratio exact_match a b)%Q /\
                          (ratio exact_match a b <= 1)%Q).
  { intros a b. cbn [ratio exact_match].
    destruct (list_eq_dec N.eq_dec a b); split; discriminate. }
  split; [exact H |].
  destruct (@calculate_ber_range exact_match H [72%N; 105%N] (Some [72%N; 73%N]))
    as [H0 [H1 _]].
  split; assumption.
Defined.

Module BerMore.
Import BitErrorRate BerFacts.

Lemma max_len_full (o e : text) :
  8 * length e <= length (MessageProcessor.text_to_binary o) ->
  Nat.min (length (MessageProcessor.text_to_binary o)) (length e * 8)
  = 8 * length e.
Proof. lia. Qed.

Lemma max_len_zero (o e : text) :
  o = [] \/ e = [] ->
  Nat.min (length (MessageProcessor.text_to_binary o)) (length e * 8) = 0.
Proof. intros [-> | ->]; cbn [length MessageProcessor.text_to_binary flat_map]; lia. Qed.

Lemma max_len_positive (o e : text) :
  o <> [] -> e <> [] ->
  Nat.min (length (MessageProcessor.text_to_binary o)) (length e * 8) <> 0.
Proof.
  intros Ho He. pose proof (CodecFacts.length_text_to_binary_ge o).
  destruct o; [contradiction |]. destruct e; [contradiction |].
  cbn [length] in *. lia.
Qed.

End BerMore.

(** A message compared with itself has error rate 0, unless it is empty,
    is made of the characters '0' and '1' only, or contains the failure
    string. *)
Theorem calculate_ber_of_the_same_message :
  forall (D : difflib_library) (message : text),
    message <> [] ->
    BitErrorRate.binary_digits message = false ->
    contains EXTRACTION_FAILED message = false ->
    (BitErrorRate.calculate_ber D message (Some message) == 0)%Q.
Proof.
  intros D m Hne Hdigits Hfail. unfold BitErrorRate.calculate_ber.
  rewrite Hfail, Hdigits.
  rewrite BerFacts.count_errors_same.
  destruct (Nat.eqb_spec
              (length (firstn (Nat.min (length (MessageProcessor.text_to_binary m))
                                 (length m * 8))
                         (MessageProcessor.text_to_binary m))) 0) as [E | _].
  - exfalso. rewrite length_firstn in E.
    pose proof (BerMore.max_len_positive Hne Hne). lia.
  - reflexivity.
Qed.

Lemma calculate_ber_of_the_same_message_witness :
  [72%N; 105%N] <> [] /\
  BitErrorRate.binary_digits [72%N; 105%N] = false /\
  contains EXTRACTION_FAILED [72%N; 105%N] = false /\
  (BitErrorRate.calculate_ber exact_match [72%N; 105%N] (Some [72%N; 105%N]) == 0)%Q.
Proof.
  assert (H1 : [72%N; 105%N] <> (@nil N)) by discriminate.
  assert (H2 : BitErrorRate.binary_digits [72%N; 105%N] = false) by reflexivity.
  assert (H3 : contains EXTRACTION_FAILED [72%N; 105%N] = false) by reflexivity.
  split; [exact H1 | split; [exact H2 | split; [exact H3 |]]].
  exact (@calculate_ber_of_the_same_message exact_match [72%N; 105%N] H1 H2 H3).
Defined.

(** An extracted string made of the characters '0' and '1' only is taken
    as bits, but the length compared is still 8 per character: at most one
    bit in 8 of the original is looked at, so the error rate is at most 1/8
    whatever the two messages are. *)
Theorem calculate_ber_of_binary_digits :
  forall (D : difflib_library) (original_message extracted_message : text),
    extracted_message <> [] ->
    BitErrorRate.binary_digits extracted_message = true ->
    8 * length extracted_message
      <= length (MessageProcessor.text_to_binary original_message) ->
    (8 * BitErrorRate.calculate_ber D original_message (Some extracted_message)
     <= 1)%Q.
Proof.
  intros D o e Hne Hdigits Hlen. unfold BitErrorRate.calculate_ber.
  rewrite (BerFacts.digits_are_not_failure e Hdigits), Hdigits.
  rewrite (BerMore.max_len_full o e Hlen).
  set (x := firstn (8 * length e) (MessageProcessor.text_to_binary o)).
  set (y := map (fun c => (c =? 49)%N) (firstn (8 * length e) e)).
  assert (Hx : length x = 8 * length e)
    by (unfold x; rewrite length_firstn; lia).
  assert (Hy : length y <= length e)
    by (unfold y; rewrite length_map, length_firstn; lia).
  pose proof (BerFacts.count_errors_le x y) as Herr.
  assert (He : length e <> 0) by (destruct e; [contradiction | discriminate]).
  destruct (Nat.eqb_spec (length x) 0) as [E | Hx0]; [lia |].
  unfold Qle, Qmult. cbn [Qnum Qden].
  rewrite Pos.mul_1_l, (BerFacts.Zpos_of_nat Hx0). lia.
Qed.

Lemma calculate_ber_of_binary_digits_witness :
  [49%N] <> [] /\
  BitErrorRate.binary_digits [49%N] = true /\
  8 * length [49%N] <= length (MessageProcessor.text_to_binary [72%N]) /\
  (8 * BitErrorRate.calculate_ber exact_match [72%N] (Some [49%N]) <= 1)%Q.
Proof.
  assert (H1 : [49%N] <> (@nil N)) by discriminate.
  assert (H2 : BitErrorRate.binary_digits [49%N] = true) by reflexivity.
  assert (H3 : 8 * length [49%N]
               <= length (MessageProcessor.text_to_binary [72%N]))
    by (apply Nat.leb_le; reflexivity).
  split; [exact H1 | split; [exact H2 | split; [exact H3 |]]].
  exact (@calculate_ber_of_binary_digits exact_match [72%N] [49%N] H1 H2 H3).
Defined.

(** An extracted string that contains the failure string anywhere, and a
    missing one, count as all bits wrong in both error rates. *)
Theorem calculate_ber_of_a_failure :
  forall (D : difflib_library) (original_message before after : text),
    BitErrorRate.calculate_ber D original_message
      (Some (before ++ EXTRACTION_FAILED ++ after)) = 1%Q /\
    BitErrorRate.robustness_calculate_ber D original_message
      (Some (before ++ EXTRACTION_FAILED ++ after)) = 1%Q /\
    BitErrorRate.calculate_ber D original_message None = 1%Q /\
    BitErrorRate.robustness_calculate_ber D original_message None = 1%Q.
Proof.
  intros D o pre post.
  unfold BitErrorRate.calculate_ber, BitErrorRate.robustness_calculate_ber.
  rewrite BerFacts.contains_app. repeat split.
Qed.

(** [MessageProcessor.calculate_ber] compares bits exactly when both
    messages are non-empty; when one is empty its division fails and the
    result is the distance of [difflib]. *)
Theorem calculate_ber_fallback :
  forall (D : difflib_library) (original_message extracted_message : text),
    contains EXTRACTION_FAILED extracted_message = false ->
    (original_message = [] \/ extracted_message = [] ->
     BitErrorRate.calculate_ber D original_message (Some extracted_message)
     = (1 - ratio D original_message extracted_message)%Q) /\
    (original_message <> [] -> extracted_message <> [] ->
     forall D' : difflib_library,
       BitErrorRate.calculate_ber D' original_message (Some extracted_message)
       = BitErrorRate.calculate_ber D original_message (Some extracted_message)).
Proof.
  intros D o e Hfail. unfold BitErrorRate.calculate_ber. rewrite Hfail. split.
  - intros Hempty. rewrite (BerMore.max_len_zero Hempty). reflexivity.
  - intros Ho He D'. pose proof (BerMore.max_len_positive Ho He) as Hpos.
    pose proof (CodecFacts.length_text_to_binary_ge o) as Hge.
    destruct (Nat.eqb_spec
                (length (firstn (Nat.min (length (MessageProcessor.text_to_binary o))
                                   (length e * 8))
                           (MessageProcessor.text_to_binary o))) 0) as [E | _];
      [| reflexivity].
    exfalso. rewrite length_firstn in E. lia.
Qed.

Lemma calculate_ber_fallback_witness :
  contains EXTRACTION_FAILED [] = false /\
  BitErrorRate.calculate_ber exact_match [72%N] (Some [])
  = (1 - ratio exact_match [72%N] [])%Q.
Proof.
  assert (H : contains EXTRACTION_FAILED [] = false) by reflexivity.
  split; [exact H |].
  exact (proj1 (@calculate_ber_fallback exact_match [72%N] [] H)
           (or_intror eq_refl)).
Defined.

(** ** The base class *)

Module FindFacts.
Import LoopFacts.

Lemma starts_with_firstn (p t : bits) :
  starts_with Bool.eqb p t = true <-> firstn (length p) t = p.
Proof.
  revert t. induction p as [| a p IH]; intros t.
  - cbn. tauto.
  - destruct t as [| b t]; cbn [starts_with length firstn].
    + split; discriminate.
    + rewrite andb_true_iff, IH. split.
      * intros [Hab Hp]. apply Bool.eqb_prop in Hab. subst b. f_equal. exact Hp.
      * intros H. injection H as -> Hp. split; [apply Bool.eqb_reflx | exact Hp].
Qed.

Lemma starts_with_length (p t : bits) :
  starts_with Bool.eqb p t = true -> length p <= length t.
Proof.
  intros H. apply starts_with_firstn in H.
  rewrite <- H at 1. rewrite length_firstn. lia.
Qed.

(** [find]: [-1] when the pattern occurs nowhere, otherwise the first
    index where it occurs. *)
Lemma find_from_spec (p : bits) :
  forall (s : bits) (i : Z),
    (find_from p s i = (-1)%Z /\
     forall k, starts_with Bool.eqb p (skipn k s) = false) \/
    (exists k,
       find_from p s i = (i + Z.of_nat k)%Z /\
       starts_with Bool.eqb p (skipn k s) = true /\
       forall j, j < k -> starts_with Bool.eqb p (skipn j s) = false).
Proof.
  induction s as [| a s IH]; intros i; cbn [find_from].
  - destruct (starts_with Bool.eqb p []) eqn:E.
    + right. exists 0. rewrite Z.add_0_r. repeat split; trivial.
      intros j Hj. lia.
    + left. split; [reflexivity |]. intros k. rewrite skipn_nil. exact E.
  - destruct (starts_with Bool.eqb p (a :: s)) eqn:E.
    + right. exists 0. rewrite Z.add_0_r. repeat split; trivial.
      intros j Hj. lia.
    + destruct (IH (i + 1)%Z) as [[Hnone Hall] | [k [Hk [Hat Hbefore]]]].
      * left. split; [exact Hnone |].
        intros [| k]; [exact E | apply Hall].
      * right. exists (S k). split; [rewrite Hk; lia |]. split; [exact Hat |].
        intros [| j] Hj; [exact E | apply Hbefore; lia].
Qed.

Lemma endswith_prefix (b : bits) (k : nat) :
  16 <= k <= length b ->
  endswith (firstn k b) END_MARKER =
  starts_with Bool.eqb END_MARKER (skipn (k - 16) b).
Proof.
  intros Hk. unfold endswith.
  rewrite length_firstn, length_END_MARKER.
  replace (Nat.min k (length b)) with k by lia.
  rewrite skipn_firstn_comm. replace (k - (k - 16)) with 16 by lia.
  destruct (list_eq_dec bool_dec (firstn 16 (skipn (k - 16) b)) END_MARKER)
    as [E | N].
  - rewrite (proj2 (starts_with_firstn END_MARKER (skipn (k - 16) b)) E).
    apply Nat.leb_le. lia.
  - symmetry. apply not_true_is_false. intros H.
    apply starts_with_firstn in H. apply N. exact H.
Qed.

Lemma no_prefix_ends (b : bits) (k : nat) :
  (forall j, j + 16 < k -> starts_with Bool.eqb END_MARKER (skipn j b) = false) ->
  forall m, 1 <= m < k -> m <= length b ->
            endswith (firstn m b) END_MARKER = false.
Proof.
  intros H m Hm Hlen.
  destruct (Nat.lt_ge_cases m 16) as [Hs | Hl].
  - apply endswith_short. rewrite length_firstn. lia.
  - rewrite endswith_prefix by lia. apply H. lia.
Qed.

(** The extraction loop returns the bits it read, cut at the first marker. *)
Lemma scan_is_cut (read : nat -> reading) (b : bits) :
  map read (seq 0 (length b)) = map Bit b ->
  extract_loop read (seq 0 (length b)) [] = Returned (cut_at_marker b).
Proof.
  intros Hread. unfold cut_at_marker, find.
  destruct (find_from_spec END_MARKER b 0) as [[Hnone Hall] | [k [Hk [Hat Hbefore]]]].
  - rewrite Hnone. cbn [Z.eqb].
    rewrite (@extract_loop_no_marker read _ b [] Hread); [reflexivity |].
    intros m Hm. cbn [app].
    apply (@no_prefix_ends b (S (length b))); [| lia | lia].
    intros j _. apply Hall.
  - rewrite Hk. cbn [Z.add].
    destruct (Z.eqb_spec (Z.of_nat k) (-1)) as [E | _]; [lia |].
    rewrite Nat2Z.id.
    pose proof (starts_with_length _ _ Hat) as Hlen.
    rewrite length_skipn, length_END_MARKER in Hlen.
    assert (Hk16 : k + 16 <= length b).
    { destruct (Nat.le_gt_cases (length b) k); lia. }
    replace (length b) with ((k + 16) + (length b - (k + 16))) at 1 by lia.
    rewrite seq_app.
    rewrite (@extract_loop_marker read _ _ (firstn (k + 16) b) []).
    + cbn [app]. unfold drop_last.
      rewrite length_firstn, length_END_MARKER, firstn_firstn.
      do 2 f_equal. lia.
    + rewrite <- firstn_map.
      apply (@map_firstn_seq _ read _ _ (length b)); [exact Hread | lia].
    + intros E. apply (f_equal (@length bool)) in E.
      rewrite length_firstn in E. cbn [length] in E. lia.
    + intros m Hm. cbn [app]. rewrite length_firstn in Hm.
      rewrite firstn_firstn. replace (Nat.min m (k + 16)) with m by lia.
      apply (@no_prefix_ends b (k + 16)); [| lia | lia].
      intros j Hj. apply Hbefore. lia.
    + cbn [app]. rewrite endswith_prefix by lia.
      replace (k + 16 - 16) with k by lia. exact Hat.
Qed.

Lemma binary_to_text_aligned (b : bits) :
  MessageProcessor.binary_to_text
    (if length b mod 8 =? 0 then b else drop_last (length b mod 8) b)
  = MessageProcessor.binary_to_text b.
Proof.
  destruct (Nat.eqb_spec (length b mod 8) 0) as [_ | Hr]; [reflexivity |].
  pose proof (Nat.div_mod_eq (length b) 8) as E.
  rewrite !CodecFacts.binary_to_text_groups. unfold drop_last.
  rewrite length_firstn.
  replace (Nat.min (length b - length b mod 8) (length b))
    with (length b / 8 * 8) by lia.
  rewrite Nat.div_mul by lia.
  apply map_ext_in. intros j Hj. apply in_seq in Hj.
  f_equal. apply CodecFacts.slice_firstn. lia.
Qed.

Lemma process_is_cut (b : bits) :
  SteganographyBase.process_extracted_binary b =
  MessageProcessor.binary_to_text (cut_at_marker b).
Proof.
  unfold SteganographyBase.process_extracted_binary.
  fold (cut_at_marker b). apply binary_to_text_aligned.
Qed.

End FindFacts.

(** [process_extracted_binary] of the base class, which looks the marker up
    with [find], decodes the same bits as the loop of the three [extract]
    methods, which stops at the first prefix that ends with the marker. *)
Theorem base_class_agrees_with_the_scan :
  forall (read : nat -> reading) (b : bits),
    map read (seq 0 (length b)) = map Bit b ->
    exists r,
      extract_loop read (seq 0 (length b)) [] = Returned r /\
      SteganographyBase.process_extracted_binary b =
      MessageProcessor.binary_to_text r.
Proof.
  intros read b Hread. exists (cut_at_marker b). split.
  - apply FindFacts.scan_is_cut, Hread.
  - apply FindFacts.process_is_cut.
Qed.

Lemma base_class_agrees_with_the_scan_witness :
  map (fun i => Bit (nth i (framed [72%N] ++ [true; true]) false))
    (seq 0 (length (framed [72%N] ++ [true; true])))
  = map Bit (framed [72%N] ++ [true; true]) /\
  exists r,
    extract_loop (fun i => Bit (nth i (framed [72%N] ++ [true; true]) false))
      (seq 0 (length (framed [72%N] ++ [true; true]))) [] = Returned r /\
    SteganographyBase.process_extracted_binary (framed [72%N] ++ [true; true])
    = MessageProcessor.binary_to_text r.
Proof.
  assert (H : map (fun i => Bit (nth i (framed [72%N] ++ [true; true]) false))
                (seq 0 (length (framed [72%N] ++ [true; true])))
              = map Bit (framed [72%N] ++ [true; true])) by reflexivity.
  split; [exact H |].
  exact (@base_class_agrees_with_the_scan _ _ H).
Defined.

(** The base class gives a message back: [process_extracted_binary] of
    [prepare_message] is the message, with the marker when the framed bits
    have it at their end only, without the marker when the bits of the
    message do not contain it.  The empty message comes back empty. *)
Theorem base_class_round_trip :
  forall message : text,
    one_byte_characters message = true ->
    (marker_only_at_end (framed message) = true ->
     SteganographyBase.process_extracted_binary
       (SteganographyBase.prepare_message message true) = message) /\
    (marker_never_read (MessageProcessor.text_to_binary message) = true ->
     SteganographyBase.process_extracted_binary
       (SteganographyBase.prepare_message message false) = message).
Proof.
  intros m Hbytes.
  pose proof (CodecFacts.binary_to_text_to_binary
                (ScanFacts.one_byte_characters_spec m Hbytes)) as Hdecode.
  unfold SteganographyBase.prepare_message. fold (framed m). split.
  - intros Hfree.
    set (read := fun i => Bit (nth i (framed m) false)).
    assert (Hread : map read (seq 0 (length (framed m))) = map Bit (framed m))
      by (apply ScanFacts.map_seq_bits; reflexivity).
    pose proof (FindFacts.scan_is_cut read (framed m) Hread) as Hcut.
    rewrite (ScanFacts.scan_framed read m (Nat.le_refl _)) in Hcut;
      [| reflexivity | exact Hfree].
    injection Hcut as Hcut.
    rewrite FindFacts.process_is_cut, <- Hcut. exact Hdecode.
  - intros Hfree.
    set (b := MessageProcessor.text_to_binary m) in *.
    set (read := fun i => Bit (nth i b false)).
    assert (Hread : map read (seq 0 (length b)) = map Bit b)
      by (apply ScanFacts.map_seq_bits; reflexivity).
    pose proof (FindFacts.scan_is_cut read b Hread) as Hcut.
    rewrite (@LoopFacts.extract_loop_no_marker read _ b [] Hread) in Hcut.
    + injection Hcut as Hcut. cbn [app] in Hcut.
      rewrite FindFacts.process_is_cut, <- Hcut. exact Hdecode.
    + intros k Hk. cbn [app].
      apply (@ScanFacts.marker_never_read_spec b Hfree k Hk).
Qed.

Lemma base_class_round_trip_witness :
  one_byte_characters [72%N; 105%N] = true /\
  marker_only_at_end (framed [72%N; 105%N]) = true /\
  SteganographyBase.process_extracted_binary
    (SteganographyBase.prepare_message [72%N; 105%N] true) = [72%N; 105%N].
Proof.
  assert (H1 : one_byte_characters [72%N; 105%N] = true) by reflexivity.
  assert (H2 : marker_only_at_end (framed [72%N; 105%N]) = true)
    by (vm_compute; reflexivity).
  split; [exact H1 | split; [exact H2 |]].
  exact (proj1 (@base_class_round_trip [72%N; 105%N] H1) H2).
Defined.

(** ** Ranges of samples *)

Module RangeFacts.
Import PeakFacts.

Lemma fold_max_bounds_members (r : list Q) :
  forall (a v : Q),
    In v r -> (Qabs v <= fold_left (fun m w => Qmax m (Qabs w)) r a)%Q.
Proof.
  induction r as [| w r IH]; intros a v Hin; [destruct Hin |].
  cbn [fold_left]. destruct Hin as [-> | Hin].
  - eapply Qle_trans; [apply Q.le_max_r | apply fold_max_ge].
  - apply IH, Hin.
Qed.

Lemma peak_bounds_members (x : list Q) (m : Q) :
  peak x = Returned m -> forall v, In v x -> (Qabs v <= m)%Q.
Proof.
  destruct x as [| a r]; [discriminate |]. cbn [peak].
  intros H v Hin. injection H as <-. destruct Hin as [-> | Hin].
  - apply fold_max_ge.
  - apply fold_max_bounds_members, Hin.
Qed.

Lemma fold_max_le (c : Q) (r : list Q) :
  forall a : Q,
    (a <= c)%Q -> (forall v, In v r -> (Qabs v <= c)%Q) ->
    (fold_left (fun m w => Qmax m (Qabs w)) r a <= c)%Q.
Proof.
  induction r as [| w r IH]; intros a Ha Hr; cbn [fold_left]; [exact Ha |].
  apply IH.
  - apply Q.max_lub; [exact Ha | apply Hr; left; reflexivity].
  - intros v Hv. apply Hr. right. exact Hv.
Qed.

Lemma peak_le (c : Q) (x : list Q) (m : Q) :
  peak x = Returned m -> (forall v, In v x -> (Qabs v <= c)%Q) -> (m <= c)%Q.
Proof.
  destruct x as [| a r]; [discriminate |]. cbn [peak].
  intros H Hx. injection H as <-. apply fold_max_le.
  - apply Hx. left. reflexivity.
  - intros v Hv. apply Hx. right. exact Hv.
Qed.

Lemma scaled_within (v m : Q) :
  (0 < m)%Q -> (Qabs v <= m)%Q -> (Qabs (v / m) <= 1)%Q.
Proof.
  intros Hm Hv. apply Qabs_Qle_condition in Hv. destruct Hv as [Hlo Hhi].
  apply Qabs_Qle_condition. split.
  - apply Qle_shift_div_l; [exact Hm |].
    setoid_replace (- (1) * m)%Q with (- m)%Q by ring. exact Hlo.
  - apply Qle_shift_div_r; [exact Hm |].
    setoid_replace (1 * m)%Q with m by ring. exact Hhi.
Qed.

Lemma Qgtb_true (x y : Q) : Qgtb x y = true -> (y < x)%Q.
Proof.
  unfold Qgtb. rewrite negb_true_iff. intros H.
  apply Qnot_le_lt. intros Hle. apply Qle_bool_iff in Hle. congruence.
Qed.

Lemma Qgtb_false (x y : Q) : Qgtb x y = false -> (x <= y)%Q.
Proof.
  unfold Qgtb. rewrite negb_false_iff. apply Qle_bool_iff.
Qed.

(** A channel divided by its peak when the peak exceeds 1 lies in
    [-1, 1]. *)
Lemma normalized_within (x : list Q) (m : Q) :
  peak x = Returned m ->
  forall v,
    In v (if Qgtb m 1 then map (fun w => (w / m)%Q) x else x) ->
    (Qabs v <= 1)%Q.
Proof.
  intros Hpeak v Hin. pose proof (peak_bounds_members x Hpeak) as Hb.
  destruct (Qgtb m 1) eqn:E.
  - apply in_map_iff in Hin. destruct Hin as [w [<- Hw]].
    apply scaled_within; [| apply Hb, Hw].
    eapply Qlt_trans; [| apply Qgtb_true, E]. reflexivity.
  - eapply Qle_trans; [apply Hb, Hin | apply Qgtb_false, E].
Qed.

Lemma all_samples_scale (k : Q) (a : audio) :
  all_samples (scale_audio k a) = map (fun v => (v / k)%Q) (all_samples a).
Proof.
  destruct a as [s | f]; [reflexivity |]. cbn [scale_audio all_samples].
  induction f as [| p f IH]; [reflexivity |].
  cbn [map flat_map fst snd]. rewrite IH, map_app. reflexivity.
Qed.

End RangeFacts.

(** What [save_audio] leaves on the disk when it returns: the file it was
    asked to write, with samples within [-1, 1] and the sample rate given;
    every other file as it was; and the data is stored unchanged when it
    was within [-1, 1] already.  [read_audio] gives the stored data back. *)
Theorem save_audio_postcondition :
  forall (fs fs' : disk) (audio_path : String.string) (sample_rate : N)
         (audio_data : audio),
    AudioReader.save_audio fs audio_path sample_rate audio_data = Returned fs' ->
    exists stored,
      fs' audio_path = Some (Wav sample_rate stored) /\
      AudioReader.read_audio fs' audio_path = Returned (sample_rate, stored) /\
      (forall v, In v (all_samples stored) -> (Qabs v <= 1)%Q) /\
      (forall q, q <> audio_path -> fs' q = fs q) /\
      ((forall v, In v (all_samples audio_data) -> (Qabs v <= 1)%Q) ->
       stored = audio_data).
Proof.
  intros fs fs' p rate a H. unfold AudioReader.save_audio in H.
  destruct (peak (all_samples a)) as [m | e |] eqn:Hpeak; cbn [bind] in H;
    try discriminate.
  injection H as <-.
  exists (if Qgtb m 1 then scale_audio m a else a).
  assert (Hfile : write_disk fs p (Wav rate (if Qgtb m 1 then scale_audio m a else a)) p
                  = Some (Wav rate (if Qgtb m 1 then scale_audio m a else a))).
  { unfold write_disk. rewrite String.eqb_refl. reflexivity. }
  split; [exact Hfile |]. split; [| split; [| split]].
  - unfold AudioReader.read_audio. rewrite Hfile. reflexivity.
  - intros v Hv. apply (RangeFacts.normalized_within (all_samples a) Hpeak).
    destruct (Qgtb m 1); [rewrite <- RangeFacts.all_samples_scale |]; exact Hv.
  - intros q Hq. unfold write_disk.
    destruct (String.eqb_spec q p); [contradiction | reflexivity].
  - intros Hin. destruct (Qgtb m 1) eqn:E; [| reflexivity].
    exfalso. apply RangeFacts.Qgtb_true in E.
    apply (Qlt_not_le _ _ E).
    apply (@RangeFacts.peak_le 1%Q (all_samples a) m Hpeak Hin).
Qed.

Lemma save_audio_postcondition_witness :
  AudioReader.save_audio (Plain.disk_with (Mono [2%Q])) "out.wav" 8
    (Mono [2%Q; (- (4))%Q])
  = Returned (write_disk (Plain.disk_with (Mono [2%Q])) "out.wav"
                (Wav 8 (scale_audio 4 (Mono [2%Q; (- (4))%Q])))) /\
  exists stored,
    write_disk (Plain.disk_with (Mono [2%Q])) "out.wav"
      (Wav 8 (scale_audio 4 (Mono [2%Q; (- (4))%Q]))) "out.wav"%string
    = Some (Wav 8 stored) /\
    forall v, In v (all_samples stored) -> (Qabs v <= 1)%Q.
Proof.
  assert (H : AudioReader.save_audio (Plain.disk_with (Mono [2%Q])) "out.wav" 8
                (Mono [2%Q; (- (4))%Q])
              = Returned (write_disk (Plain.disk_with (Mono [2%Q])) "out.wav"
                            (Wav 8 (scale_audio 4 (Mono [2%Q; (- (4))%Q])))))
    by reflexivity.
  split; [exact H |].
  destruct (@save_audio_postcondition _ _ _ _ _ H) as [stored [H1 [_ [H2 _]]]].
  exists stored. split; assumption.
Defined.

(** [read_audio] maps 16-bit samples into [-1, 1), and [save_audio] then
    stores such data as it is, without another scaling. *)
Theorem int16_samples_are_normalized :
  forall (audio_data : audio),
    (forall v, In v (all_samples audio_data) ->
               (- (32768) <= v)%Q /\ (v <= 32767)%Q) ->
    (forall v, In v (all_samples (WavData.to_float32 int16 audio_data)) ->
               (- (1) <= v)%Q /\ (v < 1)%Q) /\
    (all_samples audio_data <> [] ->
     forall (fs : disk) (audio_path : String.string) (sample_rate : N),
       AudioReader.save_audio fs audio_path sample_rate
         (WavData.to_float32 int16 audio_data)
       = Returned (write_disk fs audio_path
                     (Wav sample_rate (WavData.to_float32 int16 audio_data)))).
Proof.
  intros a Hrange.
  assert (Hconv : forall v,
            In v (all_samples (WavData.to_float32 int16 a)) ->
            (- (1) <= v)%Q /\ (v < 1)%Q).
  { intros v Hv. cbn [WavData.to_float32] in Hv.
    rewrite RangeFacts.all_samples_scale in Hv.
    apply in_map_iff in Hv. destruct Hv as [w [<- Hw]].
    destruct (Hrange w Hw) as [Hlo Hhi]. split.
    - apply Qle_shift_div_l; [reflexivity | exact Hlo].
    - apply Qlt_shift_div_r; [reflexivity |].
      eapply Qle_lt_trans; [exact Hhi | reflexivity]. }
  split; [exact Hconv |].
  intros Hne fs p rate. unfold AudioReader.save_audio.
  assert (Hne' : all_samples (WavData.to_float32 int16 a) <> []).
  { cbn [WavData.to_float32]. rewrite RangeFacts.all_samples_scale.
    destruct (all_samples a); [contradiction | discriminate]. }
  destruct (PeakFacts.peak_spec Hne') as [m [Hpeak _]].
  rewrite Hpeak. cbn [bind].
  assert (Hm : (m <= 1)%Q).
  { apply (@RangeFacts.peak_le 1%Q _ m Hpeak). intros v Hv.
    destruct (Hconv v Hv) as [Hlo Hhi].
    apply Qabs_Qle_condition. split; [exact Hlo | apply Qlt_le_weak, Hhi]. }
  apply Qle_bool_iff in Hm. unfold Qgtb. rewrite Hm. reflexivity.
Qed.

Lemma int16_samples_are_normalized_witness :
  (forall v, In v (all_samples (Mono [(- (32768))%Q; 32767%Q])) ->
             (- (32768) <= v)%Q /\ (v <= 32767)%Q) /\
  forall v,
    In v (all_samples (WavData.to_float32 int16 (Mono [(- (32768))%Q; 32767%Q]))) ->
    (- (1) <= v)%Q /\ (v < 1)%Q.
Proof.
  assert (H : forall v, In v (all_samples (Mono [(- (32768))%Q; 32767%Q])) ->
                        (- (32768) <= v)%Q /\ (v <= 32767)%Q).
  { intros v [<- | [<- | []]]; split; discriminate. }
  split; [exact H |].
  exact (proj1 (@int16_samples_are_normalized _ H)).
Defined.

(** The channel the DFT [embed] returns lies in [-1, 1]: the result of the
    inverse transform is divided by its peak when the peak exceeds 1. *)
Theorem dft_embed_output_is_normalized :
  forall (L : fft_library) (channel_1 : list Q) (message : text) (out : list Q),
    DFT.embed_channel L channel_1 message = Returned out ->
    forall v, In v out -> (Qabs v <= 1)%Q.
Proof.
  intros L ch message out H. unfold DFT.embed_channel in H.
  destruct (DFT.normalize ch) as [normalized | e |]; cbn [bind] in H;
    try discriminate.
  destruct (Z.ltb _ _); [discriminate |].
  destruct normalized as [ch' |]; [| discriminate].
  destruct (peak (map (cabs L) (fft L ch'))) as [max_amp | e |];
    cbn [bind] in H; try discriminate.
  destruct (DFT.embed_loop L max_amp _ _) as [dft' | e |]; cbn [bind] in H;
    try discriminate.
  destruct (peak (map (real L) (ifft L dft'))) as [max_val | e |] eqn:Hpeak;
    cbn [bind] in H; try discriminate.
  intros v Hv. apply (RangeFacts.normalized_within _ Hpeak v).
  destruct (Qgtb max_val 1); injection H as <-; exact Hv.
Qed.

Lemma dft_embed_output_is_normalized_witness :
  DFT.embed_channel Plain.fft_lib (Plain.tone 4096) [72%N]
  = Returned (returned_or []
                (DFT.embed_channel Plain.fft_lib (Plain.tone 4096) [72%N])) /\
  forall v,
    In v (returned_or []
            (DFT.embed_channel Plain.fft_lib (Plain.tone 4096) [72%N])) ->
    (Qabs v <= 1)%Q.
Proof.
  assert (H : DFT.embed_channel Plain.fft_lib (Plain.tone 4096) [72%N]
              = Returned (returned_or []
                            (DFT.embed_channel Plain.fft_lib (Plain.tone 4096)
                               [72%N])))
    by (vm_compute; reflexivity).
  split; [exact H |].
  exact (@dft_embed_output_is_normalized _ _ _ _ H).
Defined.

(** ** The file part of [embed] and [extract] *)

Module FileFacts.

Lemma embed_with_failure (embed_channel : list Q -> text -> outcome (list Q))
    (fs : disk) (audio_path output_path : String.string) (message : text)
    (e : error) :
  snd (embed_with embed_channel fs audio_path message output_path) = Raised e ->
  fst (embed_with embed_channel fs audio_path message output_path) = fs.
Proof.
  unfold embed_with.
  destruct (AudioReader.read_audio fs audio_path) as [[rate data] | e0 |];
    [| reflexivity | reflexivity].
  destruct (embed_channel (first_channel data) message) as [out | e1 |];
    [| reflexivity | discriminate].
  destruct (with_first_channel data out) as [modified | e2 |];
    [| reflexivity | reflexivity].
  destruct (AudioReader.save_audio fs output_path rate modified);
    [discriminate | reflexivity | reflexivity].
Qed.

Lemma combine_channels (out : list Q) (f : list (Q * list Q)) :
  length out = length f ->
  map fst (map (fun p => (fst p, snd (snd p))) (combine out f)) = out /\
  map snd (map (fun p => (fst p, snd (snd p))) (combine out f)) = map snd f.
Proof.
  revert f. induction out as [| v out IH]; intros [| p f] H; try discriminate.
  - split; reflexivity.
  - cbn [length] in H. destruct (IH f) as [H1 H2]; [lia |].
    cbn [combine map fst snd]. rewrite H1, H2. split; reflexivity.
Qed.

(** Putting a channel back keeps the other channels, and channel 0 is the
    channel put back. *)
Lemma with_first_channel_spec (data modified : audio) (out : list Q) :
  with_first_channel data out = Returned modified ->
  other_channels modified = other_channels data /\
  (length out = length (first_channel data) -> first_channel modified = out).
Proof.
  destruct data as [s | f]; cbn [with_first_channel].
  - intros H. injection H as <-. split; reflexivity.
  - destruct (broadcast (length f) out) as [out' | e |] eqn:Eb; cbn [bind];
      try discriminate.
    intros H. injection H as <-.
    pose proof (ArrayFacts.length_broadcast _ _ Eb) as Hlen.
    destruct (combine_channels out' f Hlen) as [H1 H2].
    cbn [other_channels first_channel]. split; [exact H2 |].
    intros Hout. rewrite length_map in Hout.
    rewrite (ArrayFacts.broadcast_same out Hout) in Eb.
    injection Eb as <-. exact H1.
Qed.

(** What a successful [embed] has done. *)
Lemma embed_with_success (embed_channel : list Q -> text -> outcome (list Q))
    (fs fs' : disk) (audio_path output_path : String.string) (message : text)
    (original modified : audio) :
  embed_with embed_channel fs audio_path message output_path
    = (fs', Returned (original, modified)) ->
  exists (rate : N) (out : list Q) (m : Q),
    fs audio_path = Some (Wav rate original) /\
    embed_channel (first_channel original) message = Returned out /\
    with_first_channel original out = Returned modified /\
    peak (all_samples modified) = Returned m /\
    fs' = write_disk fs output_path
            (Wav rate (if Qgtb m 1 then scale_audio m modified else modified)).
Proof.
  unfold embed_with, AudioReader.read_audio.
  destruct (fs audio_path) as [[rate data |] |] eqn:Hfile; try discriminate.
  destruct (embed_channel (first_channel data) message) as [out | e1 |] eqn:Hrun;
    try discriminate.
  destruct (with_first_channel data out) as [modified' | e2 |] eqn:Hput;
    try discriminate.
  unfold AudioReader.save_audio.
  destruct (peak (all_samples modified')) as [m | e3 |] eqn:Hpeak; cbn [bind];
    try discriminate.
  intros H. injection H as <- <- <-.
  exists rate, out, m. repeat split; assumption.
Qed.

End FileFacts.

(** An [embed] that raises, whatever the exception, leaves every file as it
    was; and [embed] and [extract] on a path that holds no file raise. *)
Theorem embed_failure_leaves_the_disk :
  forall (Lc : dct_library) (Lw : dwt_library) (Lf : fft_library) (fs : disk)
         (audio_path output_path : String.string) (message : text),
    (forall e,
       snd (DCT.embed Lc fs audio_path message output_path) = Raised e ->
       fst (DCT.embed Lc fs audio_path message output_path) = fs) /\
    (forall e,
       snd (DWT.embed Lw fs audio_path message output_path) = Raised e ->
       fst (DWT.embed Lw fs audio_path message output_path) = fs) /\
    (forall e,
       snd (DFT.embed Lf fs audio_path message output_path) = Raised e ->
       fst (DFT.embed Lf fs audio_path message output_path) = fs) /\
    (fs audio_path = None ->
     DCT.embed Lc fs audio_path message output_path = (fs, Raised FileNotFound) /\
     DWT.embed Lw fs audio_path message output_path = (fs, Raised FileNotFound) /\
     DFT.embed Lf fs audio_path message output_path = (fs, Raised FileNotFound) /\
     DCT.extract Lc fs audio_path = Raised FileNotFound /\
     DWT.extract Lw fs audio_path = Raised FileNotFound /\
     DFT.extract Lf fs audio_path = Raised FileNotFound).
Proof.
  intros Lc Lw Lf fs a o m. split; [| split; [| split]].
  - intros e. apply FileFacts.embed_with_failure.
  - intros e. apply FileFacts.embed_with_failure.
  - intros e. apply FileFacts.embed_with_failure.
  - intros Hnone.
    unfold DCT.embed, DWT.embed, DFT.embed, DCT.extract, DWT.extract,
      DFT.extract, embed_with, extract_with, AudioReader.read_audio.
    rewrite Hnone. repeat split.
Qed.

(** What a successful [embed] of any of the three strategies has done: the
    input file held the original data that is returned; the output file
    holds the rate of the input and samples within [-1, 1]; every other
    file is as it was; the modified data has the other channels of the
    original, and its channel 0 is the channel the strategy made when that
    has the length of the original channel. *)
Theorem embed_success_frame :
  forall (embed_channel : list Q -> text -> outcome (list Q))
         (fs fs' : disk) (audio_path output_path : String.string)
         (message : text) (original modified : audio),
    embed_with embed_channel fs audio_path message output_path
      = (fs', Returned (original, modified)) ->
    exists (rate : N) (stored : audio) (out : list Q),
      fs audio_path = Some (Wav rate original) /\
      fs' output_path = Some (Wav rate stored) /\
      (forall q, q <> output_path -> fs' q = fs q) /\
      (forall v, In v (all_samples stored) -> (Qabs v <= 1)%Q) /\
      other_channels modified = other_channels original /\
      embed_channel (first_channel original) message = Returned out /\
      (length out = length (first_channel original) ->
       first_channel modified = out).
Proof.
  intros embed_channel fs fs' a o message original modified H.
  destruct (FileFacts.embed_with_success _ _ _ _ _ H)
    as [rate [out [m [Hfile [Hrun [Hput [Hpeak ->]]]]]]].
  destruct (FileFacts.with_first_channel_spec _ _ Hput) as [Hother Hfirst].
  exists rate, (if Qgtb m 1 then scale_audio m modified else modified), out.
  split; [exact Hfile |]. split; [| split; [| split; [| split; [| split]]]].
  - unfold write_disk. rewrite String.eqb_refl. reflexivity.
  - intros q Hq. unfold write_disk.
    destruct (String.eqb_spec q o); [contradiction | reflexivity].
  - intros v Hv. apply (RangeFacts.normalized_within (all_samples modified) Hpeak).
    destruct (Qgtb m 1); [rewrite <- RangeFacts.all_samples_scale |]; exact Hv.
  - exact Hother.
  - exact Hrun.
  - exact Hfirst.
Qed.

Lemma embed_success_frame_witness :
  embed_with (DCT.embed_channel Plain.dct_lib) (Plain.disk_with stereo_tone)
    "in.wav" [] "out.wav"
  = (fst stereo_embedded,
     Returned (stereo_tone,
               snd (returned_or (stereo_tone, stereo_tone) (snd stereo_embedded)))) /\
  other_channels
    (snd (returned_or (stereo_tone, stereo_tone) (snd stereo_embedded)))
  = other_channels stereo_tone.
Proof.
  assert (H : embed_with (DCT.embed_channel Plain.dct_lib)
                (Plain.disk_with stereo_tone) "in.wav" [] "out.wav"
              = (fst stereo_embedded,
                 Returned (stereo_tone,
                           snd (returned_or (stereo_tone, stereo_tone)
                                  (snd stereo_embedded)))))
    by (vm_compute; reflexivity).
  split; [exact H |].
  destruct (@embed_success_frame _ _ _ _ _ _ _ _ H)
    as [rate [stored [out [_ [_ [_ [_ [Hother _]]]]]]]].
  exact Hother.
Defined.

(** The round trip through files, for the DCT strategy: under the
    conditions of the round trip on a channel, [embed] writes its output
    file, and when the modified data lies in [-1, 1], so that [save_audio]
    stores it as it is, [extract] on the output file returns the message. *)
Theorem dct_round_trip_through_files :
  forall (L : dct_library) (fs : disk) (audio_path output_path : String.string)
         (sample_rate : N) (audio_data : audio) (message : text),
    fs audio_path = Some (Wav sample_rate audio_data) ->
    (forall x, length x = DCT.block_size -> length (dct L x) = DCT.block_size) ->
    (forall x, length x = DCT.block_size -> length (idct L x) = DCT.block_size) ->
    (forall c, length c = DCT.block_size ->
               nth_error (dct L (idct L c)) DCT.target_coef =
               nth_error c DCT.target_coef) ->
    one_byte_characters message = true ->
    marker_only_at_end (framed message) = true ->
    message <> [] ->
    length (framed message) <= length (first_channel audio_data) / DCT.block_size ->
    exists (fs' : disk) (modified : audio),
      DCT.embed L fs audio_path message output_path
        = (fs', Returned (audio_data, modified)) /\
      (within_unit modified = true ->
       DCT.extract L fs' output_path = Returned message).
Proof.
  intros L fs a o rate data message Hfile Hd Hi Hdi Hbytes Hfree Hne Hcap.
  destruct (DCTRoundTrip.dct_round_trip L Hd Hi Hdi (first_channel data) message
              Hbytes Hfree Hcap) as [out [Hrun [Hlen Hext]]].
  assert (Hout : out <> []).
  { intros ->. cbn [length] in Hlen. rewrite <- Hlen in Hcap.
    change (0 / DCT.block_size) with 0 in Hcap.
    pose proof (CapacityFacts.framed_enough message). lia. }
  destruct (WrapperFacts.with_first_channel_returns data Hlen Hout)
    as [modified [Hput Hsamples]].
  destruct (FileFacts.with_first_channel_spec _ _ Hput) as [_ Hfirst].
  destruct (PeakFacts.peak_spec Hsamples) as [m [Hpeak _]].
  exists (write_disk fs o
            (Wav rate (if Qgtb m 1 then scale_audio m modified else modified))),
         modified.
  split.
  - unfold DCT.embed, embed_with, AudioReader.read_audio, AudioReader.save_audio.
    rewrite Hfile, Hrun, Hput, Hpeak. reflexivity.
  - intros Hunit.
    assert (Hm : Qgtb m 1 = false).
    { unfold Qgtb. apply negb_false_iff, Qle_bool_iff.
      apply (@RangeFacts.peak_le 1%Q _ m Hpeak). intros v Hv.
      unfold within_unit in Hunit. rewrite forallb_forall in Hunit.
      apply Qle_bool_iff, Hunit, Hv. }
    rewrite Hm.
    unfold DCT.extract, extract_with, AudioReader.read_audio, write_disk.
    rewrite String.eqb_refl. cbn [bind snd].
    rewrite (Hfirst Hlen). destruct message; [contradiction | exact Hext].
Qed.

Lemma dct_round_trip_through_files_witness :
  (exists (fs' : disk) (modified : audio),
     DCT.embed Plain.dct_lib (Plain.disk_with (Mono (Plain.tone (24 * 1024))))
       "in.wav" [72%N] "out.wav"
       = (fs', Returned (Mono (Plain.tone (24 * 1024)), modified)) /\
     (within_unit modified = true ->
      DCT.extract Plain.dct_lib fs' "out.wav" = Returned [72%N])) /\
  within_unit (snd (returned_or (Mono [], Mono []) (snd mono_embedded))) = true.
Proof.
  split.
  - apply (@dct_round_trip_through_files Plain.dct_lib
             (Plain.disk_with (Mono (Plain.tone (24 * 1024))))
             "in.wav" "out.wav" 44100%N (Mono (Plain.tone (24 * 1024))) [72%N]
             eq_refl (fun x H => H) (fun x H => H) (fun c _ => eq_refl)).
    + reflexivity.
    + vm_compute. reflexivity.
    + discriminate.
    + apply Nat.leb_le. vm_compute. reflexivity.
  - vm_compute. reflexivity.
Defined.

(** ** More on the three strategies *)

(** What the DCT [embed] writes: with library functions that keep the
    length of a block, and a message within capacity, block [i] of the
    returned channel is [idct] of the cosine coefficients of block [i] of
    the input with coefficient 5 replaced by 0.1 for bit 1 and -0.1 for
    bit 0 of the framed message. *)
Theorem dct_embedded_blocks :
  forall (L : dct_library) (channel_1 : list Q) (message : text),
    (forall x, length x = DCT.block_size -> length (dct L x) = DCT.block_size) ->
    (forall x, length x = DCT.block_size -> length (idct L x) = DCT.block_size) ->
    length (framed message) <= length channel_1 / DCT.block_size ->
    exists out,
      DCT.embed_channel L channel_1 message = Returned out /\
      forall i, i < length (framed message) ->
        slice (i * DCT.block_size) (i * DCT.block_size + DCT.block_size) out
        = idct L (dct_written L channel_1 i (nth i (framed message) false)).
Proof.
  intros L ch message Hd Hi Hcap.
  destruct (DCTFacts.dct_embed_loop_spec L Hd Hi ch (framed message) 0 ch
              eq_refl Hcap) as [out [Hrun [Hlen [_ Hin]]]].
  exists out. split.
  - unfold DCT.embed_channel. fold (framed message).
    destruct (Nat.ltb_spec (length ch / DCT.block_size) (length (framed message)));
      [lia | exact Hrun].
  - intros i Hlt. apply ArrayFacts.slice_is.
    + apply Hi, (DCTFacts.length_dct_written L Hd).
      unfold DCT.block_size in *.
      pose proof (Nat.div_mod_eq (length ch) 1024). nia.
    + intros j Hj. apply (Hin i j Hlt Hj).
Qed.

Lemma dct_embedded_blocks_witness :
  length (framed []) <= length Plain.short_tone / DCT.block_size /\
  exists out,
    DCT.embed_channel Plain.dct_lib Plain.short_tone [] = Returned out /\
    forall i, i < length (framed []) ->
      slice (i * DCT.block_size) (i * DCT.block_size + DCT.block_size) out
      = idct Plain.dct_lib
          (dct_written Plain.dct_lib Plain.short_tone i (nth i (framed []) false)).
Proof.
  assert (H : length (framed []) <= length Plain.short_tone / DCT.block_size)
    by (apply Nat.leb_le; vm_compute; reflexivity).
  split; [exact H |].
  exact (@dct_embedded_blocks Plain.dct_lib Plain.short_tone []
           (fun x E => E) (fun x E => E) H).
Defined.

Module ShortFacts.

Lemma dft_too_large_nonempty (L : fft_library) (ch : list Q) (message : text) :
  ch <> [] ->
  (DFT.max_bits (length ch) < Z.of_nat (length (framed message)))%Z ->
  DFT.embed_channel L ch message = Raised (TooLarge (DFT.max_bits (length ch))).
Proof.
  intros Hne H. unfold DFT.embed_channel, DFT.normalize.
  destruct ch as [| a r]; [contradiction |].
  cbn [peak bind]. fold (framed message).
  destruct (Qeq_bool _ 0); cbn [bind];
    (destruct (Z.ltb_spec (DFT.max_bits (length (a :: r)))
                 (Z.of_nat (length (framed message)))); [reflexivity | lia]).
Qed.

End ShortFacts.

(** The marker alone takes 16 slots: a channel with fewer than 16 slots
    takes no message at all, not even the empty one.  That is fewer than
    16 blocks of 1024 samples for the DCT, a subband of fewer than 1600
    coefficients for the DWT, fewer than 4064 samples for the DFT. *)
Theorem nothing_fits_a_short_channel :
  forall (Lc : dct_library) (Lw : dwt_library) (Lf : fft_library)
         (channel_1 : list Q) (message : text),
    (length channel_1 < 16 * 1024 ->
     DCT.embed_channel Lc channel_1 message =
     Raised (TooLarge (Z.of_nat (length channel_1 / DCT.block_size)))) /\
    (forall target,
       nth_error (wavedec Lw channel_1 DWT.wavelet DWT.level) DWT.subband_idx
         = Some target ->
       length target < 1600 ->
       DWT.embed_channel Lw channel_1 message =
       Raised (TooLarge (Z.of_nat (length target / DWT.step)))) /\
    (channel_1 <> [] -> length channel_1 < 4064 ->
     DFT.embed_channel Lf channel_1 message =
     Raised (TooLarge (DFT.max_bits (length channel_1)))).
Proof.
  intros Lc Lw Lf ch message.
  pose proof (CapacityFacts.framed_enough message) as H16.
  split; [| split].
  - intros Hshort. apply CapacityFacts.dct_too_large.
    unfold DCT.block_size.
    pose proof (Nat.div_mod_eq (length ch) 1024). lia.
  - intros target Hsub Hshort.
    eapply CapacityFacts.dwt_too_large; [exact Hsub |].
    unfold DWT.step. pose proof (Nat.div_mod_eq (length target) 100). lia.
  - intros Hne Hshort. apply ShortFacts.dft_too_large_nonempty; [exact Hne |].
    unfold DFT.max_bits, DFT.start_idx, DFT.step.
    pose proof (Nat.div_mod_eq (length ch) 2).
    assert (Hhalf : (Z.of_nat (length ch / 2) <= 2031)%Z) by lia.
    change (Z.of_nat 2) with 2%Z. change (Z.of_nat 2000) with 2000%Z.
    assert ((Z.of_nat (length ch / 2) - 2000) / 2 < 16)%Z.
    { apply Z.div_lt_upper_bound; lia. }
    lia.
Qed.

Module TotalFacts.

Lemma debug_loop_fault (read : nat -> reading) :
  forall idxs : list nat,
    (forall i, In i idxs ->
               read i = Fault IndexError \/ exists b, read i = Bit b) ->
    (exists i, In i idxs /\ read i = Fault IndexError) ->
    debug_loop read idxs = Raised IndexError.
Proof.
  induction idxs as [| i idxs IH]; intros Hall [j [Hj Hfault]];
    [destruct Hj |].
  cbn [debug_loop].
  destruct (Hall i (or_introl eq_refl)) as [Hi | [b Hi]]; rewrite Hi;
    [reflexivity |].
  apply IH.
  - intros k Hk. apply Hall. right. exact Hk.
  - destruct Hj as [<- | Hj]; [congruence |]. exists j. split; assumption.
Qed.

Lemma debug_loop_ok (read : nat -> reading) :
  forall idxs : list nat,
    (forall i, In i idxs -> forall e, read i <> Fault e) ->
    debug_loop read idxs = Returned tt.
Proof.
  induction idxs as [| i idxs IH]; intros Hall; [reflexivity |].
  cbn [debug_loop].
  assert (Hrest : debug_loop read idxs = Returned tt)
    by (apply IH; intros k Hk; apply Hall; right; exact Hk).
  destruct (read i) as [| b | e] eqn:Hi; [exact Hrest | exact Hrest |].
  exfalso. apply (Hall i (or_introl eq_refl) e). exact Hi.
Qed.

(** A loop none of whose readings is an exception returns, and what it
    returns is no longer than what it had plus the slots it scanned. *)
Lemma extract_loop_total (read : nat -> reading) :
  forall (idxs : list nat) (acc : bits),
    (forall i, In i idxs -> forall e, read i <> Fault e) ->
    exists r,
      extract_loop read idxs acc = Returned r /\
      length r <= length acc + length idxs.
Proof.
  induction idxs as [| i idxs IH]; intros acc Hall.
  - exists acc. split; [reflexivity | cbn [length]; lia].
  - cbn [extract_loop length].
    destruct (read i) as [| b | e] eqn:Hi.
    + exists acc. split; [reflexivity | lia].
    + destruct (endswith (acc ++ [b]) END_MARKER).
      * eexists. split; [reflexivity |].
        unfold drop_last. rewrite length_firstn, length_app. cbn [length]. lia.
      * destruct (IH (acc ++ [b])) as [r [Hr Hlen]].
        { intros k Hk. apply Hall. right. exact Hk. }
        exists r. split; [exact Hr |].
        rewrite length_app in Hlen. cbn [length] in Hlen. lia.
    + exfalso. apply (Hall i (or_introl eq_refl) e). exact Hi.
Qed.

Lemma decoded_length (r : bits) (n : nat) :
  length r <= n -> 8 * length (MessageProcessor.binary_to_text r) <= n.
Proof.
  intros H. rewrite CodecFacts.binary_to_text_groups, length_map, length_seq.
  pose proof (Nat.div_mod_eq (length r) 8). lia.
Qed.

End TotalFacts.

(** The DFT [extract] first prints ten bins without testing their index:
    on a channel that is not empty (an empty one is refused by [fft]
    itself) it raises [IndexError] when the spectrum has fewer than 2019
    bins, and in every other case it returns a string, of one-byte
    characters, at most one for 8 slots of capacity. *)
Theorem dft_extract_needs_2019_bins :
  forall (L : fft_library) (channel_1 : list Q),
    channel_1 <> [] ->
    (length (fft L channel_1) <= 2018 ->
     DFT.extract_channel L channel_1 = Raised IndexError) /\
    (2018 < length (fft L channel_1) ->
     exists t,
       DFT.extract_channel L channel_1 = Returned t /\
       Forall (fun c => (c < 256)%N) t /\
       8 * length t <= Z.to_nat (DFT.max_bits (length channel_1))).
Proof.
  intros L ch _. unfold DFT.extract_channel. split.
  - intros Hshort. rewrite TotalFacts.debug_loop_fault; [reflexivity | |].
    + intros i _. unfold DFT.read_debug.
      destruct (nth_error (fft L ch) (DFT.start_idx + i * DFT.step));
        [right; eauto | left; reflexivity].
    + exists 9. split; [apply in_seq; lia |].
      unfold DFT.read_debug.
      destruct (nth_error (fft L ch) (DFT.start_idx + 9 * DFT.step)) eqn:E;
        [| reflexivity].
      exfalso. assert (Hsome : nth_error (fft L ch)
                                 (DFT.start_idx + 9 * DFT.step) <> None)
        by (rewrite E; discriminate).
      apply nth_error_Some in Hsome.
      unfold DFT.start_idx, DFT.step in Hsome. lia.
  - intros Hlong. rewrite TotalFacts.debug_loop_ok.
    + cbn [bind].
      destruct (@TotalFacts.extract_loop_total (DFT.read L (fft L ch))
                  (seq 0 (Z.to_nat (DFT.max_bits (length ch)))) [])
        as [r [Hr Hlen]].
      * intros i _ e. unfold DFT.read.
        destruct (Nat.leb_spec (length (fft L ch) / 2)
                    (DFT.start_idx + i * DFT.step)) as [_ | Hlt];
          [discriminate |].
        destruct (nth_error (fft L ch) (DFT.start_idx + i * DFT.step)) eqn:E;
          [discriminate |].
        apply nth_error_None in E.
        pose proof (Nat.div_mod_eq (length (fft L ch)) 2). lia.
      * rewrite Hr. cbn [bind]. eexists. split; [reflexivity |]. split.
        -- apply CodecFacts.binary_to_text_bytes.
        -- apply TotalFacts.decoded_length.
           rewrite length_seq in Hlen. exact Hlen.
    + intros i Hi e. apply in_seq in Hi. unfold DFT.read_debug.
      destruct (nth_error (fft L ch) (DFT.start_idx + i * DFT.step)) eqn:E;
        [discriminate |].
      apply nth_error_None in E. unfold DFT.start_idx, DFT.step in E. lia.
Qed.

(** The DCT and DWT [extract] always answer: with a cosine transform that
    keeps the length of a block, and a decomposition with a subband of
    index 2, they return the failure string or a string of one-byte
    characters, at most one for 8 slots of capacity. *)
Theorem dct_and_dwt_extract_always_answer :
  forall (Lc : dct_library) (Lw : dwt_library) (channel_1 : list Q),
    ((forall x, length x = DCT.block_size ->
                length (dct Lc x) = DCT.block_size) ->
     exists t,
       DCT.extract_channel Lc channel_1 = Returned t /\
       (t = EXTRACTION_FAILED \/
        Forall (fun c => (c < 256)%N) t /\
        8 * length t <= length channel_1 / DCT.block_size)) /\
    (forall target,
       nth_error (wavedec Lw channel_1 DWT.wavelet DWT.level) DWT.subband_idx
         = Some target ->
       exists t,
         DWT.extract_channel Lw channel_1 = Returned t /\
         (t = EXTRACTION_FAILED \/
          Forall (fun c => (c < 256)%N) t /\
          8 * length t <= length target / DWT.step)).
Proof.
  intros Lc Lw ch. split.
  - intros Hd. unfold DCT.extract_channel.
    assert (Hread : forall i, i < length ch / DCT.block_size ->
                      forall e, DCT.read Lc ch i <> Fault e).
    { intros i Hi e. unfold DCT.read.
      destruct (nth_error _ DCT.target_coef) eqn:E; [discriminate |].
      apply nth_error_None in E. rewrite Hd in E.
      - unfold DCT.block_size, DCT.target_coef in E. lia.
      - apply ArrayFacts.length_slice. unfold DCT.block_size in *.
        pose proof (Nat.div_mod_eq (length ch) 1024). nia. }
    rewrite TotalFacts.debug_loop_ok
      by (intros i Hi; apply in_seq in Hi; apply Hread; lia).
    cbn [bind].
    destruct (@TotalFacts.extract_loop_total (DCT.read Lc ch)
                (seq 0 (length ch / DCT.block_size)) []) as [r [Hr Hlen]].
    { intros i Hi. apply in_seq in Hi. apply Hread. lia. }
    rewrite Hr. cbn [bind]. rewrite length_seq in Hlen.
    destruct (0 <? length r); eexists; (split; [reflexivity |]).
    + right. split; [apply CodecFacts.binary_to_text_bytes |].
      apply TotalFacts.decoded_length. exact Hlen.
    + left. reflexivity.
  - intros target Hsub. unfold DWT.extract_channel.
    rewrite (ArrayFacts.get_item_ok _ _ Hsub). cbn [bind].
    destruct (@TotalFacts.extract_loop_total (DWT.read target)
                (seq 0 (length target / DWT.step)) []) as [r [Hr Hlen]].
    { intros i Hi e. apply in_seq in Hi. unfold DWT.read.
      destruct (nth_error target (i * DWT.step)) eqn:E; [discriminate |].
      apply nth_error_None in E. unfold DWT.step in *.
      pose proof (Nat.div_mod_eq (length target) 100). nia. }
    rewrite Hr. cbn [bind]. rewrite length_seq in Hlen.
    destruct (0 <? length r); eexists; (split; [reflexivity |]).
    + right. split; [apply CodecFacts.binary_to_text_bytes |].
      apply TotalFacts.decoded_length. exact Hlen.
    + left. reflexivity.
Qed.

Lemma dft_extract_needs_2019_bins_witness :
  Plain.silence 2018 <> [] /\
  (length (fft Plain.fft_lib (Plain.silence 2018)) <= 2018 ->
   DFT.extract_channel Plain.fft_lib (Plain.silence 2018) = Raised IndexError) /\
  (2018 < length (fft Plain.fft_lib (Plain.silence 2018)) ->
   exists t,
     DFT.extract_channel Plain.fft_lib (Plain.silence 2018) = Returned t /\
     Forall (fun c => (c < 256)%N) t /\
     8 * length t <= Z.to_nat (DFT.max_bits (length (Plain.silence 2018)))).
Proof.
  assert (H : Plain.silence 2018 <> []) by discriminate.
  split; [exact H |].
  exact (@dft_extract_needs_2019_bins Plain.fft_lib (Plain.silence 2018) H).
Defined.

Lemma dct_and_dwt_extract_always_answer_witness :
  (exists t,
     DCT.extract_channel Plain.dct_lib (Plain.tone 2048) = Returned t /\
     (t = EXTRACTION_FAILED \/
      Forall (fun c => (c < 256)%N) t /\
      8 * length t <= length (Plain.tone 2048) / DCT.block_size)) /\
  (exists t,
     DWT.extract_channel Plain.dwt_lib (Plain.tone 2048) = Returned t /\
     (t = EXTRACTION_FAILED \/
      Forall (fun c => (c < 256)%N) t /\
      8 * length t <= length (Plain.tone 2048) / DWT.step)).
Proof.
  split.
  - apply (proj1 (@dct_and_dwt_extract_always_answer Plain.dct_lib
                    Plain.dwt_lib (Plain.tone 2048))).
    intros x Hx. exact Hx.
  - apply (proj2 (@dct_and_dwt_extract_always_answer Plain.dct_lib
                    Plain.dwt_lib (Plain.tone 2048)) (Plain.tone 2048)).
    reflexivity.
Defined.

Module SlotFacts.
Import ArrayFacts.

(** The embedding loop over the slots [k], ..., [k + len(bits) - 1]:
    coefficient by coefficient, what it leaves in the subband. *)
Lemma dwt_embed_loop_exact :
  forall (bs : bits) (k : nat) (target : list Q),
    k + length bs <= length target / DWT.step ->
    exists out,
      DWT.embed_loop (combine (seq k (length bs)) bs) target = Returned out /\
      forall j,
        nth_error out j =
        option_map
          (fun v =>
             if (j mod DWT.step =? 0) && (k <=? j / DWT.step)
                && (j / DWT.step <? k + length bs)
             then (floor v + (if nth (j / DWT.step - k) bs false
                              then DWT.bit1_frac else DWT.bit0_frac))%Q
             else v)
          (nth_error target j).
Proof.
  induction bs as [| b bs IH]; intros k target Hk.
  - exists target. cbn [length seq combine DWT.embed_loop].
    split; [reflexivity |]. intros j.
    assert (E : (j mod DWT.step =? 0) && (k <=? j / DWT.step)
                && (j / DWT.step <? k + 0) = false).
    { destruct (Nat.leb_spec k (j / DWT.step));
        destruct (Nat.ltb_spec (j / DWT.step) (k + 0)); try lia;
        destruct (j mod DWT.step =? 0); reflexivity. }
    rewrite E. destruct (nth_error target j); reflexivity.
  - cbn [length] in Hk. cbn [length seq combine DWT.embed_loop].
    assert (Hidx : k * DWT.step < length target).
    { unfold DWT.step in *.
      pose proof (Nat.div_mod_eq (length target) 100). nia. }
    destruct (Nat.leb_spec (length target) (k * DWT.step)) as [Hge | _]; [lia |].
    destruct (nth_error target (k * DWT.step)) as [v |] eqn:Ev;
      [| apply nth_error_None in Ev; lia].
    rewrite (get_item_ok _ _ Ev). cbn [bind].
    rewrite set_item_ok by exact Hidx. cbn [bind].
    set (target' := firstn (k * DWT.step) target ++ _ :: skipn _ target).
    assert (Hlen' : length target' = length target)
      by (apply length_set, Hidx).
    destruct (IH (S k) target') as [out [Hrun Hout]];
      [rewrite Hlen'; lia |].
    exists out. split; [exact Hrun |]. intros j. rewrite Hout.
    unfold target'. rewrite nth_error_set by exact Hidx.
    destruct (Nat.eqb_spec j (k * DWT.step)) as [-> | Hne].
    + rewrite Ev. unfold DWT.step.
      rewrite Nat.Div0.mod_mul, Nat.div_mul by lia.
      cbn [option_map]. rewrite Nat.eqb_refl, Nat.leb_refl, Nat.sub_diag.
      replace (S k <=? k) with false by (symmetry; apply Nat.leb_gt; lia).
      replace (k <? k + S (length bs)) with true
        by (symmetry; apply Nat.ltb_lt; lia).
      reflexivity.
    + destruct (nth_error target j) as [w |]; [| reflexivity].
      cbn [option_map]. f_equal.
      destruct (Nat.eqb_spec (j mod DWT.step) 0) as [Hmod | _];
        [| reflexivity].
      cbn [andb].
      assert (Hk' : j / DWT.step <> k).
      { intros E. apply Hne. unfold DWT.step in *.
        pose proof (Nat.div_mod_eq j 100). lia. }
      destruct (Nat.leb_spec (S k) (j / DWT.step)) as [Hle | Hgt].
      * replace (k <=? j / DWT.step) with true
          by (symmetry; apply Nat.leb_le; lia).
        replace (S k + length bs) with (k + S (length bs)) by lia.
        replace (j / DWT.step - k) with (S (j / DWT.step - S k)) by lia.
        reflexivity.
      * replace (k <=? j / DWT.step) with false
          by (symmetry; apply Nat.leb_gt; lia).
        reflexivity.
Qed.

Lemma floor_of_written (bs : bits) (j : nat) (v : Q) :
  Qfloor (dwt_written bs j v) = Qfloor v.
Proof.
  unfold dwt_written.
  destruct ((j mod DWT.step =? 0) && (j / DWT.step <? length bs));
    [| reflexivity].
  unfold floor. apply DWTFacts.Qfloor_plus_fraction;
    destruct (nth (j / DWT.step) bs false); unfold Qle, Qlt; simpl; lia.
Qed.

End SlotFacts.

(** The DWT [embed] rewrites subband 2 only at the slots 0, 100, 200, ...
    of the bits it writes: every other coefficient of the subband reaches
    [waverec] unchanged, and a rewritten one keeps its integer part.  The
    other subbands are passed on as they were. *)
Theorem dwt_embed_keeps_the_integer_parts :
  forall (L : dwt_library) (channel_1 : list Q) (message : text)
         (target : list Q),
    let coeffs := wavedec L channel_1 DWT.wavelet DWT.level in
    nth_error coeffs DWT.subband_idx = Some target ->
    length (framed message) <= length target / DWT.step ->
    exists target',
      DWT.embed_channel L channel_1 message =
      Returned
        (firstn (length channel_1)
           (waverec L
              (firstn DWT.subband_idx coeffs ++ target'
               :: skipn (S DWT.subband_idx) coeffs) DWT.wavelet)) /\
      (forall j,
         nth_error target' j =
         option_map (dwt_written (framed message) j) (nth_error target j)) /\
      (forall j v v',
         nth_error target j = Some v -> nth_error target' j = Some v' ->
         Qfloor v' = Qfloor v).
Proof.
  intros L ch message target coeffs Hsub Hcap.
  destruct (SlotFacts.dwt_embed_loop_exact (framed message) 0 target Hcap)
    as [target' [Hrun Hout]].
  assert (Hexact : forall j,
             nth_error target' j =
             option_map (dwt_written (framed message) j) (nth_error target j)).
  { intros j. rewrite Hout. destruct (nth_error target j); [| reflexivity].
    cbn [option_map]. unfold dwt_written.
    cbn [Nat.leb Nat.add]. rewrite andb_true_r, Nat.sub_0_r. reflexivity. }
  exists target'. split; [| split].
  - unfold DWT.embed_channel. fold (framed message). fold coeffs.
    rewrite (ArrayFacts.get_item_ok _ _ Hsub). cbn [bind].
    destruct (Nat.ltb_spec (length target / DWT.step) (length (framed message)))
      as [Hlt | _]; [lia |].
    rewrite Hrun. cbn [bind].
    assert (Hin : DWT.subband_idx < length coeffs).
    { apply nth_error_Some. rewrite Hsub. discriminate. }
    rewrite ArrayFacts.set_item_ok by exact Hin. reflexivity.
  - exact Hexact.
  - intros j v v' Hv Hv'. rewrite Hexact, Hv in Hv'. cbn [option_map] in Hv'.
    injection Hv' as <-. apply SlotFacts.floor_of_written.
Qed.

Lemma dwt_embed_keeps_the_integer_parts_witness :
  exists target',
    DWT.embed_channel Plain.dwt_lib (Plain.tone (24 * 1024)) [72%N] =
    Returned
      (firstn (length (Plain.tone (24 * 1024)))
         (waverec Plain.dwt_lib
            (firstn DWT.subband_idx
               (wavedec Plain.dwt_lib (Plain.tone (24 * 1024))
                  DWT.wavelet DWT.level)
             ++ target'
             :: skipn (S DWT.subband_idx)
                  (wavedec Plain.dwt_lib (Plain.tone (24 * 1024))
                     DWT.wavelet DWT.level)) DWT.wavelet)) /\
    (forall j,
       nth_error target' j =
       option_map (dwt_written (framed [72%N]) j)
         (nth_error (Plain.tone (24 * 1024)) j)) /\
    (forall j v v',
       nth_error (Plain.tone (24 * 1024)) j = Some v ->
       nth_error target' j = Some v' ->
       Qfloor v' = Qfloor v).
Proof.
  apply (@dwt_embed_keeps_the_integer_parts Plain.dwt_lib
           (Plain.tone (24 * 1024)) [72%N] (Plain.tone (24 * 1024))).
  - reflexivity.
  - apply Nat.leb_le. vm_compute. reflexivity.
Defined.

(** ** The attacks of the robustness analysis *)

Module AttackFacts.

Lemma to_int16_small (x : Q) :
  (Qabs x < 1)%Q -> to_int16 x = Some 0%Z.
Proof.
  intros H. unfold to_int16.
  assert (E : (Qnum x ÷ Zpos (Qden x) = 0)%Z).
  { apply Z.quot_small_iff; [discriminate |].
    destruct x as [n d]. unfold Qabs, Qlt in H. cbn [Qnum Qden] in *. lia. }
  rewrite E. reflexivity.
Qed.

Lemma array_to_int16_small (x : list Q) :
  (forall v, In v x -> (Qabs v < 1)%Q) ->
  array_to_int16 x = Some (repeat 0%Z (length x)).
Proof.
  induction x as [| v r IH]; intros H; [reflexivity |].
  cbn [array_to_int16 length repeat].
  rewrite (@to_int16_small v (H v (or_introl eq_refl))).
  rewrite IH by (intros w Hw; apply H; right; exact Hw).
  reflexivity.
Qed.

Lemma map_zero (f : Z -> Z) (n : nat) :
  f 0%Z = 0%Z -> map f (repeat 0%Z n) = repeat 0%Z n.
Proof.
  intros H. induction n as [| n IH]; [reflexivity |].
  cbn [repeat map]. rewrite H, IH. reflexivity.
Qed.

End AttackFacts.

Module RoundingFacts.

Lemma fl32_within (F : float_library) (b x : Q) :
  (forall x y, (x <= y)%Q -> (fl32 F x <= fl32 F y)%Q) ->
  (fl32 F b == b)%Q -> (fl32 F (- b) == - b)%Q ->
  (Qabs x <= b)%Q -> (Qabs (fl32 F x) <= b)%Q.
Proof.
  intros Hmono Hb Hnb Hx. apply Qabs_Qle_condition in Hx as [Hlo Hhi].
  apply Qabs_Qle_condition. split.
  - rewrite <- Hnb. apply Hmono, Hlo.
  - rewrite <- Hb. apply Hmono, Hhi.
Qed.

Lemma grid_monotone (x y : Q) :
  (x <= y)%Q -> (fl32 grid x <= fl32 grid y)%Q.
Proof.
  intros H. unfold grid, fl32, Qle. cbn [Qnum Qden].
  apply Z.mul_le_mono_nonneg_r; [discriminate |].
  apply Qfloor_resp_le. apply Qplus_le_l.
  apply Qmult_le_compat_r; [exact H | discriminate].
Qed.

End RoundingFacts.

(** On float32 samples in [-1, 1], which is what [read_audio] gives for a
    16-bit file, [recompress] with a quality from 2 to 32767 and
    [scale_amplitude] with a factor of at most [1 - 2^-24], the largest
    float32 below 1, in absolute value return an array of zeros: every
    quotient is at most 1/2 and every product at most [1 - 2^-24] in
    absolute value, also after the rounding to float32, and the cast to
    [int16] cuts it down to 0.  The rounding is any monotone function that
    leaves the float32 numbers 1/2 and [1 - 2^-24] and their opposites as
    they are. *)
Theorem attacks_silence_normalized_audio :
  forall (F : float_library) (audio_data : list Q) (quality : Z)
         (scale_factor : Q),
    (forall x y, (x <= y)%Q -> (fl32 F x <= fl32 F y)%Q) ->
    (forall k, In k [1 # 2; - (1 # 2); below_one; - below_one]%Q ->
               (fl32 F k == k)%Q) ->
    (forall v, In v audio_data -> (Qabs v <= 1)%Q) ->
    (2 <= quality <= 32767)%Z ->
    (Qabs scale_factor <= below_one)%Q ->
    RobustnessAnalyzer.recompress F audio_data quality
      = Samples (repeat 0%Z (length audio_data)) /\
    RobustnessAnalyzer.scale_amplitude F audio_data scale_factor
      = Samples (repeat 0%Z (length audio_data)).
Proof.
  intros F a q s Hmono Hfix Hunit Hq Hs.
  assert (Hhalf : forall x, (Qabs x <= 1 # 2)%Q -> (Qabs (fl32 F x) <= 1 # 2)%Q).
  { intros x. apply RoundingFacts.fl32_within; [exact Hmono | |];
      apply Hfix; cbn [In]; auto. }
  assert (Hone : forall x, (Qabs x <= below_one)%Q ->
                           (Qabs (fl32 F x) <= below_one)%Q).
  { intros x. apply RoundingFacts.fl32_within; [exact Hmono | |];
      apply Hfix; cbn [In]; auto 6. }
  split.
  - unfold RobustnessAnalyzer.recompress.
    replace ((-32768 <=? q) && (q <=? 32767))%Z with true
      by (symmetry; apply andb_true_intro; split; apply Z.leb_le; lia).
    replace (q =? 0)%Z with false by (symmetry; apply Z.eqb_neq; lia).
    cbn [negb].
    rewrite AttackFacts.array_to_int16_small.
    + rewrite length_map.
      rewrite AttackFacts.map_zero by reflexivity. reflexivity.
    + intros w Hw. apply in_map_iff in Hw as [v [<- Hv]].
      apply Qle_lt_trans with (1 # 2)%Q; [| reflexivity].
      apply Hhalf.
      assert (Hq0 : (0 < inject_Z q)%Q)
        by (rewrite <- (Zlt_Qlt 0); lia).
      assert (Hq2 : (2 <= inject_Z q)%Q)
        by (rewrite <- (Zle_Qle 2); lia).
      pose proof (Hunit v Hv) as Hv1.
      apply Qabs_Qle_condition in Hv1 as [Hlo Hhi].
      apply Qabs_Qle_condition. split.
      * apply Qle_shift_div_l; [exact Hq0 |].
        apply Qle_trans with (- (1))%Q; [| exact Hlo].
        setoid_replace (- (1))%Q with (- (1 # 2) * 2)%Q by reflexivity.
        setoid_replace (- (1 # 2) * inject_Z q)%Q
          with (- ((1 # 2) * inject_Z q))%Q by ring.
        setoid_replace (- (1 # 2) * 2)%Q with (- ((1 # 2) * 2))%Q by ring.
        apply Qopp_le_compat. apply Qmult_le_l; [reflexivity | exact Hq2].
      * apply Qle_shift_div_r; [exact Hq0 |].
        apply Qle_trans with 1%Q; [exact Hhi |].
        setoid_replace 1%Q with ((1 # 2) * 2)%Q by reflexivity.
        apply Qmult_le_l; [reflexivity | exact Hq2].
  - unfold RobustnessAnalyzer.scale_amplitude.
    rewrite AttackFacts.array_to_int16_small.
    + rewrite length_map. reflexivity.
    + intros w Hw. apply in_map_iff in Hw as [v [<- Hv]].
      apply Qle_lt_trans with below_one; [| reflexivity].
      apply Hone. rewrite Qabs_Qmult.
      apply Qle_trans with (1 * Qabs (fl32 F s))%Q.
      * apply Qmult_le_compat_r; [apply Hunit, Hv | apply Qabs_nonneg].
      * setoid_replace (1 * Qabs (fl32 F s))%Q with (Qabs (fl32 F s)) by ring.
        apply Hone, Hs.
Qed.

(** The default quality and factor on a tone, with the rounding to the
    grid; and, beside the hypotheses, a factor that the rounding takes to
    1 leaves samples of 1 and -1 as they are. *)
Lemma attacks_silence_normalized_audio_witness :
  (RobustnessAnalyzer.recompress grid (Plain.tone 2048)
     RobustnessAnalyzer.default_quality
     = Samples (repeat 0%Z (length (Plain.tone 2048))) /\
   RobustnessAnalyzer.scale_amplitude grid (Plain.tone 2048)
     RobustnessAnalyzer.default_scale_factor
     = Samples (repeat 0%Z (length (Plain.tone 2048)))) /\
  RobustnessAnalyzer.scale_amplitude grid [1; - (1)]%Q (99999999 # 100000000)
  = Samples [1; -1]%Z /\
  RobustnessAnalyzer.recompress grid [1; - (1)]%Q 40000 = OverflowError.
Proof.
  split; [| split; reflexivity].
  apply (@attacks_silence_normalized_audio grid (Plain.tone 2048)
           RobustnessAnalyzer.default_quality
           RobustnessAnalyzer.default_scale_factor).
  - exact RoundingFacts.grid_monotone.
  - intros k Hk. cbn [In] in Hk.
    destruct Hk as [<- | [<- | [<- | [<- | []]]]]; reflexivity.
  - intros v Hv. apply repeat_spec in Hv. rewrite Hv. discriminate.
  - split; discriminate.
  - discriminate.
Defined.

(** * The threshold of the DFT strategy *)

(** C7: what the DFT [extract] returns is fixed by comparing magnitudes
    with [threshold], strictly.  On a channel of more than 2018 samples,
    with an [fft] that keeps the length, let bit [i] be 1 exactly when the
    magnitude of bin [2000 + 2 i] is above [threshold], for every slot [i]
    of the capacity; a magnitude equal to [threshold] gives bit 0.  Then
    [extract] returns the decoding of these bits up to the first marker. *)
Theorem dft_threshold_boundary :
  forall (L : fft_library) (channel_1 : list Q),
    length (fft L channel_1) = length channel_1 ->
    2018 < length channel_1 ->
    exists bs : bits,
      length bs = Z.to_nat (DFT.max_bits (length channel_1)) /\
      (forall i, i < length bs ->
         exists c,
           nth_error (fft L channel_1) (DFT.start_idx + i * DFT.step) = Some c /\
           (nth i bs false = true <-> (DFT.threshold < cabs L c)%Q) /\
           ((cabs L c == DFT.threshold)%Q -> nth i bs false = false)) /\
      DFT.extract_channel L channel_1 =
      Returned (MessageProcessor.binary_to_text (cut_at_marker bs)).
Proof.
  intros L ch Hfft Hlong.
  set (F := fft L ch) in *.
  set (n := Z.to_nat (DFT.max_bits (length ch))).
  set (g := fun i =>
              match nth_error F (DFT.start_idx + i * DFT.step) with
              | Some c => DFT.classify (cabs L c)
              | None => false
              end).
  assert (Hslot : forall i, i < n ->
            DFT.start_idx + i * DFT.step < length F / 2).
  { intros i Hi. rewrite Hfft. unfold n, DFT.max_bits in Hi.
    unfold DFT.start_idx, DFT.step in *.
    change (Z.of_nat 2) with 2%Z in Hi.
    pose proof (Z.mul_div_le (Z.of_nat (length ch / 2) - Z.of_nat 2000) 2
                  eq_refl) as Hq.
    lia. }
  assert (Hbin : forall i, i < n ->
            exists c, nth_error F (DFT.start_idx + i * DFT.step) = Some c).
  { intros i Hi.
    destruct (nth_error F (DFT.start_idx + i * DFT.step)) as [c |] eqn:E;
      [eauto |].
    apply nth_error_None in E. specialize (Hslot i Hi).
    pose proof (Nat.div_mod_eq (length F) 2). lia. }
  assert (Hlen : length (map g (seq 0 n)) = n)
    by (rewrite length_map, length_seq; reflexivity).
  assert (Hnth : forall i, i < n -> nth i (map g (seq 0 n)) false = g i).
  { intros i Hi. rewrite (nth_indep _ false (g 0)) by lia.
    rewrite map_nth, seq_nth by exact Hi. reflexivity. }
  exists (map g (seq 0 n)). split; [exact Hlen |]. split.
  - rewrite Hlen. intros i Hi. destruct (Hbin i Hi) as [c Hc].
    exists c. split; [exact Hc |]. rewrite (Hnth i Hi). unfold g. rewrite Hc.
    split.
    + apply ThresholdFacts.classify_spec.
    + intros E. apply ThresholdFacts.classify_spec. rewrite E. apply Qle_refl.
  - unfold DFT.extract_channel. fold F n.
    rewrite TotalFacts.debug_loop_ok.
    + cbn [bind].
      rewrite <- Hlen at 1.
      rewrite (@FindFacts.scan_is_cut (DFT.read L F) (map g (seq 0 n))).
      * reflexivity.
      * rewrite Hlen, map_map. apply map_ext_in. intros i Hi.
        apply in_seq in Hi. unfold DFT.read, g.
        destruct (Nat.leb_spec (length F / 2) (DFT.start_idx + i * DFT.step))
          as [Hge | _]; [specialize (Hslot i); lia |].
        destruct (Hbin i) as [c Hc]; [lia |]. rewrite Hc. reflexivity.
    + intros i Hi e. apply in_seq in Hi. unfold DFT.read_debug.
      destruct (nth_error F (DFT.start_idx + i * DFT.step)) eqn:E;
        [discriminate |].
      apply nth_error_None in E. unfold DFT.start_idx, DFT.step in E.
      rewrite Hfft in E. lia.
Qed.

Lemma dft_threshold_boundary_witness :
  (exists bs : bits,
     length bs
     = Z.to_nat (DFT.max_bits (length (repeat DFT.threshold 4128))) /\
     (forall i, i < length bs ->
        exists c,
          nth_error (fft Plain.fft_lib (repeat DFT.threshold 4128))
            (DFT.start_idx + i * DFT.step) = Some c /\
          (nth i bs false = true <-> (DFT.threshold < cabs Plain.fft_lib c)%Q) /\
          ((cabs Plain.fft_lib c == DFT.threshold)%Q -> nth i bs false = false)) /\
     DFT.extract_channel Plain.fft_lib (repeat DFT.threshold 4128) =
     Returned (MessageProcessor.binary_to_text (cut_at_marker bs))) /\
  DFT.extract_channel Plain.fft_lib (repeat DFT.threshold 4128)
  = Returned [0%N; 0%N; 0%N; 0%N] /\
  DFT.extract_channel Plain.fft_lib (repeat (6 # 1000)%Q 4128)
  = Returned [255%N; 255%N; 255%N; 255%N].
Proof.
  split; [| split].
  - apply (@dft_threshold_boundary Plain.fft_lib (repeat DFT.threshold 4128)).
    + reflexivity.
    + apply Nat.ltb_lt. vm_compute. reflexivity.
  - vm_compute. reflexivity.
  - vm_compute. reflexivity.
Defined.

(** * What the DFT strategy writes *)

Module DFTWrite.
Section WithLibrary.
Import ArrayFacts.
Variable L : fft_library.

(** The embedding loop over the slots [k], ..., [k + len(bits) - 1], all
    of them in the lower half of the spectrum: bin [2000 + 2 i] gets the
    magnitude of bit [i] with the phase it had, the mirror bin its
    conjugate, and no other bin changes. *)
Lemma dft_embed_loop_spec (max_amp : Q) :
  forall (bs : bits) (k : nat) (X : list (complex L)),
    DFT.start_idx + (k + length bs) * DFT.step <= length X / 2 ->
    exists out,
      DFT.embed_loop L max_amp (combine (seq k (length bs)) bs) X
        = Returned out /\
      length out = length X /\
      (forall j,
         (forall i, i < length bs ->
                    j <> DFT.start_idx + (k + i) * DFT.step /\
                    j <> length X - (DFT.start_idx + (k + i) * DFT.step)) ->
         nth_error out j = nth_error X j) /\
      (forall i, i < length bs ->
         exists c,
           nth_error X (DFT.start_idx + (k + i) * DFT.step) = Some c /\
           nth_error out (DFT.start_idx + (k + i) * DFT.step)
           = Some (polar L (dft_amp max_amp (nth i bs false)) (angle L c)) /\
           nth_error out (length X - (DFT.start_idx + (k + i) * DFT.step))
           = Some (cconj L (polar L (dft_amp max_amp (nth i bs false))
                              (angle L c)))).
Proof.
  induction bs as [| b bs IH]; intros k X Hk.
  - exists X. cbn [length seq combine DFT.embed_loop].
    repeat split; trivial. intros i Hi. inversion Hi.
  - cbn [length] in Hk. cbn [length seq combine DFT.embed_loop].
    pose proof (Nat.div_mod_eq (length X) 2) as Hdiv.
    assert (Hhalf : DFT.start_idx + k * DFT.step < length X / 2)
      by (unfold DFT.start_idx, DFT.step in *; lia).
    destruct (Nat.leb_spec (length X / 2) (DFT.start_idx + k * DFT.step))
      as [Hge | _]; [lia |].
    assert (Hidx : DFT.start_idx + k * DFT.step < length X) by lia.
    destruct (nth_error X (DFT.start_idx + k * DFT.step)) as [c |] eqn:Ec;
      [| apply nth_error_None in Ec; lia].
    rewrite (get_item_ok _ _ Ec). cbn [bind].
    rewrite set_item_ok by exact Hidx. cbn [bind].
    fold (dft_amp max_amp b).
    set (p := polar L (dft_amp max_amp b) (angle L c)).
    set (X1 := firstn _ X ++ p :: skipn _ X).
    assert (Hlen1 : length X1 = length X) by (apply length_set, Hidx).
    assert (Ep : nth_error X1 (DFT.start_idx + k * DFT.step) = Some p).
    { unfold X1. rewrite nth_error_set by exact Hidx.
      rewrite Nat.eqb_refl. reflexivity. }
    rewrite (get_item_ok _ _ Ep). cbn [bind].
    unfold set_item_neg.
    destruct (Nat.eqb_spec (DFT.start_idx + k * DFT.step) 0) as [H0 | _];
      [unfold DFT.start_idx in H0; lia |].
    destruct (Nat.leb_spec (DFT.start_idx + k * DFT.step) (length X1))
      as [_ | Hgt]; [| lia].
    assert (Hneg : length X1 - (DFT.start_idx + k * DFT.step) < length X1)
      by (unfold DFT.start_idx in *; lia).
    rewrite set_item_ok by exact Hneg. cbn [bind].
    set (X2 := firstn _ X1 ++ cconj L p :: skipn _ X1).
    assert (Hlen2 : length X2 = length X)
      by (unfold X2; rewrite length_set by exact Hneg; exact Hlen1).
    assert (Hget2 : forall j,
              nth_error X2 j =
              if j =? length X - (DFT.start_idx + k * DFT.step)
              then Some (cconj L p)
              else if j =? DFT.start_idx + k * DFT.step then Some p
                   else nth_error X j).
    { intros j. unfold X2. rewrite nth_error_set by exact Hneg.
      rewrite Hlen1. destruct (j =? _); [reflexivity |].
      unfold X1. apply nth_error_set, Hidx. }
    destruct (IH (S k) X2) as [out [Hrun [Hlen [Hkeep Hnew]]]];
      [rewrite Hlen2; unfold DFT.step in *; lia |].
    rewrite Hlen2 in *.
    exists out. split; [exact Hrun |]. split; [exact Hlen |]. split.
    + intros j Hj. rewrite Hkeep.
      * rewrite Hget2.
        destruct (Hj 0) as [Hj1 Hj2]; [lia |]. rewrite Nat.add_0_r in Hj1, Hj2.
        destruct (Nat.eqb_spec j (length X - (DFT.start_idx + k * DFT.step)));
          [contradiction |].
        destruct (Nat.eqb_spec j (DFT.start_idx + k * DFT.step));
          [contradiction | reflexivity].
      * intros i Hi. replace (S k + i) with (k + S i) by lia.
        apply Hj. lia.
    + intros i Hi. destruct i as [| i].
      * exists c. rewrite Nat.add_0_r. cbn [nth]. split; [exact Ec |].
        assert (Hfar : forall j,
                  j = DFT.start_idx + k * DFT.step \/
                  j = length X - (DFT.start_idx + k * DFT.step) ->
                  forall i, i < length bs ->
                    j <> DFT.start_idx + (S k + i) * DFT.step /\
                    j <> length X - (DFT.start_idx + (S k + i) * DFT.step)).
        { intros j Hj i Hi'. unfold DFT.start_idx, DFT.step in *. lia. }
        split.
        -- rewrite Hkeep by (apply Hfar; left; reflexivity).
           rewrite Hget2.
           destruct (Nat.eqb_spec (DFT.start_idx + k * DFT.step)
                       (length X - (DFT.start_idx + k * DFT.step)));
             [lia |].
           rewrite Nat.eqb_refl. reflexivity.
        -- rewrite Hkeep by (apply Hfar; right; reflexivity).
           rewrite Hget2. rewrite Nat.eqb_refl. reflexivity.
      * cbn [length] in Hi.
        destruct (Hnew i) as [c' [Ec' [Hw Hm]]]; [lia |].
        replace (k + S i) with (S k + i) by lia. cbn [nth].
        exists c'. split; [| split; assumption].
        rewrite Hget2 in Ec'.
        destruct (Nat.eqb_spec (DFT.start_idx + (S k + i) * DFT.step)
                    (length X - (DFT.start_idx + k * DFT.step)));
          [unfold DFT.start_idx, DFT.step in *; lia |].
        destruct (Nat.eqb_spec (DFT.start_idx + (S k + i) * DFT.step)
                    (DFT.start_idx + k * DFT.step));
          [unfold DFT.step in *; lia | exact Ec'].
Qed.

End WithLibrary.
End DFTWrite.

Module DFTStages.
Section WithLibrary.
Import ArrayFacts PeakFacts.
Variable L : fft_library.
Hypothesis fft_length : forall x, length (fft L x) = length x.
Hypothesis ifft_length : forall x, length (ifft L x) = length x.

(** The DFT [embed] on a channel with a non-zero sample and a message
    within capacity, stage by stage. *)
Lemma dft_embed_channel_stages (ch : list Q) (message : text) :
  (exists v, In v ch /\ ~ (v == 0)%Q) ->
  (Z.of_nat (length (framed message)) <= DFT.max_bits (length ch))%Z ->
  exists (m max_amp : Q) (X' : list (complex L)) (max_val : Q),
    let F := fft L (map (fun v => v / m)%Q ch) in
    let u := map (real L) (ifft L X') in
    peak ch = Returned m /\ (0 < m)%Q /\
    DFT.normalize ch = Returned (Some (map (fun v => v / m)%Q ch)) /\
    peak (map (cabs L) F) = Returned max_amp /\
    DFT.embed_loop L max_amp
      (combine (seq 0 (length (framed message))) (framed message)) F
      = Returned X' /\
    length X' = length ch /\
    (forall j,
       (forall i, i < length (framed message) ->
                  j <> DFT.start_idx + i * DFT.step /\
                  j <> length ch - (DFT.start_idx + i * DFT.step)) ->
       nth_error X' j = nth_error F j) /\
    (forall i, i < length (framed message) ->
       exists c,
         nth_error F (DFT.start_idx + i * DFT.step) = Some c /\
         nth_error X' (DFT.start_idx + i * DFT.step)
         = Some (polar L (dft_amp max_amp (nth i (framed message) false))
                   (angle L c)) /\
         nth_error X' (length ch - (DFT.start_idx + i * DFT.step))
         = Some (cconj L (polar L (dft_amp max_amp
                                     (nth i (framed message) false))
                            (angle L c)))) /\
    peak u = Returned max_val /\
    DFT.embed_channel L ch message =
    Returned (if Qgtb max_val 1 then map (fun v => v / max_val)%Q u else u).
Proof.
  intros [v [Hin Hv]] Hcap.
  assert (Hne : ch <> []) by (destruct ch; [destruct Hin | discriminate]).
  destruct (peak_spec Hne) as [m [Hpeak [Hm0 Hzero]]].
  assert (Em : Qeq_bool m 0 = false).
  { destruct (Qeq_bool m 0) eqn:Em; [| reflexivity].
    exfalso. apply Qeq_bool_iff, Hzero in Em.
    rewrite Forall_forall in Em. apply Hv, Em, Hin. }
  assert (Hmpos : (0 < m)%Q).
  { apply Qle_lteq in Hm0. destruct Hm0 as [Hlt | Heq]; [exact Hlt |].
    exfalso. apply Qeq_bool_neq in Em. apply Em. symmetry. exact Heq. }
  assert (Hnorm : DFT.normalize ch
                  = Returned (Some (map (fun v0 => (v0 / m)%Q) ch))).
  { unfold DFT.normalize. rewrite Hpeak. cbn [bind]. rewrite Em. reflexivity. }
  assert (Hpos : 0 < length ch) by (destruct ch; [contradiction | cbn; lia]).
  set (F := fft L (map (fun v0 => (v0 / m)%Q) ch)).
  assert (HlenF : length F = length ch)
    by (unfold F; rewrite fft_length, length_map; reflexivity).
  destruct (@length_peak_nonempty _ (cabs L) F) as [max_amp Hamp]; [lia |].
  destruct (@DFTWrite.dft_embed_loop_spec L max_amp (framed message) 0 F)
    as [X' [Hrun [HlenX [Hkeep Hnew]]]].
  { rewrite HlenF. unfold DFT.max_bits, DFT.start_idx, DFT.step in *.
    change (Z.of_nat 2) with 2%Z in Hcap.
    pose proof (Z.mul_div_le (Z.of_nat (length ch / 2) - Z.of_nat 2000) 2
                  eq_refl).
    lia. }
  rewrite HlenF in *.
  destruct (@length_peak_nonempty _ (real L) (ifft L X')) as [max_val Hval].
  { rewrite ifft_length. lia. }
  exists m, max_amp, X', max_val. cbv zeta. fold F.
  split; [exact Hpeak |]. split; [exact Hmpos |]. split; [exact Hnorm |].
  split; [exact Hamp |]. split; [exact Hrun |]. split; [exact HlenX |].
  split; [exact Hkeep |]. split; [exact Hnew |]. split; [exact Hval |].
  unfold DFT.embed_channel. rewrite Hnorm. cbn [bind]. fold (framed message).
  destruct (Z.ltb_spec (DFT.max_bits (length ch))
              (Z.of_nat (length (framed message)))) as [Hlt | _]; [lia |].
  fold F. rewrite Hamp. cbn [bind]. rewrite Hrun. cbn [bind].
  rewrite Hval. cbn [bind]. destruct (Qgtb max_val 1); reflexivity.
Qed.

(** The channel that comes out has the length of the one that went in. *)
Lemma length_rescaled (X' : list (complex L)) (max_val : Q) :
  length (if Qgtb max_val 1
          then map (fun v => v / max_val)%Q (map (real L) (ifft L X'))
          else map (real L) (ifft L X'))
  = length X'.
Proof.
  destruct (Qgtb max_val 1); rewrite ?length_map, ifft_length; reflexivity.
Qed.

End WithLibrary.
End DFTStages.

Module SaveFacts.

(** The part of [embed] after the work on the channel. *)
Lemma embed_with_embedded
    (embed_channel : list Q -> text -> outcome (list Q))
    (fs : disk) (audio_path output_path : String.string) (message : text)
    (rate : N) (data : audio) (out : list Q) :
  fs audio_path = Some (Wav rate data) ->
  embed_channel (first_channel data) message = Returned out ->
  length out = length (first_channel data) -> out <> [] ->
  embedded (embed_with embed_channel fs audio_path message output_path)
    fs output_path rate data out.
Proof.
  intros Hfile Hrun Hlen Hne.
  destruct (WrapperFacts.with_first_channel_returns data Hlen Hne)
    as [modified [Hw Hs]].
  destruct (FileFacts.with_first_channel_spec _ _ Hw) as [Hother Hfirst].
  destruct (@PeakFacts.length_peak_nonempty _ (fun v => v) (all_samples modified))
    as [m Hm].
  { destruct (all_samples modified); [contradiction | cbn; lia]. }
  rewrite map_id in Hm.
  exists modified, m. split; [exact (Hfirst Hlen) |]. split; [exact Hother |].
  split; [exact Hm |].
  unfold embed_with, AudioReader.read_audio, AudioReader.save_audio.
  rewrite Hfile, Hrun, Hw, Hm. reflexivity.
Qed.

End SaveFacts.

(** * The capacity boundary *)

(** C2, as the code has it: for each strategy, on an input file that
    exists.  A message whose framed length is the capacity plus one makes
    [embed] raise its capacity error and leaves the disk as it was (the
    arrays read from it are copied before any change).  A message whose
    framed length is the capacity is embedded, with library functions that
    keep lengths: [embed] returns, the file is written, and every bit of
    the framed message is in the coefficients handed to the inverse
    transform, none being dropped by the bound check of the loop.  For the
    DCT that is coefficient 5 of block [i], for the DWT the fraction of
    coefficient [100 i] of subband 2, for the DFT the magnitude of bin
    [2000 + 2 i].  The DFT needs a channel with a non-zero sample. *)
Theorem capacity_boundary :
  forall (Lc : dct_library) (Lw : dwt_library) (Lf : fft_library)
         (fs : disk) (audio_path output_path : String.string)
         (sample_rate : N) (audio_data : audio) (message : text),
    fs audio_path = Some (Wav sample_rate audio_data) ->
    let channel_1 := first_channel audio_data in
    let b := framed message in
    ((length b = length channel_1 / DCT.block_size + 1 ->
      DCT.embed Lc fs audio_path message output_path =
      (fs, Raised (TooLarge (Z.of_nat (length channel_1 / DCT.block_size))))) /\
     (length b = length channel_1 / DCT.block_size ->
      (forall x, length x = DCT.block_size ->
                 length (dct Lc x) = DCT.block_size) ->
      (forall x, length x = DCT.block_size ->
                 length (idct Lc x) = DCT.block_size) ->
      exists out,
        DCT.embed_channel Lc channel_1 message = Returned out /\
        (forall i, i < length b ->
           slice (i * DCT.block_size) (i * DCT.block_size + DCT.block_size) out
           = idct Lc (dct_written Lc channel_1 i (nth i b false))) /\
        embedded (DCT.embed Lc fs audio_path message output_path)
          fs output_path sample_rate audio_data out)) /\
    (forall target,
       let coeffs := wavedec Lw channel_1 DWT.wavelet DWT.level in
       nth_error coeffs DWT.subband_idx = Some target ->
       (length b = length target / DWT.step + 1 ->
        DWT.embed Lw fs audio_path message output_path =
        (fs, Raised (TooLarge (Z.of_nat (length target / DWT.step))))) /\
       (length b = length target / DWT.step ->
        channel_1 <> [] ->
        (forall target',
           length target' = length target ->
           length channel_1 <=
           length (waverec Lw
                     (firstn DWT.subband_idx coeffs ++ target'
                      :: skipn (S DWT.subband_idx) coeffs) DWT.wavelet)) ->
        exists target' out,
          DWT.embed_channel Lw channel_1 message = Returned out /\
          out = firstn (length channel_1)
                  (waverec Lw
                     (firstn DWT.subband_idx coeffs ++ target'
                      :: skipn (S DWT.subband_idx) coeffs) DWT.wavelet) /\
          (forall j,
             nth_error target' j =
             option_map (dwt_written b j) (nth_error target j)) /\
          embedded (DWT.embed Lw fs audio_path message output_path)
            fs output_path sample_rate audio_data out)) /\
    ((Z.of_nat (length b) = DFT.max_bits (length channel_1) + 1)%Z ->
     DFT.embed Lf fs audio_path message output_path =
     (fs, Raised (TooLarge (DFT.max_bits (length channel_1))))) /\
    ((Z.of_nat (length b) = DFT.max_bits (length channel_1))%Z ->
     (forall x, length (fft Lf x) = length x) ->
     (forall x, length (ifft Lf x) = length x) ->
     (exists v, In v channel_1 /\ ~ (v == 0)%Q) ->
     exists (max_amp : Q) (X' : list (complex Lf)) (max_val : Q) (out : list Q),
       dft_stages Lf channel_1 b max_amp X' max_val out /\
       DFT.embed_channel Lf channel_1 message = Returned out /\
       (forall i, i < length b ->
          exists phase,
            nth_error X' (DFT.start_idx + i * DFT.step)
            = Some (polar Lf (dft_amp max_amp (nth i b false)) phase)) /\
       embedded (DFT.embed Lf fs audio_path message output_path)
         fs output_path sample_rate audio_data out).
Proof.
  intros Lc Lw Lf fs audio_path output_path rate data message Hfile ch b.
  pose proof (CapacityFacts.framed_enough message) as H16. fold b in H16.
  split; [split | split; [| split]].
  - intros Hn. eapply WrapperFacts.embed_with_raises; [exact Hfile |].
    apply CapacityFacts.dct_too_large. fold ch b. lia.
  - intros Hn Hd Hi.
    destruct (DCTFacts.dct_embed_loop_spec Lc Hd Hi ch b 0 ch eq_refl)
      as [out [Hrun [Hlen [_ Hin]]]]; [lia |].
    assert (Hemb : DCT.embed_channel Lc ch message = Returned out).
    { unfold DCT.embed_channel. fold (framed message). fold b.
      destruct (Nat.ltb_spec (length ch / DCT.block_size) (length b));
        [lia | exact Hrun]. }
    exists out. split; [exact Hemb |]. split.
    + intros i Hlt. apply ArrayFacts.slice_is.
      * apply Hi, (DCTFacts.length_dct_written Lc Hd).
        unfold DCT.block_size in *.
        pose proof (Nat.div_mod_eq (length ch) 1024). nia.
      * intros j Hj. apply (Hin i j Hlt Hj).
    + apply SaveFacts.embed_with_embedded;
        [exact Hfile | exact Hemb | exact Hlen |].
      intros ->. cbn [length] in Hlen. rewrite <- Hlen in Hn.
      change (0 / DCT.block_size) with 0 in Hn. lia.
  - intros target coeffs Hsub. split.
    + intros Hn. eapply WrapperFacts.embed_with_raises; [exact Hfile |].
      eapply CapacityFacts.dwt_too_large; [exact Hsub | fold b; lia].
    + intros Hn Hne Hrec.
      assert (Hcap : length (framed message) <= length target / DWT.step)
        by (fold b; lia).
      destruct (SlotFacts.dwt_embed_loop_exact (framed message) 0 target Hcap)
        as [target' [Hrun Hout]].
      assert (Hlen' : length target' = length target).
      { destruct (DWTFacts.dwt_embed_loop_spec (framed message) 0 target Hcap)
          as [t2 [Hrun2 [Hlen2 _]]].
        rewrite Hrun in Hrun2. injection Hrun2 as <-. exact Hlen2. }
      set (out := firstn (length ch)
                    (waverec Lw
                       (firstn DWT.subband_idx coeffs ++ target'
                        :: skipn (S DWT.subband_idx) coeffs) DWT.wavelet)).
      assert (Hemb : DWT.embed_channel Lw ch message = Returned out).
      { unfold DWT.embed_channel. fold (framed message). fold coeffs.
        rewrite (ArrayFacts.get_item_ok _ _ Hsub). cbn [bind].
        destruct (Nat.ltb_spec (length target / DWT.step)
                    (length (framed message))) as [Hlt | _]; [lia |].
        rewrite Hrun. cbn [bind].
        rewrite ArrayFacts.set_item_ok
          by (apply nth_error_Some; rewrite Hsub; discriminate).
        reflexivity. }
      exists target', out. split; [exact Hemb |]. split; [reflexivity |].
      split.
      * intros j. rewrite Hout. destruct (nth_error target j); [| reflexivity].
        cbn [option_map]. unfold dwt_written, b.
        cbn [Nat.leb Nat.add]. rewrite andb_true_r, Nat.sub_0_r. reflexivity.
      * specialize (Hrec target' Hlen').
        assert (Hlo : length out = length ch)
          by (unfold out; rewrite length_firstn; lia).
        apply SaveFacts.embed_with_embedded;
          [exact Hfile | exact Hemb | exact Hlo |].
        intros E. rewrite E in Hlo. cbn [length] in Hlo.
        destruct ch; [contradiction | discriminate].
  - intros Hn. eapply WrapperFacts.embed_with_raises; [exact Hfile |].
    apply CapacityFacts.dft_too_large. fold ch b. lia.
  - intros Hn Hfft Hifft Hnz.
    destruct (DFTStages.dft_embed_channel_stages Lf Hfft Hifft ch message Hnz)
      as [m [max_amp [X' [max_val Hst]]]]; [fold b; lia |].
    cbv zeta in Hst.
    destruct Hst as [_ [_ [Hnorm [Hamp [Hrun [HlenX [_ [Hnew [Hval Hemb]]]]]]]]].
    eexists max_amp, X', max_val, _.
    split; [| split; [exact Hemb | split]].
    + eexists. split; [exact Hnorm |]. split; [exact Hamp |].
      split; [exact Hrun |]. split; [exact Hval | reflexivity].
    + intros i Hi. destruct (Hnew i Hi) as [c [_ [Hw _]]]. eauto.
    + apply SaveFacts.embed_with_embedded; [exact Hfile | exact Hemb | |].
      * rewrite (DFTStages.length_rescaled Lf Hifft). exact HlenX.
      * intros E. apply (f_equal (@length Q)) in E.
        rewrite (DFTStages.length_rescaled Lf Hifft), HlenX in E.
        destruct Hnz as [v [Hin _]].
        destruct ch; [destruct Hin | discriminate].
Qed.

Lemma capacity_boundary_witness :
  Plain.disk_with (Mono (Plain.tone (23 * 1024))) "in.wav"%string
    = Some (Wav 44100 (Mono (Plain.tone (23 * 1024)))) /\
  length (framed [72%N]) = length (Plain.tone (23 * 1024)) / DCT.block_size + 1 /\
  DCT.embed Plain.dct_lib (Plain.disk_with (Mono (Plain.tone (23 * 1024))))
    "in.wav" [72%N] "out.wav"
    = (Plain.disk_with (Mono (Plain.tone (23 * 1024))),
       Raised (TooLarge (Z.of_nat (length (Plain.tone (23 * 1024))
                                   / DCT.block_size)))) /\
  length (framed [72%N]) = length (Plain.tone (24 * 1024)) / DCT.block_size /\
  (exists out,
     DCT.embed_channel Plain.dct_lib (Plain.tone (24 * 1024)) [72%N]
       = Returned out /\
     (forall i, i < length (framed [72%N]) ->
        slice (i * DCT.block_size) (i * DCT.block_size + DCT.block_size) out
        = idct Plain.dct_lib
            (dct_written Plain.dct_lib (Plain.tone (24 * 1024)) i
               (nth i (framed [72%N]) false))) /\
     embedded
       (DCT.embed Plain.dct_lib
          (Plain.disk_with (Mono (Plain.tone (24 * 1024))))
          "in.wav" [72%N] "out.wav")
       (Plain.disk_with (Mono (Plain.tone (24 * 1024)))) "out.wav" 44100
       (Mono (Plain.tone (24 * 1024))) out) /\
  (Z.of_nat (length (framed [72%N; 105%N]))
   = DFT.max_bits (length (Plain.tone 4128)))%Z /\
  (exists (max_amp : Q) (X' : list Q) (max_val : Q) (out : list Q),
     dft_stages Plain.fft_lib (Plain.tone 4128) (framed [72%N; 105%N])
       max_amp X' max_val out /\
     DFT.embed_channel Plain.fft_lib (Plain.tone 4128) [72%N; 105%N]
       = Returned out /\
     (forall i, i < length (framed [72%N; 105%N]) ->
        exists phase,
          nth_error X' (DFT.start_idx + i * DFT.step)
          = Some (polar Plain.fft_lib
                    (dft_amp max_amp (nth i (framed [72%N; 105%N]) false))
                    phase)) /\
     embedded
       (DFT.embed Plain.fft_lib (Plain.disk_with (Mono (Plain.tone 4128)))
          "in.wav" [72%N; 105%N] "out.wav")
       (Plain.disk_with (Mono (Plain.tone 4128))) "out.wav" 44100
       (Mono (Plain.tone 4128)) out).
Proof.
  assert (Hn : length (framed [72%N])
               = length (Plain.tone (23 * 1024)) / DCT.block_size + 1)
    by (vm_compute; reflexivity).
  assert (Hn' : length (framed [72%N])
                = length (Plain.tone (24 * 1024)) / DCT.block_size)
    by (vm_compute; reflexivity).
  assert (Hf : (Z.of_nat (length (framed [72%N; 105%N]))
                = DFT.max_bits (length (Plain.tone 4128)))%Z)
    by (vm_compute; reflexivity).
  split; [reflexivity |]. split; [exact Hn |]. split; [| split; [exact Hn' |]].
  - exact (proj1 (proj1 (@capacity_boundary Plain.dct_lib Plain.dwt_lib
                           Plain.fft_lib
                           (Plain.disk_with (Mono (Plain.tone (23 * 1024))))
                           "in.wav" "out.wav" 44100%N
                           (Mono (Plain.tone (23 * 1024))) [72%N] eq_refl))
             Hn).
  - split; [| split; [exact Hf |]].
    + exact (proj2 (proj1 (@capacity_boundary Plain.dct_lib Plain.dwt_lib
                             Plain.fft_lib
                             (Plain.disk_with (Mono (Plain.tone (24 * 1024))))
                             "in.wav" "out.wav" 44100%N
                             (Mono (Plain.tone (24 * 1024))) [72%N] eq_refl))
               Hn' (fun x H => H) (fun x H => H)).
    + refine (proj2 (proj2 (proj2 (@capacity_boundary Plain.dct_lib
                                     Plain.dwt_lib Plain.fft_lib
                                     (Plain.disk_with (Mono (Plain.tone 4128)))
                                     "in.wav" "out.wav" 44100%N
                                     (Mono (Plain.tone 4128)) [72%N; 105%N]
                                     eq_refl)))
                Hf (fun x => eq_refl) (fun x => eq_refl) _).
      exists (1 # 2)%Q. split; [left; reflexivity | discriminate].
Defined.

(** Where the claim fails: a silent channel, the DFT strategy and a message
    of two characters, whose 32 framed bits are the capacity of 4128
    samples.  [embed] divides by the peak, which is 0, and writes a file
    of NaN; [extract] finds no message in it. *)
Lemma capacity_boundary_on_silence :
  (Z.of_nat (length (framed [72%N; 105%N]))
   = DFT.max_bits (length (Plain.silence 4128)))%Z /\
  DFT.embed_channel Plain.fft_lib (Plain.silence 4128) [72%N; 105%N]
  = NotANumber /\
  snd (DFT.embed Plain.fft_lib (Plain.disk_with (Mono (Plain.silence 4128)))
         "in.wav" [72%N; 105%N] "out.wav") = NotANumber /\
  fst (DFT.embed Plain.fft_lib (Plain.disk_with (Mono (Plain.silence 4128)))
         "in.wav" [72%N; 105%N] "out.wav") "out.wav"%string = Some WavNaN /\
  DFT.extract Plain.fft_lib
    (fst (DFT.embed Plain.fft_lib
            (Plain.disk_with (Mono (Plain.silence 4128)))
            "in.wav" [72%N; 105%N] "out.wav")) "out.wav" = NotANumber.
Proof. repeat split; vm_compute; reflexivity. Qed.

(** * The round trip *)

Module ZeroScan.

(** The marker begins with a 1: a string that ends with it has 16 bits
    after any prefix of zeros. *)
Lemma marker_after_zeros (acc : bits) (z : nat) :
  firstn z acc = repeat false z -> z <= length acc ->
  endswith acc END_MARKER = true -> z + 16 <= length acc.
Proof.
  intros Hz Hle H. unfold endswith in H.
  destruct (list_eq_dec bool_dec _ END_MARKER) as [E | _]; [| discriminate].
  apply Nat.leb_le in H. rewrite LoopFacts.length_END_MARKER in H, E.
  destruct (Nat.le_gt_cases (z + 16) (length acc)) as [Hok | Hbad];
    [exact Hok | exfalso].
  assert (H1 : nth_error acc (length acc - 16) = Some true).
  { rewrite <- (Nat.add_0_r (length acc - 16)), <- nth_error_skipn, E.
    reflexivity. }
  assert (H2 : nth_error acc (length acc - 16) = Some false).
  { assert (Hlt : length acc - 16 < z) by lia.
    rewrite <- (nth_error_repeat false Hlt), <- Hz, nth_error_firstn.
    apply Nat.ltb_lt in Hlt. rewrite Hlt. reflexivity. }
  rewrite H1 in H2. discriminate.
Qed.

(** Whatever the scan goes on to read, a prefix of zeros stays in what it
    returns. *)
Lemma zeros_stay (read : nat -> reading) :
  forall (idxs : list nat) (acc : bits) (z : nat) (r : bits),
    firstn z acc = repeat false z -> z <= length acc ->
    extract_loop read idxs acc = Returned r -> z <= length r.
Proof.
  induction idxs as [| i idxs IH]; intros acc z r Hz Hle H;
    cbn [extract_loop] in H.
  - injection H as <-. exact Hle.
  - destruct (read i) as [| b | e]; [injection H as <-; exact Hle | |
                                      discriminate].
    assert (Hz' : firstn z (acc ++ [b]) = repeat false z).
    { rewrite firstn_app. replace (z - length acc) with 0 by lia.
      cbn [firstn]. rewrite app_nil_r. exact Hz. }
    assert (Hle' : z <= length (acc ++ [b]))
      by (rewrite length_app; cbn [length]; lia).
    destruct (endswith (acc ++ [b]) END_MARKER) eqn:E.
    + injection H as <-.
      pose proof (marker_after_zeros _ Hz' Hle' E) as H16.
      unfold drop_last. rewrite length_firstn, ?LoopFacts.length_END_MARKER.
      lia.
    + exact (IH _ _ _ Hz' Hle' H).
Qed.

(** A scan whose first [n] slots read 0 returns at least [n] bits. *)
Lemma zeros_first (read : nat -> reading) (rest : list nat) :
  forall (n k : nat) (acc r : bits),
    (forall i, k <= i < k + n -> read i = Bit false) ->
    acc = repeat false (length acc) ->
    extract_loop read (seq k n ++ rest) acc = Returned r ->
    length acc + n <= length r.
Proof.
  induction n as [| n IH]; intros k acc r Hread Hacc H.
  - cbn [seq app] in H. rewrite Nat.add_0_r.
    apply (@zeros_stay read rest acc (length acc) r); [| lia | exact H].
    rewrite firstn_all. exact Hacc.
  - cbn [seq app extract_loop] in H. rewrite (Hread k) in H by lia.
    assert (Hacc' : acc ++ [false] = repeat false (length (acc ++ [false]))).
    { rewrite length_app. cbn [length]. rewrite repeat_app.
      cbn [repeat]. rewrite <- Hacc. reflexivity. }
    destruct (endswith (acc ++ [false]) END_MARKER) eqn:E.
    + exfalso.
      assert (H16 : length (acc ++ [false]) + 16 <= length (acc ++ [false])).
      { apply marker_after_zeros; [| lia | exact E].
        rewrite firstn_all. exact Hacc'. }
      lia.
    + specialize (IH (S k) (acc ++ [false]) r).
      rewrite length_app in IH. cbn [length] in IH.
      rewrite length_app in Hacc'. cbn [length] in Hacc'.
      assert (length acc + 1 + n <= length r); [| lia].
      apply IH; [intros i Hi; apply Hread; lia | exact Hacc' | exact H].
Qed.

End ZeroScan.

Module DFTRoundTrip.
Section WithLibrary.
Import ArrayFacts PeakFacts.
Variable L : fft_library.
Hypothesis fft_length : forall x, length (fft L x) = length x.
Hypothesis ifft_length : forall x, length (ifft L x) = length x.
Hypothesis cabs_polar :
  forall amp phase, (0 <= amp)%Q -> (cabs L (polar L amp phase) == amp)%Q.
Hypothesis read_back :
  forall (x : list Q) (X : list (complex L)) (k : nat) (c : complex L),
    conjugate_pairs L (fft L x) X ->
    nth_error X k = Some c ->
    exists c',
      nth_error (fft L (map (real L) (ifft L X))) k = Some c' /\
      (cabs L c' == cabs L c)%Q.
Hypothesis scaling :
  forall (x : list Q) (s : Q) (k : nat) (c : complex L),
    (0 < s)%Q ->
    nth_error (fft L x) k = Some c ->
    exists c',
      nth_error (fft L (map (fun v => v / s)%Q x)) k = Some c' /\
      (cabs L c' == cabs L c / s)%Q.
Hypothesis spectrum_bound :
  forall (x : list Q) (v : Q),
    In v x -> exists c, In c (fft L x) /\ (Qabs v <= cabs L c)%Q.

Lemma fold_max_attained (r : list Q) :
  forall a : Q,
    fold_left (fun m v => Qmax m (Qabs v)) r a = a \/
    exists v, In v r /\ fold_left (fun m v => Qmax m (Qabs v)) r a = Qabs v.
Proof.
  induction r as [| w r IH]; intros a; cbn [fold_left]; [left; reflexivity |].
  destruct (IH (Qmax a (Qabs w))) as [E | [v [Hv E]]].
  - rewrite E. unfold Qmax, GenericMinMax.gmax.
    destruct (a ?= Qabs w)%Q.
    + left. reflexivity.
    + right. exists w. split; [left; reflexivity | reflexivity].
    + left. reflexivity.
  - right. exists v. split; [right; exact Hv | exact E].
Qed.

Lemma peak_attained (x : list Q) (m : Q) :
  peak x = Returned m -> exists v, In v x /\ m = Qabs v.
Proof.
  destruct x as [| a r]; [discriminate |]. cbn [peak]. intros H.
  injection H as <-.
  destruct (fold_max_attained r (Qabs a)) as [E | [v [Hv E]]].
  - exists a. split; [left; reflexivity | exact E].
  - exists v. split; [right; exact Hv | exact E].
Qed.

(** An index is a slot of the first [n] bits, the mirror of one, or
    neither. *)
Lemma slot_or_not (n len k : nat) :
  (exists i, i < n /\
             (k = DFT.start_idx + i * DFT.step \/
              k = len - (DFT.start_idx + i * DFT.step))) \/
  (forall i, i < n ->
             k <> DFT.start_idx + i * DFT.step /\
             k <> len - (DFT.start_idx + i * DFT.step)).
Proof.
  induction n as [| n IH].
  - right. intros i Hi. inversion Hi.
  - destruct IH as [[i [Hi E]] | Hno].
    + left. exists i. split; [lia | exact E].
    + destruct (Nat.eq_dec k (DFT.start_idx + n * DFT.step)) as [E1 | N1].
      * left. exists n. split; [lia | left; exact E1].
      * destruct (Nat.eq_dec k (len - (DFT.start_idx + n * DFT.step)))
          as [E2 | N2].
        -- left. exists n. split; [lia | right; exact E2].
        -- right. intros i Hi.
           destruct (Nat.eq_dec i n) as [-> | Hne]; [split; assumption |].
           apply Hno. lia.
Qed.

(** The magnitudes written for the two bits, under a spectrum whose
    largest magnitude is at least 1. *)
Lemma dft_amp_values (max_amp : Q) :
  (1 <= max_amp)%Q ->
  (dft_amp max_amp true == 1 # 100)%Q /\
  (0 <= dft_amp max_amp false)%Q /\ (dft_amp max_amp false <= 1 # 1000)%Q.
Proof.
  intros H. unfold dft_amp, DFT.bit1_value, DFT.bit0_value.
  assert (Hten : (1 # 10 <= max_amp * (1 # 10))%Q).
  { setoid_replace (1 # 10)%Q with (1 * (1 # 10))%Q at 1 by reflexivity.
    apply Qmult_le_compat_r; [exact H | discriminate]. }
  split; [| split].
  - apply Q.min_l. apply Qle_trans with (1 # 10)%Q; [discriminate | exact Hten].
  - apply Q.min_glb; [discriminate |].
    apply Qle_trans with (1 # 10)%Q; [discriminate | exact Hten].
  - apply Q.le_min_l.
Qed.

Lemma dft_round_trip (ch : list Q) (message : text) :
  one_byte_characters message = true ->
  marker_only_at_end (framed message) = true ->
  (exists v, In v ch /\ ~ (v == 0)%Q) ->
  (Z.of_nat (length (framed message)) <= DFT.max_bits (length ch))%Z ->
  exists (max_amp : Q) (X' : list (complex L)) (max_val : Q) (out : list Q),
    dft_stages L ch (framed message) max_amp X' max_val out /\
    DFT.embed_channel L ch message = Returned out /\
    (DFT.extract_channel L out = Returned message <-> (max_val < 2)%Q).
Proof.
  intros Hbytes Hfree Hnz Hcap.
  destruct (DFTStages.dft_embed_channel_stages L fft_length ifft_length
              ch message Hnz Hcap) as [m [max_amp [X' [max_val Hst]]]].
  cbv zeta in Hst.
  destruct Hst
    as [Hpeak [Hm [Hnorm [Hamp [Hrun [HlenX [Hkeep [Hnew [Hval Hemb]]]]]]]]].
  set (nch := map (fun v => (v / m)%Q) ch) in *.
  set (F := fft L nch) in *.
  set (u := map (real L) (ifft L X')) in *.
  assert (HlenF : length F = length ch)
    by (unfold F, nch; rewrite fft_length, length_map; reflexivity).
  eexists max_amp, X', max_val, _.
  split; [| split; [exact Hemb |]].
  { exists nch. split; [exact Hnorm |]. split; [exact Hamp |].
    split; [exact Hrun |]. split; [exact Hval | reflexivity]. }
  (* the spectrum handed to the inverse transform *)
  assert (Hpairs : conjugate_pairs L F X').
  { split; [rewrite HlenX, HlenF; reflexivity |]. rewrite HlenF.
    intros k Hk.
    destruct (slot_or_not (length (framed message)) (length ch) k)
      as [[i [Hi [E | E]]] | Hno].
    - right. destruct (Hnew i Hi) as [c [_ [Hw Hmir]]]. subst k.
      split; [unfold DFT.start_idx; lia |]. left.
      rewrite Hw, Hmir. reflexivity.
    - right. destruct (Hnew i Hi) as [c [Hc [Hw Hmir]]].
      assert (Hin : DFT.start_idx + i * DFT.step < length ch).
      { rewrite <- HlenF. apply nth_error_Some. rewrite Hc. discriminate. }
      subst k. split; [lia |]. right.
      replace (length ch - (length ch - (DFT.start_idx + i * DFT.step)))
        with (DFT.start_idx + i * DFT.step) by lia.
      rewrite Hw, Hmir. reflexivity.
    - left. apply Hkeep, Hno. }
  (* the largest magnitude of the spectrum *)
  assert (Hone : (1 <= max_amp)%Q).
  { destruct (@peak_attained _ _ Hpeak) as [v [Hv Ev]].
    destruct (@spectrum_bound nch (v / m)%Q) as [c [Hc Hle]].
    { unfold nch. apply in_map_iff. exists v. split; [reflexivity | exact Hv]. }
    apply Qle_trans with (cabs L c).
    - apply Qle_trans with (Qabs (v / m)); [| exact Hle].
      unfold Qdiv. rewrite Qabs_Qmult, <- Ev.
      rewrite (Qabs_pos (/ m)) by (apply Qlt_le_weak, Qinv_lt_0_compat, Hm).
      rewrite Qmult_inv_r; [apply Qle_refl |].
      intros E. rewrite E in Hm. discriminate.
    - apply Qle_trans with (Qabs (cabs L c)); [apply Qle_Qabs |].
      apply (@RangeFacts.peak_bounds_members _ _ Hamp).
      apply in_map, Hc. }
  destruct (@dft_amp_values _ Hone) as [Hv1 [Hv0 Hv0']].
  assert (Hmag : forall i, i < length (framed message) ->
            exists c',
              nth_error (fft L u) (DFT.start_idx + i * DFT.step) = Some c' /\
              (cabs L c' == dft_amp max_amp (nth i (framed message) false))%Q).
  { intros i Hi. destruct (Hnew i Hi) as [c [_ [Hw _]]].
    destruct (@read_back nch X' _ _ Hpairs Hw) as [c' [Hc' Hcabs]].
    exists c'. split; [exact Hc' |]. rewrite Hcabs. apply cabs_polar.
    destruct (nth i (framed message) false);
      [rewrite Hv1; discriminate | exact Hv0]. }
  assert (Hlo : length (if Qgtb max_val 1
                        then map (fun v => (v / max_val)%Q) u else u)
                = length ch).
  { unfold u. rewrite (DFTStages.length_rescaled L ifft_length). exact HlenX. }
  assert (Hforward : (max_val < 2)%Q ->
            DFT.extract_channel L
              (if Qgtb max_val 1
               then map (fun v => (v / max_val)%Q) u else u)
            = Returned message).
  { intros Hbelow.
    apply (DFTFacts.extract_framed L fft_length _ message Hbytes Hfree).
    { rewrite Hlo. exact Hcap. }
    intros i Hi. destruct (Hmag i Hi) as [c' [Hc' Hcabs]].
    destruct (Qgtb max_val 1) eqn:Escale.
    - apply RangeFacts.Qgtb_true in Escale.
      assert (Hs : (0 < max_val)%Q)
        by (apply Qlt_trans with 1%Q; [reflexivity | exact Escale]).
      destruct (@scaling u max_val _ _ Hs Hc') as [c'' [Hc'' Hcabs'']].
      exists c''. split; [exact Hc'' |].
      rewrite (@ThresholdFacts.classify_proper _ _ Hcabs'').
      destruct (nth i (framed message) false).
      + apply ThresholdFacts.classify_spec.
        apply Qlt_shift_div_l; [exact Hs |]. rewrite Hcabs, Hv1.
        apply Qlt_le_trans with (DFT.threshold * 2)%Q; [| discriminate].
        apply Qmult_lt_l; [reflexivity | exact Hbelow].
      + apply ThresholdFacts.classify_spec.
        apply Qle_shift_div_r; [exact Hs |]. rewrite Hcabs.
        apply Qle_trans with (1 # 1000)%Q; [exact Hv0' |].
        apply Qle_trans with (DFT.threshold * 1)%Q; [discriminate |].
        apply Qmult_le_l; [reflexivity | apply Qlt_le_weak, Escale].
    - exists c'. split; [exact Hc' |].
      rewrite (@ThresholdFacts.classify_proper _ _ Hcabs).
      destruct (nth i (framed message) false).
      + rewrite (@ThresholdFacts.classify_proper _ _ Hv1). reflexivity.
      + apply ThresholdFacts.classify_spec.
        apply Qle_trans with (1 # 1000)%Q; [exact Hv0' | discriminate]. }
  split; [| exact Hforward].
  (* from a peak of 2 on, every written bin reads 0 *)
  intros Hext.
  destruct (Qlt_le_dec max_val 2) as [Hlt | Hge]; [exact Hlt | exfalso].
  assert (Hs : (0 < max_val)%Q)
    by (apply Qlt_le_trans with 2%Q; [reflexivity | exact Hge]).
  assert (Escale : Qgtb max_val 1 = true).
  { unfold Qgtb. apply negb_true_iff.
    destruct (Qle_bool max_val 1) eqn:E; [| reflexivity].
    apply Qle_bool_iff in E. exfalso.
    apply (Qlt_not_le 1 2); [reflexivity |].
    apply Qle_trans with max_val; assumption. }
  rewrite Escale in *.
  set (out := map (fun v => (v / max_val)%Q) u) in *.
  set (n := length (framed message)) in *.
  assert (Hn : (2 * Z.of_nat n <= Z.of_nat (length ch / 2) - 2000)%Z).
  { unfold DFT.max_bits, DFT.start_idx, DFT.step in Hcap.
    change (Z.of_nat 2) with 2%Z in Hcap.
    pose proof (Z.mul_div_le (Z.of_nat (length ch / 2) - Z.of_nat 2000) 2
                  eq_refl).
    lia. }
  assert (Hzero : forall i, 0 <= i < 0 + n ->
            DFT.read L (fft L out) i = Bit false).
  { intros i [_ Hi]. cbn [Nat.add] in Hi.
    destruct (Hmag i Hi) as [c' [Hc' Hcabs]].
    destruct (@scaling u max_val _ _ Hs Hc') as [c'' [Hc'' Hcabs'']].
    unfold DFT.read. rewrite fft_length, Hlo.
    destruct (Nat.leb_spec (length ch / 2) (DFT.start_idx + i * DFT.step))
      as [Hbad | _]; [unfold DFT.start_idx, DFT.step in Hbad; lia |].
    fold out in Hc''. rewrite Hc''. f_equal.
    rewrite (@ThresholdFacts.classify_proper _ _ Hcabs'').
    apply ThresholdFacts.classify_spec.
    apply Qle_shift_div_r; [exact Hs |]. rewrite Hcabs.
    apply Qle_trans with (1 # 100)%Q.
    - destruct (nth i (framed message) false).
      + rewrite Hv1. apply Qle_refl.
      + apply Qle_trans with (1 # 1000)%Q; [exact Hv0' | discriminate].
    - apply Qle_trans with (DFT.threshold * 2)%Q; [discriminate |].
      apply Qmult_le_l; [reflexivity | exact Hge]. }
  unfold DFT.extract_channel in Hext.
  destruct (debug_loop (DFT.read_debug L (fft L out)) (seq 0 10));
    [| discriminate | discriminate].
  cbn [bind] in Hext. rewrite Hlo in Hext.
  replace (Z.to_nat (DFT.max_bits (length ch)))
    with (n + (Z.to_nat (DFT.max_bits (length ch)) - n)) in Hext by lia.
  rewrite seq_app in Hext.
  destruct (extract_loop (DFT.read L (fft L out))
              (seq 0 n ++ seq (0 + n) (Z.to_nat (DFT.max_bits (length ch)) - n))
              []) as [r | e |] eqn:Er; [| discriminate | discriminate].
  cbn [bind] in Hext. injection Hext as Hdec.
  pose proof (@ZeroScan.zeros_first _ _ n 0 [] r Hzero eq_refl Er) as Hr.
  cbn [length Nat.add] in Hr.
  apply (f_equal (@length N)) in Hdec.
  rewrite CodecFacts.binary_to_text_groups, length_map, length_seq in Hdec.
  assert (Hfr : n = 8 * length message + 16).
  { unfold n. rewrite ScanFacts.length_framed.
    rewrite (CodecFacts.length_text_to_binary
               (ScanFacts.one_byte_characters_spec message Hbytes)).
    reflexivity. }
  pose proof (Nat.div_mod_eq (length r) 8).
  pose proof (Nat.mod_upper_bound (length r) 8). lia.
Qed.

End WithLibrary.
End DFTRoundTrip.

(** C1, as the code has it.  Take a message of one-byte characters whose
    framed bits end with the first occurrence of the marker, that fits the
    capacity, and library functions that keep lengths and give back the
    coefficient that was written.  Its framed length is 8 bits per
    character and 16 more, and [extract] on the channel [embed] returns
    gives the message: for the DCT and the DWT when the message is not
    empty; for the DFT, on a channel with a non-zero sample, exactly when
    the inverse transform of the spectrum that was written has a peak
    below 2.  The DFT [embed] divides its result by that peak when it
    exceeds 1, and the magnitudes of the spectrum with it: a bit 1,
    written as 0.01, is read against 0.005, and from a peak of 2 on every
    written bin reads as 0.  The transform of the DFT is one whose spectrum
    has a bin at least as large as every sample, that gives a magnitude
    [amp] to [amp * exp(1j * phase)], that gives back the magnitudes of a
    spectrum in which bins were rewritten in conjugate pairs, and under
    which a division of the signal divides the magnitudes. *)
Theorem round_trip :
  forall (Lf : fft_library) (Lc : dct_library) (Lw : dwt_library)
         (channel_1 : list Q) (message : text),
    one_byte_characters message = true ->
    marker_only_at_end (framed message) = true ->
    length (framed message) = 8 * length message + 16 /\
    ((forall x, length (fft Lf x) = length x) ->
     (forall x, length (ifft Lf x) = length x) ->
     (forall amp phase,
        (0 <= amp)%Q -> (cabs Lf (polar Lf amp phase) == amp)%Q) ->
     (forall (x : list Q) (X : list (complex Lf)) (k : nat) (c : complex Lf),
        conjugate_pairs Lf (fft Lf x) X ->
        nth_error X k = Some c ->
        exists c',
          nth_error (fft Lf (map (real Lf) (ifft Lf X))) k = Some c' /\
          (cabs Lf c' == cabs Lf c)%Q) ->
     (forall (x : list Q) (s : Q) (k : nat) (c : complex Lf),
        (0 < s)%Q ->
        nth_error (fft Lf x) k = Some c ->
        exists c',
          nth_error (fft Lf (map (fun v => v / s)%Q x)) k = Some c' /\
          (cabs Lf c' == cabs Lf c / s)%Q) ->
     (forall (x : list Q) (v : Q),
        In v x -> exists c, In c (fft Lf x) /\ (Qabs v <= cabs Lf c)%Q) ->
     (exists v, In v channel_1 /\ ~ (v == 0)%Q) ->
     (Z.of_nat (length (framed message)) <= DFT.max_bits (length channel_1))%Z ->
     exists (max_amp : Q) (X' : list (complex Lf)) (max_val : Q)
            (out : list Q),
       dft_stages Lf channel_1 (framed message) max_amp X' max_val out /\
       DFT.embed_channel Lf channel_1 message = Returned out /\
       (DFT.extract_channel Lf out = Returned message <-> (max_val < 2)%Q)) /\
    ((forall x, length x = DCT.block_size ->
                length (dct Lc x) = DCT.block_size) ->
     (forall x, length x = DCT.block_size ->
                length (idct Lc x) = DCT.block_size) ->
     (forall c, length c = DCT.block_size ->
                nth_error (dct Lc (idct Lc c)) DCT.target_coef =
                nth_error c DCT.target_coef) ->
     message <> [] ->
     length (framed message) <= length channel_1 / DCT.block_size ->
     exists out,
       DCT.embed_channel Lc channel_1 message = Returned out /\
       DCT.extract_channel Lc out = Returned message) /\
    (forall target,
       nth_error (wavedec Lw channel_1 DWT.wavelet DWT.level) DWT.subband_idx
         = Some target ->
       (forall target',
          length target' = length target ->
          nth_error
            (wavedec Lw
               (firstn (length channel_1)
                  (waverec Lw
                     (firstn DWT.subband_idx
                        (wavedec Lw channel_1 DWT.wavelet DWT.level)
                      ++ target'
                      :: skipn (S DWT.subband_idx)
                           (wavedec Lw channel_1 DWT.wavelet DWT.level))
                     DWT.wavelet))
               DWT.wavelet DWT.level) DWT.subband_idx = Some target') ->
       message <> [] ->
       length (framed message) <= length target / DWT.step ->
       exists out,
         DWT.embed_channel Lw channel_1 message = Returned out /\
         DWT.extract_channel Lw out = Returned message).
Proof.
  intros Lf Lc Lw ch message Hbytes Hfree. split; [| split; [| split]].
  - rewrite ScanFacts.length_framed.
    rewrite (CodecFacts.length_text_to_binary
               (ScanFacts.one_byte_characters_spec message Hbytes)).
    reflexivity.
  - intros Hfft Hifft Hpolar Hback Hscale Hbound Hnz Hcap.
    exact (@DFTRoundTrip.dft_round_trip Lf Hfft Hifft Hpolar Hback Hscale
             Hbound ch message Hbytes Hfree Hnz Hcap).
  - intros Hd Hi Hdi Hne Hcap.
    destruct (DCTRoundTrip.dct_round_trip Lc Hd Hi Hdi ch message Hbytes Hfree Hcap)
      as [out [Hrun [_ Hext]]].
    exists out. split; [exact Hrun |].
    destruct message; [contradiction | exact Hext].
  - intros target Hsub Hrec Hne Hcap.
    destruct (DWTRoundTrip.dwt_round_trip Lw ch Hsub Hrec message Hbytes Hfree Hcap)
      as [out [Hrun Hext]].
    exists out. split; [exact Hrun |].
    destruct message; [contradiction | exact Hext].
Qed.

Module PlainLaws.

Lemma cabs_polar (amp phase : Q) :
  (0 <= amp)%Q -> (cabs Plain.fft_lib (polar Plain.fft_lib amp phase) == amp)%Q.
Proof.
  intros H. cbn [cabs polar Plain.fft_lib].
  destruct (Qeq_bool phase 0).
  - apply Qabs_pos, H.
  - rewrite Qabs_opp. apply Qabs_pos, H.
Qed.

Lemma read_back (x : list Q) (X : list Q) (k : nat) (c : Q) :
  conjugate_pairs Plain.fft_lib (fft Plain.fft_lib x) X ->
  nth_error X k = Some c ->
  exists c',
    nth_error (fft Plain.fft_lib
                 (map (real Plain.fft_lib) (ifft Plain.fft_lib X))) k
    = Some c' /\
    (cabs Plain.fft_lib c' == cabs Plain.fft_lib c)%Q.
Proof.
  intros _ H. exists c. cbn [fft ifft real Plain.fft_lib].
  rewrite map_id. split; [exact H | reflexivity].
Qed.

Lemma scaling (x : list Q) (s : Q) (k : nat) (c : Q) :
  (0 < s)%Q ->
  nth_error (fft Plain.fft_lib x) k = Some c ->
  exists c',
    nth_error (fft Plain.fft_lib (map (fun v => v / s)%Q x)) k = Some c' /\
    (cabs Plain.fft_lib c' == cabs Plain.fft_lib c / s)%Q.
Proof.
  intros Hs H. change (nth_error x k = Some c) in H.
  exists (c / s)%Q. split.
  - change (nth_error (map (fun v => (v / s)%Q) x) k = Some (c / s)%Q).
    rewrite nth_error_map, H. reflexivity.
  - change (Qabs (c / s) == Qabs c / s)%Q.
    unfold Qdiv. rewrite Qabs_Qmult.
    rewrite (Qabs_pos (/ s)) by (apply Qlt_le_weak, Qinv_lt_0_compat, Hs).
    reflexivity.
Qed.

Lemma spectrum_bound (x : list Q) (v : Q) :
  In v x ->
  exists c, In c (fft Plain.fft_lib x) /\ (Qabs v <= cabs Plain.fft_lib c)%Q.
Proof.
  intros H. exists v. split; [exact H | apply Qle_refl].
Qed.

(** With the plain transform no sample of the channel that comes out of
    the inverse transform exceeds 1: a written bin holds at most 0.01, and
    the others hold the normalized samples. *)
Lemma stage_peak (ch : list Q) (message : text) (max_amp : Q) (X' : list Q)
    (max_val : Q) (out : list Q) :
  (exists v, In v ch /\ ~ (v == 0)%Q) ->
  (Z.of_nat (length (framed message)) <= DFT.max_bits (length ch))%Z ->
  dft_stages Plain.fft_lib ch (framed message) max_amp X' max_val out ->
  (max_val <= 1)%Q.
Proof.
  intros Hnz Hcap [nch [Hn' [Ha' [Hr' [Hv' _]]]]].
  destruct (@DFTStages.dft_embed_channel_stages Plain.fft_lib
              (fun x => eq_refl) (fun x => eq_refl) ch message Hnz Hcap)
    as [m [a2 [X2 [v2 H]]]].
  cbv zeta in H.
  destruct H as [Hpeak [Hm [Hnorm [Hamp [Hrun [HlenX [Hkeep [Hnew [Hval _]]]]]]]]].
  rewrite Hnorm in Hn'. injection Hn' as <-.
  rewrite Hamp in Ha'. injection Ha' as <-.
  rewrite Hrun in Hr'. injection Hr' as <-.
  rewrite Hval in Hv'. injection Hv' as <-.
  change (fft Plain.fft_lib (map (fun v => (v / m)%Q) ch))
    with (map (fun v => (v / m)%Q) ch) in *.
  assert (Ha0 : (0 <= a2)%Q).
  { destruct (map (cabs Plain.fft_lib) (map (fun v => (v / m)%Q) ch))
      as [| a r] eqn:E; [discriminate |].
    destruct (@PeakFacts.peak_spec (a :: r)) as [m' [Hp [H0 _]]];
      [discriminate |].
    rewrite Hamp in Hp. injection Hp as <-. exact H0. }
  assert (Hamp1 : forall bit, (Qabs (dft_amp a2 bit) <= 1)%Q).
  { intros bit. rewrite Qabs_pos.
    - apply Qle_trans with (if bit then DFT.bit1_value else DFT.bit0_value);
        [apply Q.le_min_l | destruct bit; discriminate].
    - apply Q.min_glb; [destruct bit; discriminate |].
      apply Qmult_le_0_compat; [exact Ha0 | discriminate]. }
  assert (Hpolar : forall bit phase,
            (Qabs (polar Plain.fft_lib (dft_amp a2 bit) phase) <= 1)%Q).
  { intros bit phase. cbn [polar Plain.fft_lib].
    destruct (Qeq_bool phase 0); [| rewrite Qabs_opp]; apply Hamp1. }
  apply (@RangeFacts.peak_le 1%Q _ v2 Hval). intros v Hv.
  change (map (real Plain.fft_lib) (ifft Plain.fft_lib X2))
    with (map (fun c : Q => c) X2) in Hv.
  rewrite map_id in Hv.
  apply In_nth_error in Hv as [j Hj].
  destruct (DFTRoundTrip.slot_or_not (length (framed message)) (length ch) j)
    as [[i [Hi [E | E]]] | Hno].
  - destruct (Hnew i Hi) as [c [_ [Hw _]]]. subst j.
    pose proof (eq_trans (eq_sym Hw) Hj) as E. injection E as <-.
    apply Hpolar.
  - destruct (Hnew i Hi) as [c [_ [_ Hmir]]]. subst j.
    pose proof (eq_trans (eq_sym Hmir) Hj) as E. injection E as <-.
    apply Hpolar.
  - pose proof (eq_trans (eq_sym (Hkeep j Hno)) Hj) as E.
    rewrite nth_error_map in E.
    destruct (nth_error ch j) as [w |] eqn:Ew; [| discriminate].
    injection E as <-.
    apply RangeFacts.scaled_within; [exact Hm |].
    apply (@RangeFacts.peak_bounds_members _ _ Hpeak).
    apply (nth_error_In _ _ Ew).
Qed.

End PlainLaws.

Lemma round_trip_witness :
  one_byte_characters [72%N] = true /\
  marker_only_at_end (framed [72%N]) = true /\
  (exists (max_amp : Q) (X' : list Q) (max_val : Q) (out : list Q),
     dft_stages Plain.fft_lib (Plain.tone (24 * 1024)) (framed [72%N])
       max_amp X' max_val out /\
     DFT.embed_channel Plain.fft_lib (Plain.tone (24 * 1024)) [72%N]
       = Returned out /\
     (max_val < 2)%Q /\
     DFT.extract_channel Plain.fft_lib out = Returned [72%N]) /\
  (exists out,
     DCT.embed_channel Plain.dct_lib (Plain.tone (24 * 1024)) [72%N]
       = Returned out /\
     DCT.extract_channel Plain.dct_lib out = Returned [72%N]) /\
  (exists out,
     DWT.embed_channel Plain.dwt_lib (Plain.tone (24 * 1024)) [72%N]
       = Returned out /\
     DWT.extract_channel Plain.dwt_lib out = Returned [72%N]).
Proof.
  assert (H1 : one_byte_characters [72%N] = true) by reflexivity.
  assert (H2 : marker_only_at_end (framed [72%N]) = true)
    by (vm_compute; reflexivity).
  assert (Hnz : exists v, In v (Plain.tone (24 * 1024)) /\ ~ (v == 0)%Q).
  { apply PlainFacts.tone_has_a_nonzero_sample.
    apply Nat.ltb_lt. vm_compute. reflexivity. }
  assert (Hcap : (Z.of_nat (length (framed [72%N]))
                  <= DFT.max_bits (length (Plain.tone (24 * 1024))))%Z)
    by (apply Z.leb_le; vm_compute; reflexivity).
  split; [exact H1 | split; [exact H2 |]].
  destruct (@round_trip Plain.fft_lib Plain.dct_lib Plain.dwt_lib
              (Plain.tone (24 * 1024)) [72%N] H1 H2) as [_ [Tf [Tc Tw]]].
  split; [| split].
  - destruct (Tf (fun x => eq_refl) (fun x => eq_refl) PlainLaws.cabs_polar
                PlainLaws.read_back PlainLaws.scaling PlainLaws.spectrum_bound
                Hnz Hcap)
      as [max_amp [X' [max_val [out [Hst [Hemb Hext]]]]]].
    assert (Hbelow : (max_val < 2)%Q).
    { apply Qle_lt_trans with 1%Q; [| reflexivity].
      exact (@PlainLaws.stage_peak _ _ _ _ _ _ Hnz Hcap Hst). }
    exists max_amp, X', max_val, out.
    split; [exact Hst |]. split; [exact Hemb |]. split; [exact Hbelow |].
    exact (proj2 Hext Hbelow).
  - apply (Tc (fun x H => H) (fun x H => H) (fun c _ => eq_refl)).
    + discriminate.
    + apply Nat.leb_le. vm_compute. reflexivity.
  - apply (Tw (Plain.tone (24 * 1024)) eq_refl
              (PlainFacts.dwt_reconstructs (Plain.tone (24 * 1024)))).
    + discriminate.
    + apply Nat.leb_le. vm_compute. reflexivity.
Defined.
